(** * MsgReader: a shallow embedding of the compound-file decoder and the
    property extraction layer of [src/MsgReader.js], with the properties of
    its specification stated and proved against the embedded code.

    Conventions of the embedding.
    - A JavaScript number that the decoder computes is an integer of
      magnitude below 2^53, modelled as [Z]; where an array is indexed out
      of range the code obtains [undefined], and arithmetic on it yields
      [NaN]: both are the value [NaN] of type [num] (they are never told
      apart by the code: both differ from every sentinel, both seek to 0,
      both index to [undefined]).
    - A JavaScript string is its list of UTF-16 code units.
    - An [ArrayBuffer] is the list of its bytes, each a [Z] in [0, 256).
    - Exceptions are the [Throw] outcome of [result]; loops and recursions
      whose termination depends on the input take a fuel argument and give
      [OutOfFuel] when it is used up. *)

From Stdlib Require Import ZArith List Lia Bool String Ascii.
From stdpp Require Import base option list gmap.

Open Scope Z_scope.

(* ================================================================== *)
(** ** Outcomes and the state-and-exception monad *)

Inductive exn :=
| RangeError
| TypeError
| Error (msg : string).

Inductive result (A : Type) :=
| Ok (a : A)
| Throw (e : exn)
| OutOfFuel.
Arguments Ok {A} a.
Arguments Throw {A} e.
Arguments OutOfFuel {A}.

(** A computation over a mutable state [S]. *)
Definition M (S A : Type) : Type := S -> result (A * S).

Definition ret {S A} (a : A) : M S A := fun s => Ok (a, s).
Definition throw {S A} (e : exn) : M S A := fun _ => Throw e.
Definition diverge {S A} : M S A := fun _ => OutOfFuel.
Definition bind {S A B} (m : M S A) (k : A -> M S B) : M S B :=
  fun s => match m s with
           | Ok (a, s') => k a s'
           | Throw e => Throw e
           | OutOfFuel => OutOfFuel
           end.
Definition get {S} : M S S := fun s => Ok (s, s).
Definition put {S} (s : S) : M S unit := fun _ => Ok (tt, s).
Definition modify {S} (f : S -> S) : M S unit := fun s => Ok (tt, f s).

Notation "'let*' x ':=' c1 'in' c2" := (bind c1 (fun x => c2))
  (at level 10, x pattern, c1 at level 100, c2 at level 200).
Notation "'do' c1 'then' c2" := (bind c1 (fun _ => c2))
  (at level 10, c1 at level 100, c2 at level 200).

(** Pure fallible code (no state). *)
Definition rbind {A B} (r : result A) (k : A -> result B) : result B :=
  match r with
  | Ok a => k a
  | Throw e => Throw e
  | OutOfFuel => OutOfFuel
  end.

Definition terminates {A} (r : result A) : Prop := r <> OutOfFuel.

(* ================================================================== *)
(** ** JavaScript values used by the decoder *)

(** Numbers that may be [undefined]/[NaN]. *)
Inductive num :=
| Int (z : Z)
| NaN.

Abbreviation jsstring := (list Z) (only parsing).

(** The code units of an ASCII literal. *)
Fixpoint js (s : string) : list Z :=
  match s with
  | EmptyString => []
  | String c r => Z.of_nat (nat_of_ascii c) :: js r
  end.

(** [ToInt32]. *)
Definition toInt32 (z : Z) : Z :=
  let m := z mod 2 ^ 32 in if m <? 2 ^ 31 then m else m - 2 ^ 32.

(** The operators [<<] and [|] on numbers (32-bit, signed). *)
Definition js_shl (a n : Z) : Z := toInt32 (Z.shiftl (toInt32 a) (n mod 32)).
Definition js_or (a b : Z) : Z := toInt32 (Z.lor (toInt32 a) (toInt32 b)).

(** [arr[i]] on a typed array inside a bitwise expression: [undefined]
    converts to 0. *)
Definition byteAt (arr : list Z) (i : nat) : Z := nth i arr 0.

(** A [Date]: its time value in Unix milliseconds, or the invalid date when
    the argument is outside the range [TimeClip] accepts. *)
Inductive date :=
| Date (ms : Z)
| InvalidDate.

Definition newDate (ms : Z) : date :=
  if Z.abs ms <=? 8640000000000000 then Date ms else InvalidDate.

(* ================================================================== *)
(** ** Fixed property decoder: FILETIME and integers *)

Definition epochTicks : Z := 116444736000000000.
Definition ticksPerMillisecond : Z := 10000.

(** [#convertFiletimeToDateTime]. [lowPart] and [highPart] are 32-bit signed
    results of [|] and [<<]; the [BigInt] operations are exact on [Z]
    ([Z.lor] is two's complement on negative numbers, as [BigInt]'s [|]),
    [/] on [BigInt] truncates towards zero. *)
Definition lowPart (filetime : list Z) : Z :=
  js_or (js_or (js_or (byteAt filetime 0) (js_shl (byteAt filetime 1) 8))
               (js_shl (byteAt filetime 2) 16))
        (js_shl (byteAt filetime 3) 24).

Definition highPart (filetime : list Z) : Z :=
  js_or (js_or (js_or (byteAt filetime 4) (js_shl (byteAt filetime 5) 8))
               (js_shl (byteAt filetime 6) 16))
        (js_shl (byteAt filetime 7) 24).

Definition filetimeValue (filetime : list Z) : Z :=
  Z.lor (Z.shiftl (highPart filetime) 32) (lowPart filetime).

Definition unixTicks (filetime : list Z) : Z :=
  Z.quot (filetimeValue filetime - epochTicks) ticksPerMillisecond.

Definition convertFiletimeToDateTime (filetime : list Z) : date :=
  newDate (unixTicks filetime).

(* ================================================================== *)
(** ** DataStream: the byte cursor

    [buffer] is the backing [ArrayBuffer] ([#buffer]), [byteLength] the
    virtual length ([#byteLength]), [position] the seek pointer.  Every
    stream the decoder builds has [#byteOffset] 0, and the platform is
    little-endian (so [arrayToNative] is the identity on little-endian
    data); [#dynamicSize] keeps its initial value [true]. *)

Record DataStream := mkDataStream {
  buffer : list Z;
  byteLength : Z;
  position : Z
}.

Definition len {A} (l : list A) : Z := Z.of_nat (length l).

(** [new DataStream(bytes, 0, DataStream.LITTLE_ENDIAN)]. *)
Definition newDataStream (bytes : list Z) : DataStream :=
  mkDataStream bytes (len bytes) 0.

(** Little-endian and big-endian unsigned values of a byte sequence, and
    the signed reading at a width. *)
Fixpoint le_unsigned (bytes : list Z) : Z :=
  match bytes with
  | [] => 0
  | b :: r => b + 256 * le_unsigned r
  end.

Definition be_unsigned (bytes : list Z) : Z := le_unsigned (rev bytes).

Definition toSigned (bits : Z) (z : Z) : Z :=
  let m := z mod 2 ^ bits in if m <? 2 ^ (bits - 1) then m else m - 2 ^ bits.

(** [arr[i]] on an array or typed array: [undefined] out of range. *)
Definition elementAt {A} (l : list A) (i : num) : option A :=
  match i with
  | Int z => if 0 <=? z then l !! Z.to_nat z else None
  | NaN => None
  end.

Definition numOf (o : option Z) : num :=
  match o with Some z => Int z | None => NaN end.

Definition slice (l : list Z) (pos n : Z) : list Z :=
  take (Z.to_nat n) (drop (Z.to_nat pos) l).

(** [seek]: clamps into [0, byteLength]; [NaN] seeks to 0. *)
Definition seek (pos : num) : M DataStream unit := fun ds =>
  let npos := match pos with
              | Int p => Z.max 0 (Z.min (byteLength ds) p)
              | NaN => 0
              end in
  Ok (tt, mkDataStream (buffer ds) (byteLength ds) npos).

Definition isEof : M DataStream bool := fun ds =>
  Ok (byteLength ds <=? position ds, ds).

(** A [DataView] read of [n] bytes at the seek pointer: [RangeError] when it
    leaves the backing buffer. *)
Definition viewBytes (n : Z) : M DataStream (list Z) := fun ds =>
  if position ds + n <=? len (buffer ds)
  then Ok (slice (buffer ds) (position ds) n,
           mkDataStream (buffer ds) (byteLength ds) (position ds + n))
  else Throw RangeError.

Definition readUint8 : M DataStream Z :=
  let* b := viewBytes 1 in ret (le_unsigned b).
Definition readUint16 : M DataStream Z :=
  let* b := viewBytes 2 in ret (le_unsigned b).
Definition readUint32 : M DataStream Z :=
  let* b := viewBytes 4 in ret (le_unsigned b).
Definition readInt8 : M DataStream Z :=
  let* b := viewBytes 1 in ret (toSigned 8 (le_unsigned b)).
Definition readInt16 : M DataStream Z :=
  let* b := viewBytes 2 in ret (toSigned 16 (le_unsigned b)).
Definition readInt32 : M DataStream Z :=
  let* b := viewBytes 4 in ret (toSigned 32 (le_unsigned b)).

Definition readInt (offset : num) : M DataStream Z :=
  do seek offset then readInt32.
Definition readShort (offset : num) : M DataStream Z :=
  do seek offset then readInt16.
Definition readByte (offset : num) : M DataStream Z :=
  do seek offset then readInt8.

(** [#trimAlloc], run by the [buffer] getter: the backing buffer is cut to
    the virtual length when they differ. *)
Definition trimAlloc : M DataStream unit := fun ds =>
  if byteLength ds =? len (buffer ds) then Ok (tt, ds)
  else Ok (tt, mkDataStream (slice (buffer ds) 0 (byteLength ds))
                            (byteLength ds) (position ds)).

(** [#realloc]: a read through [mapUint8Array] that ends beyond the backing
    buffer grows it, by doubling, with zero bytes. *)
Fixpoint doubleUntil (fuel : nat) (req blen : Z) : Z :=
  match fuel with
  | O => blen
  | S f => if blen <? req then doubleUntil f req (blen * 2) else blen
  end.

Definition realloc (extra : Z) : M DataStream unit := fun ds =>
  let req := position ds + extra in
  let blen := len (buffer ds) in
  if req <=? blen then
    if byteLength ds <? req
    then Ok (tt, mkDataStream (buffer ds) req (position ds))
    else Ok (tt, ds)
  else
    let blen1 := if blen <? 1 then 1 else blen in
    let blen2 := doubleUntil (Z.to_nat req) req blen1 in
    Ok (tt, mkDataStream (buffer ds ++ repeat 0 (Z.to_nat (blen2 - blen)))
                         req (position ds)).

(** [DataStream.memcpy] out of the stream into a fresh array of [n] bytes:
    the typed-array views throw a [RangeError] on a negative length or a
    source range that leaves the buffer. *)
Definition copyBytes (n : Z) : M DataStream (list Z) :=
  do trimAlloc then
  fun ds =>
    if (n <? 0) || (len (buffer ds) <? position ds + n)
    then Throw RangeError
    else Ok (slice (buffer ds) (position ds) n,
             mkDataStream (buffer ds) (byteLength ds) (position ds + n)).

Definition readUint8Array (length : Z) : M DataStream (list Z) :=
  copyBytes length.

Fixpoint chunks (n : nat) (k : nat) (l : list Z) : list (list Z) :=
  match k with
  | O => []
  | S k' => take n l :: chunks n k' (drop n l)
  end.

Definition readInt32Array (length : Z) : M DataStream (list Z) :=
  let* b := copyBytes (length * 4) in
  ret (map (fun c => toSigned 32 (le_unsigned c)) (chunks 4 (Z.to_nat length) b)).

(** [readUint16Array(byteSize / 2)]: the argument is given by the byte size
    it is half of.  For an odd byte size the array has [floor] elements and
    [memcpy] is asked for more bytes than its buffer holds: [RangeError]. *)
Definition readUint16Array (byteSize : Z) : M DataStream (list Z) :=
  if Z.odd byteSize then throw RangeError
  else
    let* b := copyBytes byteSize in
    ret (map le_unsigned (chunks 2 (Z.to_nat (byteSize / 2)) b)).

(** [mapUint8Array]. *)
Definition mapUint8Array (length : Z) : M DataStream (list Z) :=
  do realloc length then
  fun ds =>
    if (length <? 0) || (len (buffer ds) <? position ds + length)
    then Throw RangeError
    else Ok (slice (buffer ds) (position ds) length,
             mkDataStream (buffer ds) (byteLength ds) (position ds + length)).

(** [createStringFromArray]: one code unit per element. *)
Definition createStringFromArray (array : list Z) : jsstring := array.

Definition readString (length : Z) : M DataStream jsstring :=
  let* a := mapUint8Array length in ret (createStringFromArray a).

Definition readUCS2String (byteSize : Z) : M DataStream jsstring :=
  let* a := readUint16Array byteSize in ret (createStringFromArray a).

Definition readStringAt (offset : num) (byteSize : Z) : M DataStream jsstring :=
  do seek offset then readUCS2String byteSize.

(* ================================================================== *)
(** ** Constants ([MsgReader.CONST]) *)

Definition FILE_HEADER : list Z :=
  map (toSigned 8) [0xD0; 0xCF; 0x11; 0xE0; 0xA1; 0xB1; 0x1A; 0xE1].
Definition UNUSED_BLOCK : Z := -1.
Definition END_OF_CHAIN : Z := -2.
Definition S_BIG_BLOCK_SIZE : Z := 0x0200.
Definition L_BIG_BLOCK_SIZE : Z := 0x1000.
Definition L_BIG_BLOCK_MARK : Z := 12.
Definition SMALL_BLOCK_SIZE : Z := 0x0040.
Definition BIG_BLOCK_MIN_DOC_SIZE : Z := 0x1000.
Definition PROPERTY_START_OFFSET : Z := 0x30.
Definition BAT_START_OFFSET : Z := 0x4c.
Definition BAT_COUNT_OFFSET : Z := 0x2C.
Definition SBAT_START_OFFSET : Z := 0x3C.
Definition SBAT_COUNT_OFFSET : Z := 0x40.
Definition XBAT_START_OFFSET : Z := 0x44.
Definition XBAT_COUNT_OFFSET : Z := 0x48.
Definition NO_INDEX : Z := -1.
Definition PROPERTY_SIZE : Z := 0x0080.
Definition NAME_SIZE_OFFSET : Z := 0x40.
Definition TYPE_OFFSET : Z := 0x42.
Definition PREVIOUS_PROPERTY_OFFSET : Z := 0x44.
Definition NEXT_PROPERTY_OFFSET : Z := 0x48.
Definition CHILD_PROPERTY_OFFSET : Z := 0x4C.
Definition START_BLOCK_OFFSET : Z := 0x74.
Definition SIZE_OFFSET : Z := 0x78.
Definition DIRECTORY : Z := 1.
Definition DOCUMENT : Z := 2.
Definition ROOT : Z := 5.

(* ================================================================== *)
(** ** Container data ([msgData]) and directory entries *)

(** A directory entry, as [#convertProperty] builds it; [children] is the
    property [#createPropertyHierarchy] adds ([None]: not set). *)
Record property := mkProperty {
  index_ : Z;
  type : Z;
  name : list Z;
  previousProperty : Z;
  nextProperty : Z;
  childProperty : Z;
  startBlock : Z;
  sizeBlock : Z;
  children : option (list Z)
}.

Record msgData := mkMsgData {
  bigBlockSize : Z;
  bigBlockLength : Z;
  xBlockLength : Z;
  batCount : Z;
  propertyStart : Z;
  sbatStart : Z;
  sbatCount : Z;
  xbatStart : Z;
  xbatCount : Z;
  batData : list Z;
  sbatData : list num;
  propertyData : list (option property)
}.

Definition set_batData (m : msgData) (b : list Z) : msgData :=
  mkMsgData (bigBlockSize m) (bigBlockLength m) (xBlockLength m) (batCount m)
    (propertyStart m) (sbatStart m) (sbatCount m) (xbatStart m) (xbatCount m)
    b (sbatData m) (propertyData m).
Definition set_sbatData (m : msgData) (b : list num) : msgData :=
  mkMsgData (bigBlockSize m) (bigBlockLength m) (xBlockLength m) (batCount m)
    (propertyStart m) (sbatStart m) (sbatCount m) (xbatStart m) (xbatCount m)
    (batData m) b (propertyData m).
Definition set_propertyData (m : msgData) (p : list (option property)) : msgData :=
  mkMsgData (bigBlockSize m) (bigBlockLength m) (xBlockLength m) (batCount m)
    (propertyStart m) (sbatStart m) (sbatCount m) (xbatStart m) (xbatCount m)
    (batData m) (sbatData m) p.

(* ================================================================== *)
(** ** Header decoder and allocation tables *)

(** [#isMSGFile]. *)
Definition isMSGFile : M DataStream bool :=
  do seek (Int 0) then
  let* b := copyBytes (len FILE_HEADER) in
  ret (bool_decide (map (toSigned 8) b = FILE_HEADER)).

(** [n === z] for a number that may be [NaN]. *)
Definition is_num (n : num) (z : Z) : bool :=
  match n with Int x => x =? z | NaN => false end.

(** Arithmetic on numbers that may be [NaN]. *)
Definition num_map (f : Z -> Z) (n : num) : num :=
  match n with Int z => Int (f z) | NaN => NaN end.

(** [#getBlockOffsetAt]. *)
Definition getBlockOffsetAt (m : msgData) (offset : num) : num :=
  num_map (fun o => (o + 1) * bigBlockSize m) offset.

(** [#getBlockAt]. *)
Definition getBlockAt (m : msgData) (offset : num) : M DataStream (list Z) :=
  let startOffset := getBlockOffsetAt m offset in
  do seek startOffset then
  readInt32Array (bigBlockLength m).

(** [#getNextBlockInner]: [Math.floor(offset / bigBlockLength)] is [Z.div],
    [%] is the truncated remainder [Z.rem]. *)
Definition getNextBlockInner (m : msgData) (offset : num)
    (blockOffsetData : list num) : M DataStream num :=
  let currentBlock := num_map (fun o => o / bigBlockLength m) offset in
  let currentBlockIndex := num_map (fun o => Z.rem o (bigBlockLength m)) offset in
  let startBlockOffset :=
    match elementAt blockOffsetData currentBlock with
    | Some n => n
    | None => NaN
    end in
  let* block := getBlockAt m startBlockOffset in
  ret (numOf (elementAt block currentBlockIndex)).

Definition getNextBlock (m : msgData) (offset : num) : M DataStream num :=
  getNextBlockInner m offset (map Int (batData m)).

Definition getNextBlockSmall (m : msgData) (offset : num) : M DataStream num :=
  getNextBlockInner m offset (sbatData m).

(** [#headerData]. *)
Definition headerData : M DataStream msgData :=
  let* mark := readByte (Int 30) in
  let bigBlockSize :=
    if mark =? L_BIG_BLOCK_MARK then L_BIG_BLOCK_SIZE else S_BIG_BLOCK_SIZE in
  let bigBlockLength := bigBlockSize / 4 in
  let xBlockLength := bigBlockLength - 1 in
  let* batCount := readInt (Int BAT_COUNT_OFFSET) in
  let* propertyStart := readInt (Int PROPERTY_START_OFFSET) in
  let* sbatStart := readInt (Int SBAT_START_OFFSET) in
  let* sbatCount := readInt (Int SBAT_COUNT_OFFSET) in
  let* xbatStart := readInt (Int XBAT_START_OFFSET) in
  let* xbatCount := readInt (Int XBAT_COUNT_OFFSET) in
  ret (mkMsgData bigBlockSize bigBlockLength xBlockLength batCount
         propertyStart sbatStart sbatCount xbatStart xbatCount [] [] []).

(** [#batCountInHeader]. *)
Definition batCountInHeader (m : msgData) : Z :=
  let maxBatsInHeader := (S_BIG_BLOCK_SIZE - BAT_START_OFFSET) / 4 in
  Z.min (batCount m) maxBatsInHeader.

(** The loop of [#batData]: [n] consecutive [readInt32]. *)
Fixpoint readInt32s (n : nat) : M DataStream (list Z) :=
  match n with
  | O => ret []
  | S n' => let* v := readInt32 in let* r := readInt32s n' in ret (v :: r)
  end.

(** [#batData]: [new Array(n)] throws a [RangeError] on a negative [n]. *)
Definition batData_ (m : msgData) : M DataStream (list Z) :=
  let n := batCountInHeader m in
  if n <? 0 then throw RangeError
  else do seek (Int BAT_START_OFFSET) then readInt32s (Z.to_nat n).

(** The loop of [#sbatData], [todo] iterations of [i < sbatCount] left. *)
Fixpoint sbatLoop (m : msgData) (todo : nat) (startIndex : num)
    (result : list num) : M DataStream (list num) :=
  match todo with
  | O => ret result
  | S todo' =>
      if is_num startIndex END_OF_CHAIN then ret result
      else
        let* next := getNextBlock m startIndex in
        sbatLoop m todo' next (result ++ [startIndex])
  end.

(** [#sbatData]. *)
Definition sbatData_ (m : msgData) : M DataStream (list num) :=
  sbatLoop m (Z.to_nat (sbatCount m)) (Int (sbatStart m)) [].

(** The inner loop of [#xbatData]: the first [blocksToProcess] entries of
    the block, up to the first unused or end-of-chain mark. *)
Fixpoint xbatEntries (todo : nat) (xBatBlock : list Z) : list Z :=
  match todo, xBatBlock with
  | S todo', blockStartAt :: rest =>
      if (blockStartAt =? UNUSED_BLOCK) || (blockStartAt =? END_OF_CHAIN)
      then []
      else blockStartAt :: xbatEntries todo' rest
  | _, _ => []
  end.

(** The outer loop of [#xbatData].  [blocksToProcess] never exceeds the
    block's length, so every [xBatBlock[j]] read is in range. *)
Fixpoint xbatLoop (m : msgData) (todo : nat) (nextBlockAt : num)
    (remainingBlocks : Z) (bat : list Z) : M DataStream (list Z) :=
  match todo with
  | O => ret bat
  | S todo' =>
      let* xBatBlock := getBlockAt m nextBlockAt in
      let next := numOf (elementAt xBatBlock (Int (xBlockLength m))) in
      let blocksToProcess := Z.min remainingBlocks (xBlockLength m) in
      xbatLoop m todo' next (remainingBlocks - blocksToProcess)
        (bat ++ xbatEntries (Z.to_nat blocksToProcess) xBatBlock)
  end.

(** [#xbatData]. *)
Definition xbatData (m : msgData) : M DataStream msgData :=
  let batCount_ := batCountInHeader m in
  let remainingBlocks := batCount m - batCount_ in
  let* batTable := xbatLoop m (Z.to_nat (xbatCount m)) (Int (xbatStart m))
                      remainingBlocks (batData m) in
  ret (set_batData m batTable).

(* ================================================================== *)
(** ** Directory entries: flat parse *)

Definition num_add (n : num) (z : Z) : num := num_map (fun o => o + z) n.

(** [#convertName]; [.replace(/\0/g, '')] removes every NUL code unit. *)
Definition convertName (offset : num) : M DataStream jsstring :=
  let* nameLength := readShort (num_add offset NAME_SIZE_OFFSET) in
  if nameLength <? 1 then ret []
  else
    let* s := readStringAt offset nameLength in
    ret (filter (fun c => c <> 0) s).

(** [#convertProperty]. *)
Definition convertProperty (idx : Z) (offset : num) : M DataStream property :=
  let* type := readByte (num_add offset TYPE_OFFSET) in
  let* name := convertName offset in
  let* previousProperty := readInt (num_add offset PREVIOUS_PROPERTY_OFFSET) in
  let* nextProperty := readInt (num_add offset NEXT_PROPERTY_OFFSET) in
  let* childProperty := readInt (num_add offset CHILD_PROPERTY_OFFSET) in
  let* startBlock := readInt (num_add offset START_BLOCK_OFFSET) in
  let* sizeBlock := readInt (num_add offset SIZE_OFFSET) in
  ret (mkProperty idx type name previousProperty nextProperty childProperty
         startBlock sizeBlock None).

(** The loop of [#convertBlockToProperties], [todo] records left. *)
Fixpoint convertBlockLoop (todo : nat) (propertyOffset : num)
    (props : list (option property)) : M DataStream (list (option property)) :=
  match todo with
  | O => ret props
  | S todo' =>
      let* propertyType := readByte (num_add propertyOffset TYPE_OFFSET) in
      let* props' :=
        if (propertyType =? ROOT) || (propertyType =? DIRECTORY)
           || (propertyType =? DOCUMENT)
        then
          let* p := convertProperty (len props) propertyOffset in
          ret (props ++ [Some p])
        else ret (props ++ [None]) in
      convertBlockLoop todo' (num_add propertyOffset PROPERTY_SIZE) props'
  end.

(** [#convertBlockToProperties]. *)
Definition convertBlockToProperties (m : msgData) (propertyBlockOffset : num)
    (props : list (option property)) : M DataStream (list (option property)) :=
  let propertyCount := bigBlockSize m / PROPERTY_SIZE in
  let propertyOffset := getBlockOffsetAt m propertyBlockOffset in
  convertBlockLoop (Z.to_nat propertyCount) propertyOffset props.

(* ================================================================== *)
(** ** Tree reconstruction

    An entry object sits at exactly one position of [props] (its [index]),
    so the object [nodeProperty] the source passes around is named here by
    that position; mutating the object is updating the list there. *)

Definition set_children (p : property) (c : list Z) : property :=
  mkProperty (index_ p) (type p) (name p) (previousProperty p)
    (nextProperty p) (childProperty p) (startBlock p) (sizeBlock p) (Some c).

(** [props[i]] when it is an entry; [None] for an absent slot (a [null]
    placeholder or an index outside the array). *)
Definition entryAt (props : list (option property)) (i : Z) : option property :=
  match elementAt props (Int i) with
  | Some (Some p) => Some p
  | _ => None
  end.

(** [nodeProperty.children.push(currentIndex)]. *)
Definition pushChild (props : list (option property)) (node : Z)
    (currentIndex : Z) : result (list (option property)) :=
  match entryAt props node with
  | Some p =>
      match children p with
      | Some c =>
          Ok (<[Z.to_nat node := Some (set_children p (c ++ [currentIndex]))]> props)
      | None => Throw TypeError
      end
  | None => Throw TypeError
  end.

(** [#createPropertyHierarchy] and its [while] loop over the worklist
    [children] ([shift] takes the head, [push] appends).  One unit of fuel
    is spent per call and per iteration.  The function calls itself for
    every storage it meets and has no bound on the depth of these calls:
    [stack] is the number of nested calls of it the call stack of the
    engine has room for, and a call beyond is the engine's [RangeError]
    (maximum call stack size exceeded).  The loop runs in the frame of the
    call that started it. *)
Fixpoint createPropertyHierarchy (fuel stack : nat)
    (props : list (option property)) (node : Z)
  : result (list (option property)) :=
  match fuel with
  | O => OutOfFuel
  | S f =>
      match stack with
      | O => Throw RangeError
      | S st =>
          match entryAt props node with
          | None => Throw TypeError
          | Some nodeProperty =>
              if childProperty nodeProperty =? NO_INDEX then Ok props
              else
                let props1 :=
                  <[Z.to_nat node := Some (set_children nodeProperty [])]> props in
                hierarchyLoop f st props1 node [childProperty nodeProperty]
          end
      end
  end
with hierarchyLoop (fuel stack : nat) (props : list (option property))
    (node : Z) (worklist : list Z) : result (list (option property)) :=
  match fuel with
  | O => OutOfFuel
  | S f =>
      match worklist with
      | [] => Ok props
      | currentIndex :: rest =>
          match entryAt props currentIndex with
          | None => hierarchyLoop f stack props node rest
          | Some current =>
              rbind (pushChild props node currentIndex) (fun props1 =>
              rbind (if type current =? DIRECTORY
                     then createPropertyHierarchy f stack props1 currentIndex
                     else Ok props1) (fun props2 =>
              let rest1 :=
                if previousProperty current =? NO_INDEX then rest
                else rest ++ [previousProperty current] in
              let rest2 :=
                if nextProperty current =? NO_INDEX then rest1
                else rest1 ++ [nextProperty current] in
              hierarchyLoop f stack props2 node rest2))
          end
      end
  end.

(** The [while] loop of [#propertyData]: the directory-chain walk. *)
Fixpoint propertyLoop (fuel : nat) (m : msgData) (currentOffset : num)
    (props : list (option property)) : M DataStream (list (option property)) :=
  match fuel with
  | O => diverge
  | S f =>
      if is_num currentOffset END_OF_CHAIN then ret props
      else
        let* props' := convertBlockToProperties m currentOffset props in
        let* next := getNextBlock m currentOffset in
        propertyLoop f m next props'
  end.

Definition liftR {S A} (r : result A) : M S A := fun s =>
  match r with
  | Ok a => Ok (a, s)
  | Throw e => Throw e
  | OutOfFuel => OutOfFuel
  end.

(** [#propertyData]. *)
Definition propertyData_ (fuel stack : nat) (m : msgData)
  : M DataStream (list (option property)) :=
  let* props := propertyLoop fuel m (Int (propertyStart m)) [] in
  liftR (createPropertyHierarchy fuel stack props 0).

(* ================================================================== *)
(** ** Stream resolver *)

(** The storage types of [TYPE_MAPPING]. *)
Inductive dtype := TString | TUnicode | TBinary.

#[global] Instance dtype_eq_dec : EqDecision dtype.
Proof. solve_decision. Defined.

(** A property of the fixed property stream ([#readRootProperties]). *)
Inductive fieldData :=
| DNull
| DDate (d : date)
| DNumber (z : Z)
| DBigInt (z : Z)
| DBool (b : bool).

Record fixedProperty := mkFixedProperty {
  fp_type : Z;
  fp_typeStr : list Z;
  fp_flags : Z;
  fp_binData : list Z;
  fp_data : fieldData
}.

Record rootHeader := mkRootHeader {
  nextRecipientId : Z;
  nextAttachmentId : Z;
  recipientCount : Z;
  attachmentCount : Z
}.

(** The members of the object [#readRootProperties] returns: [_header] and
    one property per field name. *)
Inductive rootEntry :=
| RHeader (h : rootHeader)
| RProperty (p : fixedProperty).

(** Heap locations of the bags and arrays the field extractor mutates. *)
Definition loc := nat.

(** The values stored in a bag of fields. *)
Inductive value :=
| VNull
| VString (s : list Z)
| VBytes (b : list Z)
| VNumber (z : Z)
| VBool (b : bool)
| VRef (l : loc)
| VProperties (p : gmap (list Z) rootEntry).

(** The two extractors of [extractorFieldValue]. *)
Inductive extractorKind := sbat | bat.

(** [extractorFieldValue.sbat.dataType]. *)
Definition sbatDataType (t : dtype) (blockStartOffset bigBlockOffset : num)
    (blockSize : Z) : M DataStream value :=
  let pos := match blockStartOffset, bigBlockOffset with
             | Int a, Int b => Int (a + b)
             | _, _ => NaN
             end in
  do seek pos then
  match t with
  | TString => let* s := readString blockSize in ret (VString s)
  | TUnicode => let* s := readUCS2String blockSize in ret (VString s)
  | TBinary => let* b := readUint8Array blockSize in ret (VBytes b)
  end.

(** [extractorFieldValue.bat.dataType]. *)
Definition batDataType (t : dtype) (fieldProperty : property) : M DataStream value :=
  match t with
  | TString => let* s := readString (sizeBlock fieldProperty) in ret (VString s)
  | TUnicode => let* s := readUCS2String (sizeBlock fieldProperty) in ret (VString s)
  | TBinary => let* b := readUint8Array (sizeBlock fieldProperty) in ret (VBytes b)
  end.

(** [extractDataViaBat]: seek to the start block and decode from there. *)
Definition extractDataViaBat (m : msgData) (fieldProperty : property)
    (t : dtype) : M DataStream value :=
  let offset := getBlockOffsetAt m (Int (startBlock fieldProperty)) in
  do seek offset then
  batDataType t fieldProperty.

(** The [for] loop of [#readDataByBlockSmall]. *)
Fixpoint followBlocks (m : msgData) (n : nat) (nextBlock : num) : M DataStream num :=
  match n with
  | O => ret nextBlock
  | S n' => let* nb := getNextBlock m nextBlock in followBlocks m n' nb
  end.

(** [#readDataByBlockSmall]; a [NaN] or negative [bigBlockNumber] runs the
    loop zero times. *)
Definition readDataByBlockSmall (m : msgData) (startBlock_ : num) (blockSize : Z)
    (t : dtype) : M DataStream value :=
  let byteOffset := num_map (fun s => s * SMALL_BLOCK_SIZE) startBlock_ in
  let bigBlockNumber := num_map (fun o => o / bigBlockSize m) byteOffset in
  let bigBlockOffset := num_map (fun o => Z.rem o (bigBlockSize m)) byteOffset in
  match entryAt (propertyData m) 0 with
  | None => throw TypeError
  | Some rootProp =>
      let iterations := match bigBlockNumber with
                        | Int n => Z.to_nat n
                        | NaN => O
                        end in
      let* nextBlock := followBlocks m iterations (Int (startBlock rootProp)) in
      let blockStartOffset := getBlockOffsetAt m nextBlock in
      sbatDataType t blockStartOffset bigBlockOffset blockSize
  end.

(** [resultData[idx] = v] on an [Int8Array]: ignored out of range, kept as a
    signed byte. *)
Definition storeInt8 (arr : list Z) (idx : Z) (v : Z) : list Z :=
  if idx <? len arr then <[Z.to_nat idx := toSigned 8 v]> arr else arr.

(** The inner loop of [#readChainDataByBlockSmall]. *)
Fixpoint storeAll (arr : list Z) (idx : Z) (data : list Z) : list Z * Z :=
  match data with
  | [] => (arr, idx)
  | v :: r => storeAll (storeInt8 arr idx v) (idx + 1) r
  end.

(** The outer loop of [#readChainDataByBlockSmall]. *)
Fixpoint chainLoop (m : msgData) (chain : list num) (resultData : list Z)
    (idx : Z) : M DataStream (list Z) :=
  match chain with
  | [] => ret resultData
  | c :: rest =>
      let* data := readDataByBlockSmall m c SMALL_BLOCK_SIZE TBinary in
      match data with
      | VBytes d =>
          let '(resultData', idx') := storeAll resultData idx d in
          chainLoop m rest resultData' idx'
      | _ => throw TypeError
      end
  end.

(** Running a computation on a stream of its own. *)
Definition onLocal {A} (localDs : DataStream) (c : M DataStream A) : M DataStream A :=
  fun ds => match c localDs with
            | Ok (a, _) => Ok (a, ds)
            | Throw e => Throw e
            | OutOfFuel => OutOfFuel
            end.

(** The bytes of an [Int8Array]'s buffer. *)
Definition int8Bytes (arr : list Z) : list Z := map (fun v => v mod 256) arr.

(** [#readChainDataByBlockSmall]. *)
Definition readChainDataByBlockSmall (m : msgData) (fieldProperty : property)
    (chain : list num) (t : dtype) : M DataStream value :=
  if sizeBlock fieldProperty <? 0 then throw RangeError
  else
    let resultData := repeat 0 (Z.to_nat (sizeBlock fieldProperty)) in
    let* resultData' := chainLoop m chain resultData 0 in
    let localDs := newDataStream (int8Bytes resultData') in
    onLocal localDs (sbatDataType t (Int 0) (Int 0) (sizeBlock fieldProperty)).

(** [#getChainByBlockSmall]: the small-block chain walk. *)
Fixpoint chainBySmall (fuel : nat) (m : msgData) (nextBlockSmall : num)
    (blockChain : list num) : M DataStream (list num) :=
  match fuel with
  | O => diverge
  | S f =>
      if is_num nextBlockSmall END_OF_CHAIN then ret blockChain
      else
        let* next := getNextBlockSmall m nextBlockSmall in
        chainBySmall f m next (blockChain ++ [nextBlockSmall])
  end.

Definition getChainByBlockSmall (fuel : nat) (m : msgData)
    (fieldProperty : property) : M DataStream (list num) :=
  chainBySmall fuel m (Int (startBlock fieldProperty)) [].

(** [extractDataViaSbat]. *)
Definition extractDataViaSbat (fuel : nat) (m : msgData)
    (fieldProperty : property) (t : dtype) : M DataStream value :=
  let* chain := getChainByBlockSmall fuel m fieldProperty in
  if len chain =? 1 then
    readDataByBlockSmall m (Int (startBlock fieldProperty))
      (sizeBlock fieldProperty) t
  else if 1 <? len chain then
    readChainDataByBlockSmall m fieldProperty chain t
  else ret VNull.

(** The choice of [#getFieldValue]. *)
Definition valueExtractor (fieldProperty : property) : extractorKind :=
  if sizeBlock fieldProperty <? BIG_BLOCK_MIN_DOC_SIZE then sbat else bat.

Definition extractor (k : extractorKind) (fuel : nat) (m : msgData)
    (fieldProperty : property) (t : dtype) : M DataStream value :=
  match k with
  | sbat => extractDataViaSbat fuel m fieldProperty t
  | bat => extractDataViaBat m fieldProperty t
  end.

(** [#getFieldValue]; [typeMapped] is [None] when the type mapping has no
    entry, and then there is no extractor for it. *)
Definition getFieldValue (fuel : nat) (m : msgData) (fieldProperty : property)
    (typeMapped : option dtype) : M DataStream value :=
  match typeMapped with
  | Some t => extractor (valueExtractor fieldProperty) fuel m fieldProperty t
  | None => ret VNull
  end.

(* ================================================================== *)
(** ** Strings *)

(** [s.indexOf(p) === 0]. *)
Fixpoint startsWith (p s : list Z) : bool :=
  match p, s with
  | [], _ => true
  | a :: p', b :: s' => (a =? b) && startsWith p' s'
  | _ :: _, [] => false
  end.

(** [s.indexOf(p) !== -1]. *)
Fixpoint contains (p s : list Z) : bool :=
  startsWith p s ||
  match s with
  | [] => false
  | _ :: s' => contains p s'
  end.

(** [s.substring(a)] and [s.substring(a, b)] for [0 <= a <= b]. *)
Definition substringFrom (a : nat) (s : list Z) : list Z := drop a s.
Definition substring (a b : nat) (s : list Z) : list Z := take (b - a) (drop a s).

(** [n.toString(radix)] for [0 <= n]: digits, most significant first. *)
Definition digitChar (d : Z) : Z := if d <? 10 then 48 + d else 87 + d.

Fixpoint digitsAcc (fuel : nat) (radix n : Z) (acc : list Z) : list Z :=
  match fuel with
  | O => acc
  | S f =>
      let acc' := digitChar (n mod radix) :: acc in
      if n <? radix then acc' else digitsAcc f radix (n / radix) acc'
  end.

Definition toStringRadix (radix n : Z) : list Z :=
  digitsAcc (S (Z.to_nat (Z.log2 n))) radix n [].

(** [s.padStart(4, '0')]. *)
Definition padStart4 (s : list Z) : list Z := repeat 48 (4 - length s) ++ s.

(** The text of a 16-bit code: [n.toString(16).padStart(4, '0')]. *)
Definition hex4 (n : Z) : list Z := padStart4 (toStringRadix 16 n).

(** Lower-casing of the letters [A]-[Z]; other code units are kept. *)
Definition asciiLower (s : list Z) : list Z :=
  map (fun c => if (65 <=? c) && (c <=? 90) then c + 32 else c) s.

(* ================================================================== *)
(** ** Fixed property stream decoder *)

(** [#uint8ArrayToInt(binaryData, size, true)]: the first [size / 8] bytes,
    read back through a [DataView] without an endianness argument, that is
    big-endian. *)
Definition uint8ArrayToInt (uint8Array : list Z) (size : Z) : Z :=
  let n := Z.to_nat (size / 8) in
  let bytes := map (fun i => nth i uint8Array 0 mod 256) (seq 0 n) in
  if size =? 64 then
    let high := toSigned 32 (be_unsigned (take 4 bytes)) in
    let low := be_unsigned (drop 4 bytes) in
    low + Z.shiftl high 32
  else toSigned size (be_unsigned bytes).

Definition invalidPropertiesHeader : exn := Error "invalid properties header".

(** The two [for] loops over reserved bytes of [#readRootProperties]. *)
Fixpoint checkReserved (n : nat) : M DataStream unit :=
  match n with
  | O => ret tt
  | S n' =>
      let* b := readUint8 in
      if b =? 0 then checkReserved n' else throw invalidPropertiesHeader
  end.

(** [n] consecutive [readUint8]. *)
Fixpoint readUint8s (n : nat) : M DataStream (list Z) :=
  match n with
  | O => ret []
  | S n' => let* v := readUint8 in let* r := readUint8s n' in ret (v :: r)
  end.

(** The storage types of [TYPE_MAPPING], by their text. *)
Definition TYPE_MAPPING (fieldType : list Z) : option dtype :=
  if bool_decide (fieldType = js "001e") then Some TString
  else if bool_decide (fieldType = js "001f") then Some TUnicode
  else if bool_decide (fieldType = js "0102") then Some TBinary
  else None.

Definition ATTACHMENT_DATA : list Z := js "3701".
Definition INNER_MSG : list Z := js "000d".
Definition PREFIX_ATTACHMENT : list Z := js "__attach_version1.0".
Definition PREFIX_RECIPIENT : list Z := js "__recip_version1.0".
Definition PREFIX_DOCUMENT : list Z := js "__substg1.".

Section Extraction.

(** The table [MAPI_PROPERTIES] of the source, from keys such as ["0x0037"]
    to names such as ["Subject"], is a parameter here, as are the two
    functions of the host the extraction calls: [String.prototype.toLowerCase]
    and [TextDecoder('utf-8').decode].  The names of the table are MAPI
    identifiers; none is a member of [Object.prototype], so a lookup in a
    bag of fields is a lookup among the bag's own keys. *)
Variable MAPI_PROPERTIES : list Z -> option (list Z).
Variable toLowerCase : list Z -> list Z.
Variable utf8Decode : list Z -> list Z.

(** [#getMapiFieldName]. *)
Definition getMapiFieldName (fieldClass : list Z) : option (list Z) :=
  MAPI_PROPERTIES (js "0x" ++ toLowerCase fieldClass).

(** [#readFieldData]; of a 64-bit value the source tests [!== 0] between a
    [BigInt] and a number, which holds whatever the value. *)
Definition readFieldData (ftype : list Z) (binaryData : list Z) : fieldData :=
  let t := toLowerCase ftype in
  if bool_decide (t = js "0040") then DDate (convertFiletimeToDateTime binaryData)
  else if bool_decide (t = js "0001") then DNull
  else if bool_decide (t = js "0002") then DNumber (uint8ArrayToInt binaryData 16)
  else if bool_decide (t = js "0003") then DNumber (uint8ArrayToInt binaryData 32)
  else if bool_decide (t = js "0014") then DBigInt (uint8ArrayToInt binaryData 64)
  else if bool_decide (t = js "000b") then DBool true
  else DNull.

(** The [while (!ds.isEof())] loop of [#readRootProperties].  [fp_flags]
    keeps the number read; the three booleans the source derives from its
    hexadecimal text are not part of the model. *)
Fixpoint recordsLoop (fuel : nat) (values : gmap (list Z) rootEntry)
  : M DataStream (gmap (list Z) rootEntry) :=
  match fuel with
  | O => diverge
  | S f =>
      let* eof := isEof in
      if eof then ret values
      else
        let* fieldType := readUint16 in
        let* fieldClass := readUint16 in
        let* flags := readUint32 in
        let fieldName := getMapiFieldName (hex4 fieldClass) in
        let typeStr := hex4 fieldType in
        let* value := readUint8s 8 in
        let fieldName' :=
          match fieldName with
          | Some (c :: n) => c :: n
          | _ => js "_" ++ typeStr
          end in
        let property :=
          mkFixedProperty fieldType typeStr flags value
            (readFieldData typeStr value) in
        recordsLoop f (<[fieldName' := RProperty property]> values)
  end.

(** [#readRootProperties].  The stream is built over the bytes of
    [binPropertiesData]; [null] in its place is a [TypeError].  Every
    iteration of the record loop moves the seek pointer forward or throws,
    so the length of the data bounds the iterations. *)
Definition readRootProperties (binPropertiesData : value)
  : result (gmap (list Z) rootEntry) :=
  match binPropertiesData with
  | VBytes bytes =>
      let body :=
        do seek (Int 0) then
        do checkReserved 8 then
        let* nextRecipientId := readUint32 in
        let* nextAttachmentId := readUint32 in
        let* recipientCount := readUint32 in
        let* attachmentCount := readUint32 in
        do checkReserved 8 then
        let header := mkRootHeader nextRecipientId nextAttachmentId
                        recipientCount attachmentCount in
        recordsLoop (S (length bytes)) {[ js "_header" := RHeader header ]} in
      match body (newDataStream bytes) with
      | Ok (values, _) => Ok values
      | Throw e => Throw e
      | OutOfFuel => OutOfFuel
      end
  | _ => Throw TypeError
  end.

(* ================================================================== *)
(** ** Field extractor

    The bags of fields and the arrays of sub-bags are objects the source
    mutates through references; they live in a heap, addressed by
    location, next to the byte cursor. *)

Inductive obj :=
| OBag (fields : gmap (list Z) value)
| OArray (items : list value).

Record state := mkState {
  st_ds : DataStream;
  st_heap : list obj
}.

Definition liftDS {A} (c : M DataStream A) : M state A := fun s =>
  match c (st_ds s) with
  | Ok (a, ds') => Ok (a, mkState ds' (st_heap s))
  | Throw e => Throw e
  | OutOfFuel => OutOfFuel
  end.

(** A new object: [{}], [[]] or an object literal. *)
Definition alloc (o : obj) : M state loc := fun s =>
  Ok (length (st_heap s), mkState (st_ds s) (st_heap s ++ [o])).

(** [JavaScript] truthiness of [fields[key]] ([None]: no such key). *)
Definition truthy (v : option value) : bool :=
  match v with
  | None => false
  | Some VNull => false
  | Some (VString s) => negb (bool_decide (s = []))
  | Some (VBytes _) => true
  | Some (VNumber z) => negb (z =? 0)
  | Some (VBool b) => b
  | Some (VRef _) => true
  | Some (VProperties _) => true
  end.

(** [fields[key]]. *)
Definition getField (fields : loc) (key : list Z) : M state (option value) :=
  fun s => match st_heap s !! fields with
           | Some (OBag b) => Ok (b !! key, s)
           | _ => Throw TypeError
           end.

(** [fields[key] = v]. *)
Definition setField (fields : loc) (key : list Z) (v : value) : M state unit :=
  fun s => match st_heap s !! fields with
           | Some (OBag b) =>
               Ok (tt, mkState (st_ds s)
                         (<[fields := OBag (<[key := v]> b)]> (st_heap s)))
           | _ => Throw TypeError
           end.

(** [fields[key].push(v)]: a [TypeError] unless the field is an array. *)
Definition pushField (fields : loc) (key : list Z) (v : value) : M state unit :=
  let* a := getField fields key in
  match a with
  | Some (VRef la) =>
      fun s => match st_heap s !! la with
               | Some (OArray items) =>
                   Ok (tt, mkState (st_ds s)
                             (<[la := OArray (items ++ [v])]> (st_heap s)))
               | _ => Throw TypeError
               end
  | _ => throw TypeError
  end.

(** [#isAddPropertyValue]. *)
Definition isAddPropertyValue (fieldName : list Z)
    (fieldTypeMapped : option dtype) : bool :=
  negb (bool_decide (fieldName = js "Body"))
  || negb (bool_decide (fieldTypeMapped = Some TBinary)).

(** [#applyValueConverter]; decoding [null] is a [TypeError]. *)
Definition applyValueConverter (fieldName : list Z)
    (fieldTypeMapped : option dtype) (fieldValue : value) : result value :=
  if bool_decide (fieldTypeMapped = Some TBinary)
     && bool_decide (fieldName = js "BodyHtml")
  then match fieldValue with
       | VBytes b => Ok (VString (utf8Decode b))
       | _ => Throw TypeError
       end
  else Ok fieldValue.

(** [#getFieldType]. *)
Definition getFieldType (fieldProperty : property) : list Z :=
  let value := toLowerCase (substringFrom 12 (name fieldProperty)) in
  substring 4 8 value.

(** The [while (fields[fieldName + suffix])] loop of [#fieldsDataDocument]:
    the first suffix among [''], ['-2'], ['-3'], ... whose key holds no
    truthy value. *)
Fixpoint suffixLoop (fuel : nat) (fields : loc) (fieldName suffix : list Z)
    (offset : Z) : M state (list Z) :=
  match fuel with
  | O => diverge
  | S f =>
      let* v := getField fields (fieldName ++ suffix) in
      if truthy v
      then suffixLoop f fields fieldName
             (js "-" ++ toStringRadix 10 (offset + 1)) (offset + 1)
      else ret suffix
  end.

(** [#fieldsDataDocument]. *)
Definition fieldsDataDocument (fuel : nat) (m : msgData)
    (documentProperty : property) (fields : loc) : M state unit :=
  let value := toLowerCase (substringFrom 12 (name documentProperty)) in
  let fieldClass := substring 0 4 value in
  let fieldType := substring 4 8 value in
  let fieldName0 :=
    match getMapiFieldName fieldClass with
    | Some n => n
    | None => js "unknown_" ++ fieldClass
    end in
  let* suffix := suffixLoop fuel fields fieldName0 [] 1 in
  let fieldName := fieldName0 ++ suffix in
  let fieldTypeMapped := TYPE_MAPPING fieldType in
  do (if bool_decide (fieldName = []) then ret tt
      else
        let* fieldValue :=
          liftDS (getFieldValue fuel m documentProperty
                    (Some (default TBinary fieldTypeMapped))) in
        if isAddPropertyValue fieldName fieldTypeMapped
        then
          let* v := liftR (applyValueConverter fieldName fieldTypeMapped fieldValue) in
          setField fields fieldName v
        else ret tt) then
  if bool_decide (fieldClass = ATTACHMENT_DATA)
  then
    do setField fields (js "dataId") (VNumber (index_ documentProperty)) then
    setField fields (js "contentLength") (VNumber (sizeBlock documentProperty))
  else ret tt.

(** [#fieldsDataDir] and [#fieldsDataDirInner]. *)
Fixpoint fieldsDataDir (fuel : nat) (m : msgData) (dirProperty : property)
    (fields : loc) : M state unit :=
  match fuel with
  | O => diverge
  | S f =>
      let dirIsRoot :=
        negb (bool_decide (name dirProperty = []))
        && contains (js "root") (toLowerCase (name dirProperty)) in
      match children dirProperty with
      | None => ret tt
      | Some cs =>
          (fix loop (cs : list Z) : M state unit :=
             match cs with
             | [] => ret tt
             | c :: rest =>
                 match entryAt (propertyData m) c with
                 | None => throw TypeError
                 | Some childProperty =>
                     do (if type childProperty =? DIRECTORY then
                           fieldsDataDirInner f m childProperty fields
                         else if (type childProperty =? DOCUMENT)
                                 && startsWith PREFIX_DOCUMENT (name childProperty)
                         then fieldsDataDocument f m childProperty fields
                         else if dirIsRoot
                                 && bool_decide (name childProperty
                                                 = js "__properties_version1.0")
                         then
                           let* binPropertiesData :=
                             liftDS (getFieldValue f m childProperty (Some TBinary)) in
                           let* p := liftR (readRootProperties binPropertiesData) in
                           setField fields (js "_properties") (VProperties p)
                         else ret tt) then
                     loop rest
                 end
             end) cs
      end
  end
with fieldsDataDirInner (fuel : nat) (m : msgData) (dirProperty : property)
    (fields : loc) : M state unit :=
  match fuel with
  | O => diverge
  | S f =>
      if startsWith PREFIX_ATTACHMENT (name dirProperty) then
        let* attachmentField := alloc (OBag ∅) in
        do pushField fields (js "attachments") (VRef attachmentField) then
        fieldsDataDir f m dirProperty attachmentField
      else if startsWith PREFIX_RECIPIENT (name dirProperty) then
        let* recipientField := alloc (OBag ∅) in
        do pushField fields (js "recipients") (VRef recipientField) then
        fieldsDataDir f m dirProperty recipientField
      else
        let childFieldType := getFieldType dirProperty in
        if negb (bool_decide (childFieldType = INNER_MSG))
        then fieldsDataDir f m dirProperty fields
        else setField fields (js "innerMsgContent") (VBool true)
  end.

(** [#fieldsData]. *)
Definition fieldsData (fuel : nat) (m : msgData) : M state loc :=
  let* attachments := alloc (OArray []) in
  let* recipients := alloc (OArray []) in
  let* fields := alloc (OBag (<[js "attachments" := VRef attachments]>
                              (<[js "recipients" := VRef recipients]> ∅))) in
  match entryAt (propertyData m) 0 with
  | None => throw TypeError
  | Some root => do fieldsDataDir fuel m root fields then ret fields
  end.

(** [#parseMsgData], after the check of the constructor that the file
    starts with the compound-file signature. *)
Definition parseMsgData (fuel stack : nat) : M state (msgData * loc) :=
  let* isMsg := liftDS isMSGFile in
  if negb isMsg then throw (Error "Unsupported file type!")
  else
    let* m0 := liftDS headerData in
    let* batTable := liftDS (batData_ m0) in
    let m1 := set_batData m0 batTable in
    let* sbatTable := liftDS (sbatData_ m1) in
    let m2 := set_sbatData m1 sbatTable in
    let* m3 := if 0 <? xbatCount m2 then liftDS (xbatData m2) else ret m2 in
    let* props := liftDS (propertyData_ fuel stack m3) in
    let m4 := set_propertyData m3 props in
    let* fields := fieldsData fuel m4 in
    ret (m4, fields).

(** [new MsgReader(arrayBuffer)], up to the parse. *)
Definition parse (fuel stack : nat) (arrayBuffer : list Z)
  : result (msgData * loc * state) :=
  match parseMsgData fuel stack (mkState (newDataStream arrayBuffer) []) with
  | Ok (r, s) => Ok (r, s)
  | Throw e => Throw e
  | OutOfFuel => OutOfFuel
  end.

End Extraction.

(* ================================================================== *)
(** ** Test containers

    Small compound files, built sector by sector, on which the decoder is
    run in the examples below. *)

Definition le16 (z : Z) : list Z := [z mod 256; (z / 256) mod 256].
Definition le32 (z : Z) : list Z :=
  [z mod 256; (z / 256) mod 256; (z / 65536) mod 256; (z / 16777216) mod 256].

Definition padTo (n : nat) (fill : Z) (l : list Z) : list Z :=
  l ++ repeat fill (n - length l).

(** UTF-16LE text of an ASCII literal. *)
Definition utf16 (s : string) : list Z := concat (map (fun c => [c; 0]) (js s)).

(** A 128-byte directory entry. *)
Definition dirEntry (nm : string) (ty prev next child start size : Z) : list Z :=
  padTo 64 0 (utf16 nm) ++ le16 (2 * (len (js nm) + 1)) ++ [ty; 0]
  ++ le32 prev ++ le32 next ++ le32 child
  ++ repeat 0 36 ++ le32 start ++ le32 size ++ repeat 0 4.

(** A sector of 32-bit table entries, filled up with the unused mark. *)
Definition tableSector (entries : list Z) : list Z :=
  padTo 512 255 (concat (map le32 entries)).

(** The 512-byte header block for 512-byte sectors. *)
Definition headerBlock (batCount_ propertyStart_ sbatStart_ sbatCount_
    xbatStart_ xbatCount_ : Z) (batSectors : list Z) : list Z :=
  padTo 512 255
    ([0xD0; 0xCF; 0x11; 0xE0; 0xA1; 0xB1; 0x1A; 0xE1] ++ repeat 0 22 ++ [9; 0]
     ++ repeat 0 12 ++ le32 batCount_ ++ le32 propertyStart_ ++ repeat 0 8
     ++ le32 sbatStart_ ++ le32 sbatCount_ ++ le32 xbatStart_ ++ le32 xbatCount_
     ++ concat (map le32 batSectors)).

(** The excerpt of [MAPI_PROPERTIES] the test containers use. *)
Definition mapiExcerpt (key : list Z) : option (list Z) :=
  if bool_decide (key = js "0x0037") then Some (js "Subject")
  else if bool_decide (key = js "0x0039") then Some (js "ClientSubmitTime")
  else if bool_decide (key = js "0x1000") then Some (js "Body")
  else if bool_decide (key = js "0x1013") then Some (js "BodyHtml")
  else if bool_decide (key = js "0x3701") then Some (js "AttachDataObj")
  else None.

(** The payload of the FILETIME 116444736000000000 (1970-01-01), in the
    little-endian byte order of the property stream. *)
Definition epochPayload : list Z := [0x00; 0x80; 0x3E; 0xD5; 0xDE; 0xB1; 0x9D; 0x01].

(** A property stream: header and one record of type [0040], tag [0039]. *)
Definition sampleProperties : list Z :=
  repeat 0 8 ++ le32 1 ++ le32 1 ++ le32 0 ++ le32 1 ++ repeat 0 8
  ++ le16 0x0040 ++ le16 0x0039 ++ le32 6 ++ epochPayload.

(** A message: two [Subject] streams and an attachment at the root, whose
    child pointer names the middle of the three siblings; the attachment
    holds a [Subject] stream of its own and 100 bytes of data on a chain
    of two mini-sectors. *)
Definition msgFile : list Z :=
  headerBlock 1 1 3 1 (-2) 0 [0]
  ++ tableSector [-3; 2; -2; -2; -2]
  ++ (dirEntry "Root Entry" 5 (-1) (-1) 2 4 512
      ++ dirEntry "__substg1.0_0037001E" 2 (-1) (-1) (-1) 0 5
      ++ dirEntry "__substg1.0_0037001E" 2 1 3 (-1) 1 5
      ++ dirEntry "__attach_version1.0_#00000000" 1 (-1) 6 4 0 0)
  ++ (dirEntry "__substg1.0_0037001E" 2 (-1) 5 (-1) 2 3
      ++ dirEntry "__substg1.0_37010102" 2 (-1) (-1) (-1) 3 100
      ++ dirEntry "__properties_version1.0" 2 (-1) (-1) (-1) 5 48
      ++ repeat 0 128)
  ++ tableSector [-2; -2; -2; 4; -2; -2]
  ++ (padTo 64 0 (js "Hello") ++ padTo 64 0 (js "World") ++ padTo 64 0 (js "Att")
      ++ repeat 0xAA 64 ++ (repeat 0xBB 36 ++ repeat 0xCC 28)
      ++ padTo 64 0 sampleProperties ++ repeat 0 128).

(** A file whose stream of 4096 bytes is fragmented: its chain of sectors
    is 2, 4, 5, ..., 10, and sector 3 belongs to no stream.  Sector [i] is
    filled with the byte [i]. *)
Definition fragmentedFile : list Z :=
  headerBlock 1 1 (-2) 0 (-2) 0 [0]
  ++ tableSector [-3; -2; 4; -1; 5; 6; 7; 8; 9; 10; -2]
  ++ (dirEntry "Root Entry" 5 (-1) (-1) 1 (-2) 0
      ++ dirEntry "__substg1.0_37010102" 2 (-1) (-1) (-1) 2 4096
      ++ repeat 0 256)
  ++ concat (map (fun i => repeat i 512) [2; 3; 4; 5; 6; 7; 8; 9; 10]).





(** Directory entries whose child pointers are a cycle: the only child of
    the root is a storage that names itself as its child. *)
Definition childCycle : list (option property) :=
  [ Some (mkProperty 0 ROOT (js "Root Entry") (-1) (-1) 1 (-2) 0 None);
    Some (mkProperty 1 DIRECTORY (js "__attach_version1.0_#00000000")
            (-1) (-1) 1 0 0 None) ].

(** A file with two [Body] streams of binary storage type at the root. *)
Definition bodyFile : list Z :=
  headerBlock 1 1 2 1 (-2) 0 [0]
  ++ tableSector [-3; -2; -2; -2]
  ++ (dirEntry "Root Entry" 5 (-1) (-1) 1 3 512
      ++ dirEntry "__substg1.0_10000102" 2 (-1) 2 (-1) 0 3
      ++ dirEntry "__substg1.0_10000102" 2 (-1) (-1) (-1) 1 3
      ++ repeat 0 128)
  ++ tableSector [-2; -2]
  ++ (padTo 64 0 (js "abc") ++ padTo 64 0 (js "xyz") ++ repeat 0 384).

(** A file with two [Subject] streams at the root, the first one empty. *)
Definition emptyFirstFile : list Z :=
  headerBlock 1 1 2 1 (-2) 0 [0]
  ++ tableSector [-3; -2; -2; -2]
  ++ (dirEntry "Root Entry" 5 (-1) (-1) 1 3 512
      ++ dirEntry "__substg1.0_0037001E" 2 (-1) 2 (-1) 0 0
      ++ dirEntry "__substg1.0_0037001E" 2 (-1) (-1) (-1) 1 3
      ++ repeat 0 128)
  ++ tableSector [-2; -2]
  ++ (repeat 0 64 ++ padTo 64 0 (js "xyz") ++ repeat 0 384).

(** The container data and the bag of fields of a parsed file, with the
    excerpt of the tag table. *)
Definition parseFile (fuel stack : nat) (file : list Z)
  : result (msgData * loc * state) :=
  parse mapiExcerpt asciiLower (fun b => b) fuel stack file.

Definition parsedData (file : list Z) : option msgData :=
  match parseFile 16 16 file with
  | Ok (m, _, _) => Some m
  | _ => None
  end.

(** The fields of the top-level bag of a parsed file. *)
Definition parsedFields (file : list Z) : option (gmap (list Z) value) :=
  match parseFile 16 16 file with
  | Ok (_, fields, s) =>
      match st_heap s !! fields with
      | Some (OBag b) => Some b
      | _ => None
      end
  | _ => None
  end.

(** The regular-chain read the specification asks for, in its words: follow
    the allocation chain from the entry's start sector and concatenate every
    sector of the chain, cut to the declared size. *)
Fixpoint specRegularChain (fuel : nat) (m : msgData) (block : num)
  : M DataStream (list num) :=
  match fuel with
  | O => diverge
  | S f =>
      if is_num block END_OF_CHAIN then ret []
      else
        let* next := getNextBlock m block in
        let* rest := specRegularChain f m next in
        ret (block :: rest)
  end.

Fixpoint specReadSectors (m : msgData) (chain : list num) : M DataStream (list Z) :=
  match chain with
  | [] => ret []
  | c :: rest =>
      do seek (getBlockOffsetAt m c) then
      let* sector := readUint8Array (bigBlockSize m) in
      let* more := specReadSectors m rest in
      ret (sector ++ more)
  end.

Definition specRegularChainRead (fuel : nat) (m : msgData)
    (fieldProperty : property) : M DataStream (list Z) :=
  let* chain := specRegularChain fuel m (Int (startBlock fieldProperty)) in
  let* bytes := specReadSectors m chain in
  ret (take (Z.to_nat (sizeBlock fieldProperty)) bytes).

(** The value of a computation run on a stream from its start. *)
Definition valueOn {A} (c : M DataStream A) (file : list Z) : result A :=
  match c (newDataStream file) with
  | Ok (a, _) => Ok a
  | Throw e => Throw e
  | OutOfFuel => OutOfFuel
  end.

(* ================================================================== *)
(** ** Vocabulary of the statements *)

(** The children of an entry as the field extractor walks them: none when
    the [children] property is not set. *)
Definition childList (p : property) : list Z := default [] (children p).

(** Two entries that differ at most in their [children]. *)
Definition sameEntry (e e' : property) : Prop :=
  index_ e' = index_ e /\ type e' = type e /\ name e' = name e
  /\ previousProperty e' = previousProperty e
  /\ nextProperty e' = nextProperty e
  /\ childProperty e' = childProperty e
  /\ startBlock e' = startBlock e /\ sizeBlock e' = sizeBlock e.

(** [props'] has the entries of [props] at the same places, up to their
    [children]; an entry without a child pointer is the same in both. *)
Definition sameTree (props props' : list (option property)) : Prop :=
  forall i,
    match entryAt props i with
    | Some e => exists e', entryAt props' i = Some e' /\ sameEntry e e'
                           /\ (childProperty e = NO_INDEX -> e' = e)
    | None => entryAt props' i = None
    end.

(** A rank on entry indices that every sibling and child pointer to an
    entry decreases: the pointers form no cycle. *)
Definition pointsDown (props : list (option property)) (rank : Z -> nat)
    (i j : Z) : Prop :=
  match entryAt props j with
  | Some _ => (rank j < rank i)%nat
  | None => True
  end.

Definition acyclic (props : list (option property)) (rank : Z -> nat) : Prop :=
  forall i e, entryAt props i = Some e ->
    pointsDown props rank i (previousProperty e)
    /\ pointsDown props rank i (nextProperty e)
    /\ pointsDown props rank i (childProperty e).

(** A chain of an allocation table that reaches the end-of-chain mark in
    [n] steps of [next]. *)
Inductive chainEnds (next : num -> result num) : nat -> num -> Prop :=
| chain_end : chainEnds next 0 (Int END_OF_CHAIN)
| chain_step n off off' :
    is_num off END_OF_CHAIN = false ->
    next off = Ok off' ->
    chainEnds next n off' ->
    chainEnds next (S n) off.

(** The successors in the regular and in the small allocation table of a
    file. *)
Definition nextBlockOf (m : msgData) (file : list Z) (off : num) : result num :=
  valueOn (getNextBlock m off) file.
Definition nextBlockSmallOf (m : msgData) (file : list Z) (off : num) : result num :=
  valueOn (getNextBlockSmall m off) file.

(** A stream over [file] that no read has grown. *)
Definition clean (file : list Z) (ds : DataStream) : Prop :=
  buffer ds = file /\ byteLength ds = len file.

(** The reserved bytes of the property stream header: the first eight, and
    the eight after the four counters. *)
Definition reservedIndex (i : nat) : Prop := (i < 8)%nat \/ (24 <= i < 32)%nat.

(** The four counters of the header, from their 16 bytes. *)
Definition decodeHeader (counters : list Z) : rootHeader :=
  mkRootHeader (le_unsigned (take 4 counters))
    (le_unsigned (take 4 (drop 4 counters)))
    (le_unsigned (take 4 (drop 8 counters)))
    (le_unsigned (take 4 (drop 12 counters))).

(** A stream positioned after [pre], with [rest] still to read. *)
Definition readingAt (pre rest : list Z) (ds : DataStream) : Prop :=
  buffer ds = pre ++ rest /\ byteLength ds = len (pre ++ rest)
  /\ position ds = len pre.

Section Records.
Variable MAPI_PROPERTIES : list Z -> option (list Z).
Variable toLowerCase : list Z -> list Z.

(** A 16-byte record of the property stream, decoded from its bytes: the
    key it is stored under and the property. *)
Definition decodeRecord (r : list Z) : list Z * fixedProperty :=
  let fieldType := le_unsigned (take 2 r) in
  let fieldClass := le_unsigned (take 2 (drop 2 r)) in
  let flags := le_unsigned (take 4 (drop 4 r)) in
  let payload := take 8 (drop 8 r) in
  let typeStr := hex4 fieldType in
  let key :=
    match getMapiFieldName MAPI_PROPERTIES toLowerCase (hex4 fieldClass) with
    | Some (c :: n) => c :: n
    | _ => js "_" ++ typeStr
    end in
  (key, mkFixedProperty fieldType typeStr flags payload
          (readFieldData toLowerCase typeStr payload)).

Definition insertRecord (values : gmap (list Z) rootEntry) (r : list Z)
  : gmap (list Z) rootEntry :=
  <[fst (decodeRecord r) := RProperty (snd (decodeRecord r))]> values.

End Records.

(** The outcome of checking [n] reserved bytes at the head of [rest]. *)
Fixpoint scanReserved (n : nat) (rest : list Z) : result unit :=
  match n with
  | O => Ok tt
  | S n' =>
      match rest with
      | [] => Throw RangeError
      | b :: r => if b =? 0 then scanReserved n' r else Throw invalidPropertiesHeader
      end
  end.

(** The contents of the mini-sectors of a chain, one 64-byte block each, as
    [#readChainDataByBlockSmall] reads them. *)
Fixpoint readBlocks (m : msgData) (chain : list num) : M DataStream (list (list Z)) :=
  match chain with
  | [] => ret []
  | c :: rest =>
      let* v := readDataByBlockSmall m c SMALL_BLOCK_SIZE TBinary in
      match v with
      | VBytes d => let* r := readBlocks m rest in ret (d :: r)
      | _ => throw TypeError
      end
  end.

(** A byte written to an [Int8Array] and read back as unsigned. *)
Definition wrap8 (b : Z) : Z := toSigned 8 b mod 256.

(** A buffer of [n] bytes filled from [bytes]: cut when they are more,
    zero beyond them when they are fewer. *)
Definition sizedBuffer (n : Z) (bytes : list Z) : list Z :=
  take (Z.to_nat n) (map wrap8 bytes ++ repeat 0 (Z.to_nat n)).

Definition isByte (b : Z) : Prop := 0 <= b < 256.

(** The suffix of the [k]-th key of a name: none for the first, then
    [-2], [-3], ... *)
Definition suffixOf (k : Z) : list Z :=
  if k =? 1 then [] else js "-" ++ toStringRadix 10 k.

Definition keyOf (fieldName : list Z) (k : Z) : list Z := fieldName ++ suffixOf k.

(** A bag that holds no reference to another object. *)
Definition noRefs (b : gmap (list Z) value) : Prop :=
  forall key l, b !! key <> Some (VRef l).

Section Names.
Variable MAPI_PROPERTIES : list Z -> option (list Z).
Variable toLowerCase : list Z -> list Z.

(** What [#fieldsDataDocument] reads off the name of a stream: the class
    and type texts, the canonical name, the mapped storage type. *)
Definition fieldClassOf (documentProperty : property) : list Z :=
  substring 0 4 (toLowerCase (substringFrom 12 (name documentProperty))).

Definition fieldTypeOf (documentProperty : property) : list Z :=
  substring 4 8 (toLowerCase (substringFrom 12 (name documentProperty))).

Definition canonicalName (documentProperty : property) : list Z :=
  match getMapiFieldName MAPI_PROPERTIES toLowerCase (fieldClassOf documentProperty) with
  | Some n => n
  | None => js "unknown_" ++ fieldClassOf documentProperty
  end.

Definition mappedType (documentProperty : property) : option dtype :=
  TYPE_MAPPING (fieldTypeOf documentProperty).

End Names.

(** The tables and the entries of the test message, and the state in
    which a walk over it starts: the cursor at the head of the file, an
    empty bag at location 0. *)
Definition noData : msgData := mkMsgData 0 0 0 0 0 0 0 0 0 [] [] [].
Definition noEntry : property := mkProperty 0 0 [] 0 0 0 0 0 None.

Definition msgTables : msgData := default noData (parsedData msgFile).
Definition msgEntry (i : Z) : property :=
  default noEntry (entryAt (propertyData msgTables) i).
Definition msgStart : state := mkState (newDataStream msgFile) [OBag ∅].

Definition bodyTables : msgData := default noData (parsedData bodyFile).
Definition bodyEntry (i : Z) : property :=
  default noEntry (entryAt (propertyData bodyTables) i).

Definition emptyFirstTables : msgData := default noData (parsedData emptyFirstFile).
Definition emptyFirstEntry (i : Z) : property :=
  default noEntry (entryAt (propertyData emptyFirstTables) i).

(** The stream the cursor is left on by a computation run from the head of
    a file. *)
Definition streamAfter {A} (c : M DataStream A) (file : list Z) : DataStream :=
  match c (newDataStream file) with
  | Ok (_, ds) => ds
  | _ => newDataStream file
  end.

(** A value that is no reference to an object: what a stream decodes to. *)
Definition plain (v : value) : Prop := forall l, v <> VRef l.

(** Every result of [c] satisfies [P]. *)
Definition yields {S A} (c : M S A) (P : A -> Prop) : Prop :=
  forall s a s', c s = Ok (a, s') -> P a.

(** The object at [t] is a bag without references; [s'] differs from [s]
    at most in the object at [t], again such a bag; a computation that
    changes nothing else when it starts from such a bag. *)
Definition plainBagAt (t : loc) (s : state) : Prop :=
  exists b, st_heap s !! t = Some (OBag b) /\ noRefs b.

Definition sameButBag (t : loc) (s s' : state) : Prop :=
  exists b', st_heap s' = <[t := OBag b']> (st_heap s) /\ noRefs b'.

Definition confined {A} (t : loc) (c : M state A) : Prop :=
  forall s a s', plainBagAt t s -> c s = Ok (a, s') -> sameButBag t s s'.

(** A message bag as [#fieldsData] sets it up, with a [Subject] of its
    own, before the attachment of the test message is walked. *)
Definition msgBag : gmap (list Z) value :=
  <[js "Subject" := VString (js "World")]>
    (<[js "attachments" := VRef 0%nat]>
       (<[js "recipients" := VRef 1%nat]> ∅)).

Definition msgScope : state :=
  mkState (newDataStream msgFile) [ OArray []; OArray []; OBag msgBag ].

(** The walk of the attachment of the test message into the bag at
    location 2, and the walk of the chain of its data. *)
Abbreviation attachmentWalk :=
  (fieldsDataDirInner mapiExcerpt asciiLower (fun b => b) 16 msgTables
     (msgEntry 3) 2%nat).

Abbreviation dataChainWalk := (getChainByBlockSmall 16 msgTables (msgEntry 5)).

(** The state a computation ends in, [s] when it fails. *)
Definition stateAfter {A} (c : M state A) (s : state) : state :=
  match c s with
  | Ok (_, s') => s'
  | _ => s
  end.

(** The check of [acyclic] on a given directory. *)
Definition pointsDownb (props : list (option property)) (rank : Z -> nat)
    (i j : Z) : bool :=
  match entryAt props j with
  | Some _ => (rank j <? rank i)%nat
  | None => true
  end.

Definition acyclicb (props : list (option property)) (rank : Z -> nat) : bool :=
  forallb (fun i =>
             match entryAt props i with
             | Some e => pointsDownb props rank i (previousProperty e)
                         && pointsDownb props rank i (nextProperty e)
                         && pointsDownb props rank i (childProperty e)
             | None => true
             end)
    (map Z.of_nat (seq 0 (length props))).


(** A directory of three streams under the root, in the order of the file:
    the root's child pointer names entry 2, whose previous sibling is entry
    3 and whose next sibling is entry 1. *)
Definition threeSiblings : list (option property) :=
  [ Some (mkProperty 0 ROOT (js "Root Entry") (-1) (-1) 2 (-2) 0 None);
    Some (mkProperty 1 DOCUMENT (js "__substg1.0_1000001E") (-1) (-1) (-1) 0 5 None);
    Some (mkProperty 2 DOCUMENT (js "__substg1.0_0037001E") 3 1 (-1) 1 5 None);
    Some (mkProperty 3 DOCUMENT (js "__substg1.0_0039001E") (-1) (-1) (-1) 2 5 None) ].

(** The three siblings again, the middle one a storage that holds a
    stream, entry 4. *)
Definition nestedSiblings : list (option property) :=
  [ Some (mkProperty 0 ROOT (js "Root Entry") (-1) (-1) 2 (-2) 0 None);
    Some (mkProperty 1 DOCUMENT (js "__substg1.0_1000001E") (-1) (-1) (-1) 0 5 None);
    Some (mkProperty 2 DIRECTORY (js "__attach_version1.0_#00000000") 3 1 4 0 0 None);
    Some (mkProperty 3 DOCUMENT (js "__substg1.0_0039001E") (-1) (-1) (-1) 2 5 None);
    Some (mkProperty 4 DOCUMENT (js "__substg1.0_3701001E") (-1) (-1) (-1) 3 5 None) ].

Definition nestedRank (i : Z) : nat :=
  if i =? 0 then 2 else if i =? 2 then 1 else 0.

(* ================================================================== *)
(** ** Vocabulary of the proofs *)

(** A directory none of whose entries has its [children] set. *)
Definition unset (props : list (option property)) : Prop :=
  forall i e, entryAt props i = Some e -> children e = None.

(** [props'] has the entries of [props] at the same places, up to their
    [children]. *)
Definition sameShape (props props' : list (option property)) : Prop :=
  forall i,
    match entryAt props i with
    | Some e => exists e', entryAt props' i = Some e' /\ sameEntry e e'
    | None => entryAt props' i = None
    end.

(** Fuel that is enough for a worklist element of rank [r], and for a
    reconstruction at a node of rank [r]. *)
Fixpoint weightOfRank (r : nat) : nat :=
  match r with
  | O => 3
  | S r' => 2 * weightOfRank r' + 1
  end.

Fixpoint fuelOfRank (r : nat) : nat :=
  match r with
  | O => 3
  | S r' => weightOfRank r' + 3 + fuelOfRank r'
  end.

Definition fuelBelow (r : nat) : nat :=
  match r with
  | O => 0
  | S r' => fuelOfRank r'
  end.

Definition weight (props : list (option property)) (rank : Z -> nat) (c : Z) : nat :=
  match entryAt props c with
  | Some _ => weightOfRank (rank c)
  | None => 1
  end.

Definition weightSum (props : list (option property)) (rank : Z -> nat)
    (wl : list Z) : nat :=
  foldr (fun c acc => weight props rank c + acc)%nat 0%nat wl.

Definition below (props : list (option property)) (rank : Z -> nat)
    (r : nat) (wl : list Z) : Prop :=
  forall c, c ∈ wl -> entryAt props c <> None -> (rank c < r)%nat.

Definition createTerminates (rank : Z -> nat) (r : nat) : Prop :=
  forall fuel stack props node,
    acyclic props rank ->
    (entryAt props node <> None -> (rank node <= r)%nat) ->
    (fuelOfRank r <= fuel)%nat ->
    terminates (createPropertyHierarchy fuel stack props node).

Definition loopTerminates (rank : Z -> nat) (r : nat) : Prop :=
  forall fuel stack props node wl,
    acyclic props rank ->
    below props rank r wl ->
    (weightSum props rank wl + 1 + fuelBelow r <= fuel)%nat ->
    terminates (hierarchyLoop fuel stack props node wl).

(** The indices an iteration of the loop appends to the worklist. *)
Definition siblingsOf (cur : property) : list Z :=
  (if previousProperty cur =? NO_INDEX then [] else [previousProperty cur])
  ++ (if nextProperty cur =? NO_INDEX then [] else [nextProperty cur]).

(** [tame c]: [c] never runs out of fuel, and on a stream no read has grown
    it leaves such a stream. *)
Definition tame {A} (c : M DataStream A) : Prop :=
  (forall ds, c ds <> OutOfFuel)
  /\ (forall file ds a ds', clean file ds -> c ds = Ok (a, ds') -> clean file ds').

(** [posfree c]: the outcome of [c] does not depend on where the seek
    pointer is when it starts. *)
Definition posfree {A} (c : M DataStream A) : Prop :=
  forall buf bl p1 p2, c (mkDataStream buf bl p1) = c (mkDataStream buf bl p2).


(** [rangeOnly c]: the only exception of [c] is the [RangeError]. *)
Definition rangeOnly {A} (c : M DataStream A) : Prop :=
  forall ds e, c ds = Throw e -> e = RangeError.

(** The part of [#readRootProperties] before the records. *)
Definition headerPart : M DataStream rootHeader :=
  do seek (Int 0) then
  do checkReserved 8 then
  let* nextRecipientId := readUint32 in
  let* nextAttachmentId := readUint32 in
  let* recipientCount := readUint32 in
  let* attachmentCount := readUint32 in
  do checkReserved 8 then
  ret (mkRootHeader nextRecipientId nextAttachmentId recipientCount attachmentCount).

(** The [Int8Array] after the bytes [w] were offered to it, in order. *)
Definition filled (n : nat) (w : list Z) : list Z :=
  take n (map (toSigned 8) w ++ repeat 0 n).

(** The bag after a stream was handled by [#fieldsDataDocument]: the value
    [w] under [key] unless it is withheld, then the two fields of an
    attachment data stream when the stream is one. *)
Definition storedBag (b : gmap (list Z) value) (key : list Z)
    (fieldTypeMapped : option dtype) (w : value) : gmap (list Z) value :=
  if isAddPropertyValue key fieldTypeMapped then <[key := w]> b else b.

Definition attachmentInfo (isData : bool) (documentProperty : property)
    (b : gmap (list Z) value) : gmap (list Z) value :=
  if isData
  then <[js "contentLength" := VNumber (sizeBlock documentProperty)]>
         (<[js "dataId" := VNumber (index_ documentProperty)]> b)
  else b.

(** A storage of recipient kind with one stream, and an embedded message,
    as directory entries next to those of the test message. *)
Definition recipientEntry : property :=
  mkProperty 7 DIRECTORY (js "__recip_version1.0_#00000000") (-1) (-1) 1 0 0 (Some [1]).

Definition innerMessageEntry : property :=
  mkProperty 7 DIRECTORY (js "__substg1.0_3701000D") (-1) (-1) 1 0 0 (Some [1]).

(** A directory whose entries sit at their [index], and one whose child
    lists name entries of the directory. *)
Definition indexed (props : list (option property)) : Prop :=
  forall i e, entryAt props i = Some e -> index_ e = i.

Definition childrenPresent (props : list (option property)) : Prop :=
  forall i e c, entryAt props i = Some e -> c ∈ childList e ->
    exists e', entryAt props c = Some e'.

(** The operator [>>] on numbers (32-bit, sign-propagating). *)
Definition js_sar (a n : Z) : Z := Z.shiftr (toInt32 a) (n mod 32).

(** [#uInt2int]: [data[i] << 24 >> 24] for every element. *)
Definition uInt2int (data : list Z) : list Z :=
  map (fun d => js_sar (js_shl d 24) 24) data.

(** The signature of a compound file, as unsigned bytes. *)
Definition signature : list Z := [0xD0; 0xCF; 0x11; 0xE0; 0xA1; 0xB1; 0x1A; 0xE1].

(** The signed integers of 8 and of 32 bits at an offset of a file, the
    latter little-endian. *)
Definition int8At (file : list Z) (off : Z) : Z :=
  toSigned 8 (le_unsigned (slice file off 1)).

Definition int32At (file : list Z) (off : Z) : Z :=
  toSigned 32 (le_unsigned (slice file off 4)).

(** The sector size [#headerData] reads off byte 30. *)
Definition sectorSize (file : list Z) : Z :=
  if int8At file 30 =? L_BIG_BLOCK_MARK then L_BIG_BLOCK_SIZE else S_BIG_BLOCK_SIZE.

(** [keepsClean c]: run on a stream over [file] that no read has grown,
    [c] leaves such a stream. *)
Definition keepsClean {A} (c : M DataStream A) : Prop :=
  forall file ds a ds', clean file ds -> c ds = Ok (a, ds') -> clean file ds'.

(** [DataView.prototype.setUint8], [setUint32], ... at the seek pointer,
    which then moves on: the bytes replace those of the backing buffer;
    [RangeError] when they leave it. *)
Definition setBytes (bs : list Z) : M DataStream unit := fun ds =>
  if position ds + len bs <=? len (buffer ds)
  then Ok (tt, mkDataStream
                 (take (Z.to_nat (position ds)) (buffer ds) ++ bs
                  ++ drop (Z.to_nat (position ds + len bs)) (buffer ds))
                 (byteLength ds) (position ds + len bs))
  else Throw RangeError.

(** [writeUint8], [writeUint32] and [writeInt32], little-endian: the
    number is stored modulo 2^8 or 2^32. *)
Definition writeUint8 (v : Z) : M DataStream unit :=
  do realloc 1 then setBytes [v mod 256].
Definition writeUint32 (v : Z) : M DataStream unit :=
  do realloc 4 then setBytes (le32 v).
Definition writeInt32 (v : Z) : M DataStream unit :=
  do realloc 4 then setBytes (le32 v).

(** [writeString(s)], without encoding or length: one [writeUint8] per
    code unit. *)
Fixpoint writeString (s : jsstring) : M DataStream unit :=
  match s with
  | [] => ret tt
  | c :: r => do writeUint8 c then writeString r
  end.

(** A stream whose seek pointer is inside its data, and its data inside
    its backing buffer. *)
Definition inBounds (ds : DataStream) : Prop :=
  0 <= position ds <= byteLength ds /\ byteLength ds <= len (buffer ds).

(* ================================================================== *)
(** * Properties *)

(** ** Timestamp conversion *)

(** Bitwise OR of a number shifted left with a number below the shift. *)
Lemma lor_shiftl_low h k a :
  0 <= k -> 0 <= a < 2 ^ k -> Z.lor (Z.shiftl h k) a = h * 2 ^ k + a.
Proof.
  intros Hk Ha.
  assert (Z.land (Z.shiftl h k) a = 0) as Hland.
  { apply Z.bits_inj'. intros n Hn. rewrite Z.land_spec, Z.bits_0.
    destruct (Z.lt_ge_cases n k) as [Hlt | Hge].
    - by rewrite Z.shiftl_spec_low.
    - rewrite andb_false_iff. right.
      destruct (Z.eq_dec a 0) as [-> | Hne]; [apply Z.bits_0|].
      apply Z.bits_above_log2; [lia|].
      assert (Z.log2 a < k) by (apply Z.log2_lt_pow2; lia). lia. }
  rewrite <- Z.lxor_lor by done.
  rewrite <- Z.add_nocarry_lxor by done.
  by rewrite Z.shiftl_mul_pow2.
Qed.

Lemma toInt32_range z : - 2 ^ 31 <= toInt32 z < 2 ^ 31.
Proof.
  unfold toInt32. pose proof (Z.mod_pos_bound z (2 ^ 32) eq_refl).
  destruct (Z.ltb_spec (z mod 2 ^ 32) (2 ^ 31)); lia.
Qed.

Lemma lowPart_range f : - 2 ^ 31 <= lowPart f < 2 ^ 31.
Proof. unfold lowPart, js_or. apply toInt32_range. Qed.

(** What [|] on [BigInt] makes of the two halves: the 64-bit value when the
    low half is not negative, the low half alone when it is. *)
Lemma filetimeValue_cases f :
  filetimeValue f
  = if lowPart f <? 0 then lowPart f else highPart f * 2 ^ 32 + lowPart f.
Proof.
  unfold filetimeValue. pose proof (lowPart_range f) as Hr.
  destruct (Z.ltb_spec (lowPart f) 0) as [Hneg | Hpos].
  - set (lo := lowPart f + 2 ^ 32).
    assert (lowPart f = Z.lor (Z.shiftl (-1) 32) lo) as E.
    { rewrite lor_shiftl_low; unfold lo; lia. }
    rewrite E at 1. rewrite Z.lor_assoc, <- Z.shiftl_lor, Z.lor_m1_r.
    rewrite lor_shiftl_low; unfold lo; lia.
  - apply lor_shiftl_low; lia.
Qed.

Lemma toInt32_id z : - 2 ^ 31 <= z < 2 ^ 31 -> toInt32 z = z.
Proof.
  intros Hz. unfold toInt32.
  pose proof (Z.mod_pos_bound z (2 ^ 32) eq_refl) as Hm.
  pose proof (Z.div_mod z (2 ^ 32) ltac:(lia)) as Hd.
  destruct (Z.ltb_spec (z mod 2 ^ 32) (2 ^ 31)); lia.
Qed.

Lemma js_shl_byte b k :
  0 <= b < 256 -> 0 <= k <= 16 -> js_shl b k = b * 2 ^ k.
Proof.
  intros Hb Hk. unfold js_shl.
  assert (2 ^ k <= 2 ^ 16) by (apply Z.pow_le_mono_r; lia).
  assert (0 < 2 ^ k) by (apply Z.pow_pos_nonneg; lia).
  rewrite (toInt32_id b) by lia. rewrite Z.mod_small by lia.
  rewrite Z.shiftl_mul_pow2 by lia. apply toInt32_id. nia.
Qed.

Lemma js_shl_byte_24 b :
  0 <= b < 256 ->
  js_shl b 24 = (if b <? 128 then b else b - 256) * 2 ^ 24.
Proof.
  intros Hb. unfold js_shl. rewrite (toInt32_id b) by lia.
  change (24 mod 32) with 24. rewrite Z.shiftl_mul_pow2 by lia.
  unfold toInt32.
  rewrite (Z.mod_small (b * 2 ^ 24)) by lia.
  destruct (Z.ltb_spec b 128), (Z.ltb_spec (b * 2 ^ 24) (2 ^ 31)); lia.
Qed.

Lemma js_or_shifted acc h k :
  0 <= k -> 0 <= acc < 2 ^ k -> - 2 ^ 31 <= h * 2 ^ k + acc < 2 ^ 31 ->
  - 2 ^ 31 <= h * 2 ^ k < 2 ^ 31 ->
  js_or acc (h * 2 ^ k) = h * 2 ^ k + acc.
Proof.
  intros Hk Ha Hr Hh. unfold js_or.
  rewrite (toInt32_id (h * 2 ^ k)) by done.
  assert (acc < 2 ^ 31).
  { destruct (Z.eq_dec h 0) as [-> | Hne]; [lia|]. nia. }
  rewrite (toInt32_id acc) by lia.
  rewrite Z.lor_comm, <- Z.shiftl_mul_pow2 by done.
  rewrite lor_shiftl_low by done. rewrite Z.shiftl_mul_pow2 by done.
  by apply toInt32_id.
Qed.

(** The low half as the code computes it: the low double word of the
    payload, read as a signed number. *)
Lemma lowPart_signed b0 b1 b2 b3 rest :
  0 <= b0 < 256 -> 0 <= b1 < 256 -> 0 <= b2 < 256 -> 0 <= b3 < 256 ->
  lowPart (b0 :: b1 :: b2 :: b3 :: rest)
  = le_unsigned [b0; b1; b2; b3] - (if b3 <? 128 then 0 else 2 ^ 32).
Proof.
  intros H0 H1 H2 H3. unfold lowPart, byteAt. cbn [nth].
  rewrite (js_shl_byte b1 8), (js_shl_byte b2 16), js_shl_byte_24 by lia.
  rewrite (js_or_shifted b0 b1 8) by lia.
  rewrite (js_or_shifted _ b2 16) by lia.
  rewrite js_or_shifted; [| lia | lia | |].
  - cbn. destruct (Z.ltb_spec b3 128); lia.
  - destruct (Z.ltb_spec b3 128); lia.
  - destruct (Z.ltb_spec b3 128); lia.
Qed.

(** C1 (the code departs from the specification).  On the 8-byte payload of the
    FILETIME 116444736000000000 the decoder does not give Unix millisecond
    0: the low half has its bit 31 set, [lowPart] is negative, and [|] with
    the negative [BigInt] wipes out the high half; the result is the
    timestamp -11644473671732 ms.  In general the two halves are combined
    into the 64-bit tick count only when the low half, a signed 32-bit
    number in the code, is not negative. *)
Theorem convertFiletimeToDateTime_epoch_payload :
  le_unsigned epochPayload = 116444736000000000
  /\ lowPart epochPayload = -717324288
  /\ filetimeValue epochPayload = -717324288
  /\ convertFiletimeToDateTime epochPayload = Date (-11644473671732)
  /\ readFieldData asciiLower (js "0040") epochPayload
     = DDate (Date (-11644473671732))
  /\ (forall filetime,
        filetimeValue filetime
        = if lowPart filetime <? 0 then lowPart filetime
          else highPart filetime * 2 ^ 32 + lowPart filetime).
Proof.
  split_and!; [vm_compute; reflexivity .. | apply filetimeValue_cases].
Qed.

(** ** Choice of the extractor *)

(** C5.  The mini-chain extractor is chosen exactly for a declared size
    below 4096, the regular one exactly from 4096 on, and [#getFieldValue]
    runs the extractor chosen. *)
Theorem getFieldValue_threshold (fuel : nat) (m : msgData) (fp : property) (t : dtype) :
  (valueExtractor fp = sbat <-> sizeBlock fp < 4096)
  /\ (valueExtractor fp = bat <-> 4096 <= sizeBlock fp)
  /\ (sizeBlock fp = 4096 -> valueExtractor fp = bat)
  /\ getFieldValue fuel m fp (Some t)
     = if sizeBlock fp <? 4096
       then extractDataViaSbat fuel m fp t
       else extractDataViaBat m fp t.
Proof.
  unfold getFieldValue, valueExtractor, extractor, BIG_BLOCK_MIN_DOC_SIZE.
  change 0x1000 with 4096.
  destruct (Z.ltb_spec (sizeBlock fp) 4096) as [Hlt | Hge].
  - repeat split; try done; try lia.
  - repeat split; try done; try lia.
Qed.

(** ** Regular-chain read *)

(** C2 (the code departs from the specification).  On a file whose
    4096-byte stream occupies the sectors 2, 4, 5, ..., 10, the extractor
    returns the bytes of the sectors 2, 3, ..., 9, read contiguously from
    the start sector: sector 3, which is not on the chain, is in the value,
    and sector 10, which is, is not. *)
Theorem extractDataViaBat_fragmented_stream :
  exists m p,
    parsedData fragmentedFile = Some m
    /\ entryAt (propertyData m) 1 = Some p
    /\ sizeBlock p = 4096 /\ startBlock p = 2 /\ valueExtractor p = bat
    /\ valueOn (specRegularChain 16 m (Int 2)) fragmentedFile
       = Ok (map Int [2; 4; 5; 6; 7; 8; 9; 10])
    /\ valueOn (getFieldValue 16 m p (Some TBinary)) fragmentedFile
       = Ok (VBytes (concat (map (fun i => repeat i 512) [2; 3; 4; 5; 6; 7; 8; 9])))
    /\ valueOn (specRegularChainRead 16 m p) fragmentedFile
       = Ok (concat (map (fun i => repeat i 512) [2; 4; 5; 6; 7; 8; 9; 10])).
Proof.
  eexists; eexists.
  split; [vm_compute; reflexivity |].
  split; [vm_compute; reflexivity |].
  repeat split; vm_compute; reflexivity.
Qed.

(** ** Tree reconstruction *)

Lemma entryAt_Some props i e :
  entryAt props i = Some e -> 0 <= i /\ props !! Z.to_nat i = Some (Some e).
Proof.
  unfold entryAt, elementAt.
  destruct (Z.leb_spec 0 i) as [Hi|Hi]; simpl; [|done].
  destruct (props !! Z.to_nat i) as [[p|]|]; naive_solver.
Qed.

Lemma entryAt_lookup props i e :
  0 <= i -> props !! Z.to_nat i = Some (Some e) -> entryAt props i = Some e.
Proof.
  intros Hi H. unfold entryAt, elementAt.
  destruct (Z.leb_spec 0 i); simpl; [|lia]. by rewrite H.
Qed.

Lemma entryAt_insert_eq props i e x :
  entryAt props i = Some e ->
  entryAt (<[Z.to_nat i := Some x]> props) i = Some x.
Proof.
  intros [Hi H]%entryAt_Some. apply entryAt_lookup; [done|].
  apply list_lookup_insert_eq. by eapply lookup_lt_Some.
Qed.

Lemma entryAt_insert_ne props i j x :
  0 <= i -> i <> j ->
  entryAt (<[Z.to_nat i := Some x]> props) j = entryAt props j.
Proof.
  intros Hi Hne. unfold entryAt, elementAt.
  destruct (Z.leb_spec 0 j); simpl; [|done].
  rewrite list_lookup_insert_ne; [done | lia].
Qed.

Lemma sameEntry_refl e : sameEntry e e.
Proof. by repeat split. Qed.

Lemma sameEntry_trans e1 e2 e3 : sameEntry e1 e2 -> sameEntry e2 e3 -> sameEntry e1 e3.
Proof. unfold sameEntry. intros ? ?. repeat split; destruct_and!; congruence. Qed.

Lemma sameEntry_set_children e c : sameEntry e (set_children e c).
Proof. by repeat split. Qed.

Lemma sameTree_refl props : sameTree props props.
Proof.
  intros i. destruct (entryAt props i) as [e|] eqn:E; [|done].
  exists e. split; [done|]. split; [apply sameEntry_refl | done].
Qed.

Lemma sameTree_trans p1 p2 p3 : sameTree p1 p2 -> sameTree p2 p3 -> sameTree p1 p3.
Proof.
  intros H12 H23 i. specialize (H12 i). specialize (H23 i).
  destruct (entryAt p1 i) as [e|].
  - destruct H12 as (e2 & E2 & S2 & N2). rewrite E2 in H23.
    destruct H23 as (e3 & E3 & S3 & N3). exists e3. split; [done|].
    split; [by eapply sameEntry_trans|].
    intros Hn. rewrite <- (N2 Hn). apply N3.
    destruct S2 as (_ & _ & _ & _ & _ & Hc & _). congruence.
  - by rewrite H12 in H23.
Qed.

Lemma sameTree_set_children props n p c :
  entryAt props n = Some p -> childProperty p <> NO_INDEX ->
  sameTree props (<[Z.to_nat n := Some (set_children p c)]> props).
Proof.
  intros E Hc i. destruct (Z.eq_dec n i) as [<-|Hne].
  - rewrite E. exists (set_children p c).
    split; [by eapply entryAt_insert_eq|].
    split; [apply sameEntry_set_children | done].
  - apply entryAt_Some in E as [Hn _].
    rewrite entryAt_insert_ne by done.
    destruct (entryAt props i) as [e|]; [|done].
    exists e. split; [done|]. split; [apply sameEntry_refl | done].
Qed.

Lemma pushChild_Ok props node c props1 :
  pushChild props node c = Ok props1 ->
  exists p l, entryAt props node = Some p /\ children p = Some l
    /\ props1 = <[Z.to_nat node := Some (set_children p (l ++ [c]))]> props.
Proof.
  unfold pushChild. destruct (entryAt props node) as [p|]; [|done].
  destruct (children p) as [l|] eqn:Hl; [|done]. intros H.
  injection H as <-. by exists p, l.
Qed.

(** Reconstruction changes [children] only, and only of entries that have
    a child pointer. *)
Lemma hierarchy_sameTree (fuel : nat) :
  (forall stack props node props',
      createPropertyHierarchy fuel stack props node = Ok props' ->
      sameTree props props')
  /\ (forall stack props node wl props' p,
         entryAt props node = Some p -> childProperty p <> NO_INDEX ->
         hierarchyLoop fuel stack props node wl = Ok props' ->
         sameTree props props').
Proof.
  induction fuel as [|f [IHc IHl]]; [by split|]. split.
  - intros stack props node props' H. simpl in H.
    destruct stack as [|st]; [done|].
    destruct (entryAt props node) as [p|] eqn:E; [|done].
    destruct (Z.eqb_spec (childProperty p) NO_INDEX) as [Hc|Hc].
    + injection H as <-. apply sameTree_refl.
    + eapply sameTree_trans; [by apply (sameTree_set_children _ _ _ [] E)|].
      eapply IHl; [ | | exact H].
      * by eapply entryAt_insert_eq.
      * done.
  - intros stack props node wl props' p E Hc H. simpl in H.
    destruct wl as [|c rest]; [injection H as <-; apply sameTree_refl|].
    destruct (entryAt props c) as [cur|] eqn:Ec; [|by eapply IHl].
    destruct (pushChild props node c) as [props1| |] eqn:Hp; [|done..].
    simpl in H.
    apply pushChild_Ok in Hp as (p0 & l & E0 & Hl & ->).
    assert (p0 = p) as -> by congruence.
    set (props1 := <[Z.to_nat node := _]> props) in *.
    assert (sameTree props props1) as S1 by by apply sameTree_set_children.
    assert (entryAt props1 node = Some (set_children p (l ++ [c]))) as E1
      by by eapply entryAt_insert_eq.
    destruct (if type cur =? DIRECTORY then createPropertyHierarchy f stack props1 c
              else Ok props1) as [props2| |] eqn:H2; [|done..].
    simpl in H.
    assert (sameTree props1 props2) as S2.
    { destruct (type cur =? DIRECTORY); [by eapply IHc|].
      injection H2 as <-. apply sameTree_refl. }
    pose proof (S2 node) as Hn. rewrite E1 in Hn.
    destruct Hn as (p2 & E2 & Se2 & _).
    eapply sameTree_trans; [exact S1|]. eapply sameTree_trans; [exact S2|].
    eapply IHl; [exact E2 | | exact H].
    destruct Se2 as (_ & _ & _ & _ & _ & -> & _). done.
Qed.

(** *** Inversion of the monad *)

Lemma bind_Ok {S A B} (c : M S A) (k : A -> M S B) s b s' :
  bind c k s = Ok (b, s') ->
  exists a s1, c s = Ok (a, s1) /\ k a s1 = Ok (b, s').
Proof.
  unfold bind. destruct (c s) as [[a s1]| |]; [|done..]. eauto.
Qed.

Lemma ret_Ok {S A} (a : A) (s : S) b s' : ret a s = Ok (b, s') -> b = a /\ s' = s.
Proof. unfold ret. by intros [= -> ->]. Qed.

Lemma liftR_Ok {S A} (r : result A) (s : S) b s' :
  liftR r s = Ok (b, s') -> r = Ok b /\ s' = s.
Proof. unfold liftR. destruct r; [|done..]. by intros [= -> ->]. Qed.

Ltac inv_bind H :=
  repeat match type of H with
  | bind _ _ _ = Ok _ =>
      let a := fresh "a" in let s := fresh "s" in
      let H1 := fresh "Hstep" in
      apply bind_Ok in H as (a & s & H1 & H)
  | ret _ _ = Ok _ => apply ret_Ok in H as [? ?]; subst
  end.

(** *** Entries as the flat parse leaves them *)

Lemma unset_snoc props oe :
  unset props -> (forall e, oe = Some e -> children e = None) ->
  unset (props ++ [oe]).
Proof.
  intros Hu Ho i e [Hi H]%entryAt_Some.
  apply lookup_app_Some in H as [H | [_ H]].
  - eapply Hu, entryAt_lookup; eauto.
  - apply list_lookup_singleton_Some in H as [_ ->]. by apply Ho.
Qed.

Lemma convertProperty_unset idx offset ds p ds' :
  convertProperty idx offset ds = Ok (p, ds') -> children p = None.
Proof. unfold convertProperty. intros H. inv_bind H. done. Qed.

Lemma convertBlockLoop_unset todo : forall offset props ds props' ds',
  convertBlockLoop todo offset props ds = Ok (props', ds') ->
  unset props -> unset props'.
Proof.
  induction todo as [|todo IH]; intros offset props ds props' ds' H Hu; simpl in H.
  - by inv_bind H.
  - inv_bind H. eapply IH; [exact H|].
    destruct ((a =? ROOT) || (a =? DIRECTORY) || (a =? DOCUMENT)).
    + inv_bind Hstep0. apply unset_snoc; [done|].
      intros e [= <-]. by eapply convertProperty_unset.
    + inv_bind Hstep0. by apply unset_snoc.
Qed.

Lemma propertyLoop_unset fuel m : forall off props ds props' ds',
  propertyLoop fuel m off props ds = Ok (props', ds') ->
  unset props -> unset props'.
Proof.
  induction fuel as [|f IH]; intros off props ds props' ds' H Hu; simpl in H; [done|].
  destruct (is_num off END_OF_CHAIN); [by inv_bind H|].
  inv_bind H. eapply IH; [exact H|].
  unfold convertBlockToProperties in Hstep. by eapply convertBlockLoop_unset.
Qed.

(** C9.  After the directory is parsed and its tree reconstructed, an entry
    whose child pointer is the no-index mark has no list of children: its
    [children] property is not set, and the list the field extractor walks
    for it is empty.  The reconstruction at such an entry returns at once
    and leaves the directory as it is. *)
Theorem no_child_pointer_no_children
    (fuel stack : nat) (m : msgData) (ds ds' : DataStream)
    (props : list (option property)) (i : Z) (e : property) :
  propertyData_ fuel stack m ds = Ok (props, ds') ->
  entryAt props i = Some e ->
  childProperty e = NO_INDEX ->
  children e = None /\ childList e = []
  /\ forall fuel' stack',
       createPropertyHierarchy (S fuel') (S stack') props i = Ok props.
Proof.
  intros H E Hc.
  assert (forall fuel' stack',
            createPropertyHierarchy (S fuel') (S stack') props i = Ok props) as Hret.
  { intros fuel' stack'. simpl. rewrite E, Hc. done. }
  enough (children e = None /\ childList e = []) as [H1 H2]
    by (split; [exact H1 | split; [exact H2 | exact Hret]]).
  clear Hret.
  unfold propertyData_ in H. inv_bind H.
  apply liftR_Ok in H as [H ->].
  assert (unset a) as Hu.
  { eapply propertyLoop_unset; [exact Hstep|]. intros j x Hx.
    apply entryAt_Some in Hx as [_ Hx]. by rewrite lookup_nil in Hx. }
  apply (proj1 (hierarchy_sameTree fuel) stack) in H.
  specialize (H i). destruct (entryAt a i) as [e0|] eqn:E0; [|congruence].
  destruct H as (e' & E' & Hs & Hn).
  assert (e' = e) as -> by congruence.
  destruct Hs as (_ & _ & _ & _ & _ & Hc' & _).
  rewrite Hn by congruence.
  assert (children e0 = None) as Hnone by by eapply Hu.
  unfold childList. by rewrite Hnone.
Qed.

(** The test message shows it: the entry 1, a stream, has no children. *)
Lemma no_child_pointer_no_children_witness :
  propertyData_ 16 16 msgTables (newDataStream msgFile)
  = Ok (propertyData msgTables,
        streamAfter (propertyData_ 16 16 msgTables) msgFile)
  /\ entryAt (propertyData msgTables) 1 = Some (msgEntry 1)
  /\ childProperty (msgEntry 1) = NO_INDEX
  /\ children (msgEntry 1) = None /\ childList (msgEntry 1) = []
  /\ forall fuel' stack',
       createPropertyHierarchy (S fuel') (S stack') (propertyData msgTables) 1
       = Ok (propertyData msgTables).
Proof.
  assert (propertyData_ 16 16 msgTables (newDataStream msgFile)
          = Ok (propertyData msgTables,
                streamAfter (propertyData_ 16 16 msgTables) msgFile)) as H1
    by (vm_compute; reflexivity).
  assert (entryAt (propertyData msgTables) 1 = Some (msgEntry 1)) as H2
    by (vm_compute; reflexivity).
  assert (childProperty (msgEntry 1) = NO_INDEX) as H3 by (vm_compute; reflexivity).
  split; [exact H1|]. split; [exact H2|]. split; [exact H3|].
  exact (no_child_pointer_no_children 16 16 msgTables _ _ _ 1 (msgEntry 1) H1 H2 H3).
Defined.

(** *** Termination of the reconstruction on acyclic pointers *)

Lemma sameTree_sameShape p p' : sameTree p p' -> sameShape p p'.
Proof.
  intros H i. specialize (H i). destruct (entryAt p i); [|done].
  destruct H as (e' & ? & ? & _). eauto.
Qed.

Lemma sameShape_refl p : sameShape p p.
Proof.
  intros i. destruct (entryAt p i) as [e|]; [|done].
  exists e. split; [done | apply sameEntry_refl].
Qed.

Lemma sameShape_trans p1 p2 p3 : sameShape p1 p2 -> sameShape p2 p3 -> sameShape p1 p3.
Proof.
  intros H12 H23 i. specialize (H12 i). specialize (H23 i).
  destruct (entryAt p1 i) as [e|].
  - destruct H12 as (e2 & E2 & S2). rewrite E2 in H23.
    destruct H23 as (e3 & E3 & S3). exists e3. split; [done|].
    by eapply sameEntry_trans.
  - by rewrite H12 in H23.
Qed.

Lemma sameShape_set_children props n p c :
  entryAt props n = Some p ->
  sameShape props (<[Z.to_nat n := Some (set_children p c)]> props).
Proof.
  intros E i. destruct (Z.eq_dec n i) as [<-|Hne].
  - rewrite E. exists (set_children p c).
    split; [by eapply entryAt_insert_eq | apply sameEntry_set_children].
  - apply entryAt_Some in E as [Hn _].
    rewrite entryAt_insert_ne by done.
    destruct (entryAt props i) as [e|]; [|done].
    exists e. split; [done | apply sameEntry_refl].
Qed.

Lemma sameShape_entry_back p p' i e' :
  sameShape p p' -> entryAt p' i = Some e' ->
  exists e, entryAt p i = Some e /\ sameEntry e e'.
Proof.
  intros H E. specialize (H i). destruct (entryAt p i) as [e|].
  - destruct H as (e2 & E2 & S2). exists e. split; [done|]. congruence.
  - congruence.
Qed.

Lemma sameShape_present p p' i :
  sameShape p p' -> (entryAt p i = None <-> entryAt p' i = None).
Proof.
  intros H. specialize (H i). destruct (entryAt p i) as [e|].
  - destruct H as (e2 & E2 & _). rewrite E2. split; done.
  - done.
Qed.

Lemma pointsDown_sameShape p p' rank i j :
  sameShape p p' -> pointsDown p rank i j -> pointsDown p' rank i j.
Proof.
  intros H. unfold pointsDown. pose proof (sameShape_present _ _ j H) as Hp.
  destruct (entryAt p j), (entryAt p' j); try done.
  destruct Hp as [Hp _]. by specialize (Hp eq_refl).
Qed.

Lemma acyclic_sameShape p p' rank :
  sameShape p p' -> acyclic p rank -> acyclic p' rank.
Proof.
  intros H Ha i e' E'.
  destruct (sameShape_entry_back _ _ _ _ H E') as (e & E & Se).
  destruct (Ha i e E) as (H1 & H2 & H3).
  destruct Se as (_ & _ & _ & -> & -> & -> & _).
  split_and!; by eapply pointsDown_sameShape.
Qed.

Lemma weightOfRank_mono r r' : (r <= r')%nat -> (weightOfRank r <= weightOfRank r')%nat.
Proof. induction 1; simpl; lia. Qed.

Lemma weightOfRank_pos r : (3 <= weightOfRank r)%nat.
Proof. induction r; simpl; lia. Qed.

Lemma fuelOfRank_mono r r' : (r <= r')%nat -> (fuelOfRank r <= fuelOfRank r')%nat.
Proof. induction 1; simpl; lia. Qed.

Lemma fuelOfRank_pos r : (3 <= fuelOfRank r)%nat.
Proof. induction r; simpl; lia. Qed.

Lemma weight_sameShape p p' rank c :
  sameShape p p' -> weight p' rank c = weight p rank c.
Proof.
  intros H. unfold weight. pose proof (sameShape_present _ _ c H) as Hp.
  destruct (entryAt p c), (entryAt p' c); try done.
  - destruct Hp as [_ Hp]. by specialize (Hp eq_refl).
  - destruct Hp as [Hp _]. by specialize (Hp eq_refl).
Qed.

Lemma weightSum_sameShape p p' rank wl :
  sameShape p p' -> weightSum p' rank wl = weightSum p rank wl.
Proof.
  intros H. induction wl as [|c wl IH]; simpl; [done|].
  by rewrite IH, (weight_sameShape _ _ _ _ H).
Qed.

Lemma weightSum_app p rank l1 l2 :
  weightSum p rank (l1 ++ l2) = (weightSum p rank l1 + weightSum p rank l2)%nat.
Proof. induction l1 as [|c l1 IH]; simpl; [done|]. rewrite IH. lia. Qed.

(** A pointer of an entry weighs less than half of the entry. *)
Lemma weight_pointer p rank i j :
  pointsDown p rank i j -> (2 * weight p rank j + 1 <= weightOfRank (rank i))%nat.
Proof.
  unfold pointsDown, weight. destruct (entryAt p j).
  - intros Hlt. destruct (rank i) as [|ri]; [lia|]. simpl.
    pose proof (weightOfRank_mono (rank j) ri). lia.
  - intros _. pose proof (weightOfRank_pos (rank i)). lia.
Qed.

Lemma below_sameShape p p' rank r wl :
  sameShape p p' -> below p rank r wl -> below p' rank r wl.
Proof.
  intros H Hb c Hc Hp. apply Hb; [done|].
  intros Hn. by apply (sameShape_present _ _ c H) in Hn.
Qed.

Lemma create_sameShape fuel stack props node props' :
  createPropertyHierarchy fuel stack props node = Ok props' -> sameShape props props'.
Proof.
  intros H. apply sameTree_sameShape.
  by apply (proj1 (hierarchy_sameTree fuel) stack) in H.
Qed.

Lemma pushChild_terminates props node c : pushChild props node c <> OutOfFuel.
Proof. unfold pushChild. by repeat case_match. Qed.

Lemma loop_from_create rank r :
  (forall r', (r' < r)%nat -> createTerminates rank r') -> loopTerminates rank r.
Proof.
  intros HC fuel. unfold terminates.
  induction fuel as [|f IH]; intros stack props node wl Ha Hb Hf; [lia|].
  simpl. destruct wl as [|c rest]; [done|].
  simpl in Hf. unfold weight in Hf at 1.
  destruct (entryAt props c) as [cur|] eqn:Ec.
  - assert (rank c < r)%nat as Hrc.
    { apply Hb; [apply list_elem_of_here | by rewrite Ec]. }
    destruct r as [|r']; [lia|]. simpl in Hf.
    destruct (pushChild props node c) as [props1| |] eqn:Hp;
      [|done|by apply pushChild_terminates in Hp].
    cbn [rbind].
    apply pushChild_Ok in Hp as (p0 & l & E0 & Hl & ->).
    set (props1 := <[Z.to_nat node := _]> props).
    assert (sameShape props props1) as S1 by by apply sameShape_set_children.
    assert (acyclic props1 rank) as Ha1 by by eapply acyclic_sameShape.
    destruct (if type cur =? DIRECTORY then createPropertyHierarchy f stack props1 c
              else Ok props1) as [props2| |] eqn:H2; [|done|].
    + cbn [rbind].
      assert (sameShape props1 props2) as S2.
      { destruct (type cur =? DIRECTORY); [by eapply create_sameShape|].
        injection H2 as <-. apply sameShape_refl. }
      assert (sameShape props props2) as S12 by by eapply sameShape_trans.
      destruct (Ha c cur Ec) as (Hprev & Hnext & _).
      apply weight_pointer in Hprev, Hnext.
      apply IH.
      * by eapply acyclic_sameShape.
      * eapply below_sameShape; [exact S12|].
        intros x Hx Hpx.
        assert (x ∈ rest \/ (x = previousProperty cur \/ x = nextProperty cur)) as [Hx'|Hx'].
        { revert Hx. repeat case_match;
            rewrite ?elem_of_app, ?list_elem_of_singleton; tauto. }
        -- apply Hb; [by apply list_elem_of_further | done].
        -- destruct (Ha c cur Ec) as (Hp1 & Hn1 & _). unfold pointsDown in Hp1, Hn1.
           destruct Hx' as [-> | ->].
           ++ destruct (entryAt props (previousProperty cur)); [lia | done].
           ++ destruct (entryAt props (nextProperty cur)); [lia | done].
      * rewrite (weightSum_sameShape _ _ _ _ S12).
        assert (weightSum props rank
                  (if Z.eqb (nextProperty cur) NO_INDEX
                   then if Z.eqb (previousProperty cur) NO_INDEX then rest
                        else rest ++ [previousProperty cur]
                   else (if Z.eqb (previousProperty cur) NO_INDEX then rest
                         else rest ++ [previousProperty cur]) ++ [nextProperty cur])
                <= weightSum props rank rest + weight props rank (previousProperty cur)
                   + weight props rank (nextProperty cur))%nat as Hw.
        { repeat case_match; rewrite ?weightSum_app; simpl; lia. }
        simpl fuelBelow. lia.
    + (* the nested reconstruction has fuel enough *)
      exfalso. destruct (Z.eqb_spec (type cur) DIRECTORY); [|done].
      refine (HC (rank c) _ f stack props1 c Ha1 _ _ H2); [lia | done |].
      pose proof (fuelOfRank_mono (rank c) r'). lia.
  - apply IH; [done| |lia]. intros x Hx. apply Hb. by apply list_elem_of_further.
Qed.

Lemma create_from_loop rank r :
  (forall r', (r' <= r)%nat -> loopTerminates rank r') -> createTerminates rank r.
Proof.
  intros HL fuel stack props node Ha Hr Hf. unfold terminates.
  pose proof (fuelOfRank_pos r).
  destruct fuel as [|f]; [lia|]. simpl.
  destruct stack as [|st]; [done|].
  destruct (entryAt props node) as [p|] eqn:E; [|done].
  destruct (Z.eqb_spec (childProperty p) NO_INDEX) as [|Hc]; [done|].
  assert (rank node <= r)%nat as Hrn by (apply Hr; congruence).
  set (props1 := <[Z.to_nat node := _]> props).
  assert (sameShape props props1) as S1 by by apply sameShape_set_children.
  apply (HL (rank node) Hrn).
  - by eapply acyclic_sameShape.
  - eapply below_sameShape; [exact S1|].
    intros x Hx Hpx. apply list_elem_of_singleton in Hx as ->.
    destruct (Ha node p E) as (_ & _ & Hd). unfold pointsDown in Hd.
    destruct (entryAt props (childProperty p)); [lia | done].
  - rewrite (weightSum_sameShape _ _ _ _ S1). simpl.
    destruct (Ha node p E) as (_ & _ & Hd). apply weight_pointer in Hd.
    pose proof (fuelOfRank_mono (rank node) r Hrn).
    destruct (rank node) as [|rn] eqn:Ern; simpl in *; lia.
Qed.

Lemma hierarchy_terminates_rank rank r :
  createTerminates rank r /\ loopTerminates rank r.
Proof.
  induction r as [r IH] using lt_wf_ind.
  assert (loopTerminates rank r) as HL.
  { apply loop_from_create. intros r' Hr'. by apply IH. }
  split; [|done].
  apply create_from_loop. intros r' Hr'.
  destruct (decide (r' = r)) as [->|]; [done|]. apply IH. lia.
Qed.

(** On acyclic pointers the reconstruction terminates. *)
Lemma createPropertyHierarchy_terminates props rank node :
  acyclic props rank ->
  forall fuel stack, (fuelOfRank (rank node) <= fuel)%nat ->
    terminates (createPropertyHierarchy fuel stack props node).
Proof.
  intros Ha fuel stack Hf.
  by apply (proj1 (hierarchy_terminates_rank rank (rank node))).
Qed.

(** *** What a reconstruction leaves alone, and when it returns *)

Lemma pointsDownb_sound props rank i j :
  pointsDownb props rank i j = true -> pointsDown props rank i j.
Proof.
  unfold pointsDownb, pointsDown. destruct (entryAt props j); [|done].
  intros H. by apply Nat.ltb_lt.
Qed.

Lemma acyclicb_sound props rank : acyclicb props rank = true -> acyclic props rank.
Proof.
  unfold acyclicb. rewrite forallb_forall. intros H i e Hi.
  pose proof (entryAt_Some _ _ _ Hi) as [H0 Hl].
  apply lookup_lt_Some in Hl.
  specialize (H i). rewrite Hi in H.
  assert (In i (map Z.of_nat (seq 0 (length props)))) as Hin.
  { apply in_map_iff. exists (Z.to_nat i). split; [lia|].
    apply in_seq. lia. }
  apply H in Hin. apply andb_prop in Hin as [Hin H3].
  apply andb_prop in Hin as [H1 H2].
  auto using pointsDownb_sound.
Qed.

Lemma entryAt_not_NO_INDEX props i e : entryAt props i = Some e -> i <> NO_INDEX.
Proof. intros [Hi _]%entryAt_Some. unfold NO_INDEX. lia. Qed.

Lemma worklist_siblingsOf (rest : list Z) (cur : property) :
  (if nextProperty cur =? NO_INDEX
   then if previousProperty cur =? NO_INDEX then rest
        else rest ++ [previousProperty cur]
   else (if previousProperty cur =? NO_INDEX then rest
         else rest ++ [previousProperty cur]) ++ [nextProperty cur])
  = rest ++ siblingsOf cur.
Proof.
  unfold siblingsOf.
  destruct (nextProperty cur =? NO_INDEX), (previousProperty cur =? NO_INDEX);
    by rewrite ?app_nil_r, <- ?app_assoc.
Qed.

Lemma below_tail props rank r c rest :
  below props rank r (c :: rest) -> below props rank r rest.
Proof. intros Hb x Hx. apply Hb. by apply list_elem_of_further. Qed.

(** The siblings of a worklist element are as far down as the element. *)
Lemma below_siblings props rank r c rest cur :
  acyclic props rank -> below props rank r (c :: rest) ->
  entryAt props c = Some cur ->
  below props rank r (rest ++ siblingsOf cur).
Proof.
  intros Ha Hb Ec x Hx Hpx.
  assert (rank c < r)%nat as Hrc
    by (apply Hb; [apply list_elem_of_here | by rewrite Ec]).
  destruct (Ha c cur Ec) as (Hp1 & Hn1 & _). unfold pointsDown in Hp1, Hn1.
  apply elem_of_app in Hx as [Hx|Hx].
  - apply Hb; [by apply list_elem_of_further | done].
  - unfold siblingsOf in Hx. apply elem_of_app in Hx as [Hx|Hx].
    + destruct (previousProperty cur =? NO_INDEX); [by apply elem_of_nil in Hx|].
      apply list_elem_of_singleton in Hx as ->.
      destruct (entryAt props (previousProperty cur)); [lia | done].
    + destruct (nextProperty cur =? NO_INDEX); [by apply elem_of_nil in Hx|].
      apply list_elem_of_singleton in Hx as ->.
      destruct (entryAt props (nextProperty cur)); [lia | done].
Qed.

Lemma below_child props rank node p :
  acyclic props rank -> entryAt props node = Some p ->
  below props rank (rank node) [childProperty p].
Proof.
  intros Ha E x Hx Hpx. apply list_elem_of_singleton in Hx as ->.
  destruct (Ha node p E) as (_ & _ & Hd). unfold pointsDown in Hd.
  destruct (entryAt props (childProperty p)); [lia | done].
Qed.

Lemma pushChild_eq props node c p l :
  entryAt props node = Some p -> children p = Some l ->
  pushChild props node c
  = Ok (<[Z.to_nat node := Some (set_children p (l ++ [c]))]> props).
Proof. intros E Hl. unfold pushChild. by rewrite E, Hl. Qed.

(** On acyclic pointers, a reconstruction at a node leaves every entry of
    higher rank as it is. *)
Lemma hierarchy_frame rank (fuel : nat) :
  (forall stack props node props',
      acyclic props rank ->
      createPropertyHierarchy fuel stack props node = Ok props' ->
      forall j, (rank node < rank j)%nat -> entryAt props' j = entryAt props j)
  /\ (forall stack props node wl props',
         acyclic props rank -> below props rank (rank node) wl ->
         hierarchyLoop fuel stack props node wl = Ok props' ->
         forall j, (rank node < rank j)%nat -> entryAt props' j = entryAt props j).
Proof.
  induction fuel as [|f [IHc IHl]]; [by split|]. split.
  - intros stack props node props' Ha H j Hj. simpl in H.
    destruct stack as [|st]; [done|].
    destruct (entryAt props node) as [p|] eqn:E; [|done].
    destruct (childProperty p =? NO_INDEX); [by injection H as <-|].
    set (props1 := <[Z.to_nat node := _]> props) in H.
    assert (sameShape props props1) as S1 by by apply sameShape_set_children.
    transitivity (entryAt props1 j).
    + eapply IHl; [ | |exact H|exact Hj].
      * by eapply acyclic_sameShape.
      * eapply below_sameShape; [exact S1|]. by apply below_child.
    + apply entryAt_Some in E as [Hn _]. apply entryAt_insert_ne; [done|].
      intros ->. lia.
  - intros stack props node wl props' Ha Hb H j Hj. simpl in H.
    destruct wl as [|c rest]; [by injection H as <-|].
    destruct (entryAt props c) as [cur|] eqn:Ec.
    2:{ eapply IHl; [exact Ha | by eapply below_tail | exact H | exact Hj]. }
    destruct (pushChild props node c) as [props1| |] eqn:Hp; [|done..].
    cbn [rbind] in H.
    apply pushChild_Ok in Hp as (p & l & E & Hl & ->).
    set (props1 := <[Z.to_nat node := _]> props) in *.
    assert (sameShape props props1) as S1 by by apply sameShape_set_children.
    assert (acyclic props1 rank) as Ha1 by by eapply acyclic_sameShape.
    assert (rank c < rank node)%nat as Hrc
      by (apply Hb; [apply list_elem_of_here | by rewrite Ec]).
    destruct (if type cur =? DIRECTORY then createPropertyHierarchy f stack props1 c
              else Ok props1) as [props2| |] eqn:H2; [|done..].
    cbn [rbind] in H. rewrite worklist_siblingsOf in H.
    assert (sameShape props1 props2) as S2.
    { destruct (type cur =? DIRECTORY); [by eapply create_sameShape|].
      injection H2 as <-. apply sameShape_refl. }
    assert (entryAt props2 j = entryAt props1 j) as E2.
    { destruct (type cur =? DIRECTORY); [|by injection H2 as <-].
      eapply IHc; [exact Ha1 | exact H2 | lia]. }
    transitivity (entryAt props2 j).
    + eapply IHl; [ | |exact H|exact Hj].
      * by eapply acyclic_sameShape.
      * eapply below_sameShape; [eapply sameShape_trans; [exact S1 | exact S2]|].
        by eapply below_siblings.
    + rewrite E2. apply entryAt_Some in E as [Hn _].
      apply entryAt_insert_ne; [done|]. intros ->. lia.
Qed.

(** One iteration of the loop, for an element that is an entry below the
    node: the element is appended to the children of the node, and the
    loop goes on with the rest of the worklist and the siblings of the
    element. *)
Lemma hierarchyLoop_step rank fuel stack props node c rest props' p l cur :
  acyclic props rank ->
  entryAt props node = Some p -> children p = Some l ->
  entryAt props c = Some cur -> (rank c < rank node)%nat ->
  hierarchyLoop (S fuel) stack props node (c :: rest) = Ok props' ->
  exists props2,
    sameShape props props2
    /\ entryAt props2 node = Some (set_children p (l ++ [c]))
    /\ hierarchyLoop fuel stack props2 node (rest ++ siblingsOf cur) = Ok props'.
Proof.
  intros Ha E Hl Ec Hrc H. cbn [hierarchyLoop] in H.
  rewrite Ec, (pushChild_eq _ _ _ _ _ E Hl) in H. cbn [rbind] in H.
  set (props1 := <[Z.to_nat node := _]> props) in *.
  assert (sameShape props props1) as S1 by by apply sameShape_set_children.
  assert (acyclic props1 rank) as Ha1 by by eapply acyclic_sameShape.
  assert (entryAt props1 node = Some (set_children p (l ++ [c]))) as E1
    by by eapply entryAt_insert_eq.
  destruct (if type cur =? DIRECTORY then createPropertyHierarchy fuel stack props1 c
            else Ok props1) as [props2| |] eqn:H2; [|done..].
  cbn [rbind] in H. rewrite worklist_siblingsOf in H.
  exists props2. split_and!; [| |exact H].
  - eapply sameShape_trans; [exact S1|].
    destruct (type cur =? DIRECTORY); [by eapply create_sameShape|].
    injection H2 as <-. apply sameShape_refl.
  - rewrite <- E1. destruct (type cur =? DIRECTORY); [|by injection H2 as <-].
    eapply (proj1 (hierarchy_frame rank fuel)); [exact Ha1 | exact H2 | exact Hrc].
Qed.

(** On acyclic pointers and with room on the call stack for a nest as
    deep as the rank, a reconstruction at an entry does not throw. *)
Lemma hierarchy_no_throw rank (fuel : nat) :
  (forall stack props node e,
      acyclic props rank -> entryAt props node <> None ->
      (rank node < stack)%nat ->
      createPropertyHierarchy fuel stack props node <> Throw e)
  /\ (forall stack props node wl p l e,
         acyclic props rank ->
         entryAt props node = Some p -> children p = Some l ->
         below props rank (rank node) wl -> (rank node <= stack)%nat ->
         hierarchyLoop fuel stack props node wl <> Throw e).
Proof.
  induction fuel as [|f [IHc IHl]]; [by split|]. split.
  - intros stack props node e Ha Hn Hs. simpl.
    destruct stack as [|st]; [lia|].
    destruct (entryAt props node) as [p|] eqn:E; [|done].
    destruct (childProperty p =? NO_INDEX); [done|].
    set (props1 := <[Z.to_nat node := _]> props).
    assert (sameShape props props1) as S1 by by apply sameShape_set_children.
    eapply (IHl st props1 node _ (set_children p []) []).
    + by eapply acyclic_sameShape.
    + by eapply entryAt_insert_eq.
    + done.
    + eapply below_sameShape; [exact S1|]. by apply below_child.
    + lia.
  - intros stack props node wl p l e Ha E Hl Hb Hs. simpl.
    destruct wl as [|c rest]; [done|].
    destruct (entryAt props c) as [cur|] eqn:Ec.
    2:{ eapply IHl; [exact Ha | exact E | exact Hl | by eapply below_tail | exact Hs]. }
    rewrite (pushChild_eq _ _ _ _ _ E Hl). cbn [rbind].
    set (props1 := <[Z.to_nat node := _]> props).
    assert (sameShape props props1) as S1 by by apply sameShape_set_children.
    assert (acyclic props1 rank) as Ha1 by by eapply acyclic_sameShape.
    assert (entryAt props1 node = Some (set_children p (l ++ [c]))) as E1
      by by eapply entryAt_insert_eq.
    assert (rank c < rank node)%nat as Hrc
      by (apply Hb; [apply list_elem_of_here | by rewrite Ec]).
    destruct (if type cur =? DIRECTORY then createPropertyHierarchy f stack props1 c
              else Ok props1) as [props2|e2|] eqn:H2; [| |done].
    + cbn [rbind]. rewrite worklist_siblingsOf.
      assert (sameShape props1 props2) as S2.
      { destruct (type cur =? DIRECTORY); [by eapply create_sameShape|].
        injection H2 as <-. apply sameShape_refl. }
      assert (entryAt props2 node = Some (set_children p (l ++ [c]))) as E2.
      { rewrite <- E1. destruct (type cur =? DIRECTORY); [|by injection H2 as <-].
        eapply (proj1 (hierarchy_frame rank f)); [exact Ha1 | exact H2 | exact Hrc]. }
      eapply IHl; [ | exact E2 | reflexivity | | exact Hs].
      * by eapply acyclic_sameShape.
      * eapply below_sameShape; [eapply sameShape_trans; [exact S1 | exact S2]|].
        by eapply below_siblings.
    + exfalso. destruct (type cur =? DIRECTORY); [|done].
      refine (IHc stack props1 c e2 Ha1 _ _ H2); [|lia].
      intros Hn. apply (sameShape_present _ _ c S1) in Hn. by rewrite Ec in Hn.
Qed.

(** On acyclic pointers the reconstruction at an entry returns, given fuel
    and call stack enough for the rank of the entry. *)
Lemma createPropertyHierarchy_returns props rank node (fuel stack : nat) :
  acyclic props rank -> entryAt props node <> None ->
  (fuelOfRank (rank node) <= fuel)%nat -> (rank node < stack)%nat ->
  exists props', createPropertyHierarchy fuel stack props node = Ok props'.
Proof.
  intros Ha Hn Hf Hs.
  destruct (createPropertyHierarchy fuel stack props node) as [props'|e|] eqn:H.
  - by exists props'.
  - by apply (proj1 (hierarchy_no_throw rank fuel)) in H.
  - by apply (createPropertyHierarchy_terminates props rank node Ha fuel stack Hf) in H.
Qed.

(** *** Three siblings under a node *)

(** C7.  A node's child pointer names the entry [im], whose previous and
    next siblings are the entries [ia] and [ib], themselves without
    siblings; the three sit at any places of the directory, and any of
    them may be a storage with children of its own.  Whenever the
    reconstruction at the node returns, the children of the node are [im],
    [ia], [ib]: all three, each once.  On pointers without a cycle it does
    return, given fuel and call stack for the rank of the node. *)
Theorem three_siblings_all_visited
    (props : list (option property)) (rank : Z -> nat)
    (root a mid b : property) (ir ia im ib : Z) :
  acyclic props rank ->
  entryAt props ir = Some root ->
  entryAt props im = Some mid ->
  entryAt props ia = Some a ->
  entryAt props ib = Some b ->
  childProperty root = im ->
  previousProperty mid = ia -> nextProperty mid = ib ->
  previousProperty a = NO_INDEX -> nextProperty a = NO_INDEX ->
  previousProperty b = NO_INDEX -> nextProperty b = NO_INDEX ->
  ia <> ib ->
  (forall fuel stack props',
      createPropertyHierarchy fuel stack props ir = Ok props' ->
      exists root', entryAt props' ir = Some root'
                    /\ children root' = Some [im; ia; ib])
  /\ (forall fuel stack,
        (fuelOfRank (rank ir) <= fuel)%nat -> (rank ir < stack)%nat ->
        exists props', createPropertyHierarchy fuel stack props ir = Ok props')
  /\ NoDup [im; ia; ib].
Proof.
  intros Ha Er Em Ea Eb Hc Hmp Hmn Hap Han Hbp Hbn Nab.
  pose proof (entryAt_not_NO_INDEX _ _ _ Em) as Him.
  pose proof (entryAt_not_NO_INDEX _ _ _ Ea) as Hia.
  pose proof (entryAt_not_NO_INDEX _ _ _ Eb) as Hib.
  assert (rank im < rank ir)%nat as Rm.
  { destruct (Ha ir root Er) as (_ & _ & Hd). unfold pointsDown in Hd.
    by rewrite Hc, Em in Hd. }
  assert (rank ia < rank im)%nat as Ra.
  { destruct (Ha im mid Em) as (Hd & _ & _). unfold pointsDown in Hd.
    by rewrite Hmp, Ea in Hd. }
  assert (rank ib < rank im)%nat as Rb.
  { destruct (Ha im mid Em) as (_ & Hd & _). unfold pointsDown in Hd.
    by rewrite Hmn, Eb in Hd. }
  split_and!.
  - intros fuel stack props' H.
    destruct fuel as [|f]; [done|]. destruct stack as [|st]; [done|].
    cbn [createPropertyHierarchy] in H. rewrite Er, Hc in H.
    destruct (Z.eqb_spec im NO_INDEX) as [|_]; [done|].
    set (props1 := <[Z.to_nat ir := _]> props) in H.
    assert (sameShape props props1) as S1 by by apply sameShape_set_children.
    assert (acyclic props1 rank) as Ha1 by by eapply acyclic_sameShape.
    assert (entryAt props1 ir = Some (set_children root [])) as E1
      by by eapply entryAt_insert_eq.
    (* first iteration: the middle sibling *)
    pose proof (S1 im) as Hm1. rewrite Em in Hm1.
    destruct Hm1 as (mid1 & Em1 & Sm1).
    destruct f as [|f]; [done|].
    destruct (hierarchyLoop_step rank f st props1 ir im [] props' _ [] mid1
                Ha1 E1 eq_refl Em1 Rm H) as (props2 & S2 & E2 & H2).
    assert (siblingsOf mid1 = [ia; ib]) as Hsib.
    { unfold siblingsOf. destruct Sm1 as (_ & _ & _ & -> & -> & _).
      rewrite Hmp, Hmn.
      destruct (Z.eqb_spec ia NO_INDEX); [done|].
      by destruct (Z.eqb_spec ib NO_INDEX). }
    rewrite Hsib in H2. cbn [app] in H2, E2.
    assert (sameShape props props2) as S02 by by eapply sameShape_trans.
    assert (acyclic props2 rank) as Ha2 by by eapply acyclic_sameShape.
    (* second iteration: the previous sibling *)
    pose proof (S02 ia) as Ha'. rewrite Ea in Ha'.
    destruct Ha' as (a2 & Ea2 & Sa2).
    destruct f as [|f]; [done|].
    destruct (hierarchyLoop_step rank f st props2 ir ia [ib] props' _ [im] a2
                Ha2 E2 eq_refl Ea2 ltac:(lia) H2) as (props3 & S3 & E3 & H3).
    assert (siblingsOf a2 = []) as Hsa.
    { unfold siblingsOf. destruct Sa2 as (_ & _ & _ & -> & -> & _).
      by rewrite Hap, Han. }
    rewrite Hsa in H3. cbn [app] in H3, E3.
    assert (sameShape props props3) as S03 by by eapply sameShape_trans.
    assert (acyclic props3 rank) as Ha3 by by eapply acyclic_sameShape.
    (* third iteration: the next sibling *)
    pose proof (S03 ib) as Hb'. rewrite Eb in Hb'.
    destruct Hb' as (b3 & Eb3 & Sb3).
    destruct f as [|f]; [done|].
    destruct (hierarchyLoop_step rank f st props3 ir ib [] props' _ [im; ia] b3
                Ha3 E3 eq_refl Eb3 ltac:(lia) H3) as (props4 & S4 & E4 & H4).
    assert (siblingsOf b3 = []) as Hsb.
    { unfold siblingsOf. destruct Sb3 as (_ & _ & _ & -> & -> & _).
      by rewrite Hbp, Hbn. }
    rewrite Hsb in H4. cbn [app] in H4, E4.
    destruct f as [|f]; [done|]. cbn [hierarchyLoop] in H4. injection H4 as <-.
    eexists. split; [exact E4 | reflexivity].
  - intros fuel stack Hf Hs.
    apply (createPropertyHierarchy_returns props rank ir fuel stack Ha);
      [by rewrite Er | exact Hf | exact Hs].
  - repeat apply NoDup_cons_2; rewrite ?elem_of_cons, ?elem_of_nil;
      [|tauto|tauto|apply NoDup_nil_2].
    intros [->|[->|[]]]; lia.
Qed.

(** The directory [nestedSiblings]: the child pointer of the root names
    entry 2, a storage with a child of its own; the root gets the children
    2, 3, 1 and entry 2 the child 4. *)
Lemma three_siblings_all_visited_witness :
  acyclic nestedSiblings nestedRank
  /\ (exists props' root',
        createPropertyHierarchy 32 4 nestedSiblings 0 = Ok props'
        /\ entryAt props' 0 = Some root'
        /\ children root' = Some [2; 3; 1])
  /\ NoDup [2; 3; 1].
Proof.
  assert (acyclic nestedSiblings nestedRank) as H
    by (apply acyclicb_sound; vm_compute; reflexivity).
  destruct (three_siblings_all_visited nestedSiblings nestedRank
              (mkProperty 0 ROOT (js "Root Entry") (-1) (-1) 2 (-2) 0 None)
              (mkProperty 3 DOCUMENT (js "__substg1.0_0039001E") (-1) (-1) (-1) 2 5 None)
              (mkProperty 2 DIRECTORY (js "__attach_version1.0_#00000000")
                 3 1 4 0 0 None)
              (mkProperty 1 DOCUMENT (js "__substg1.0_1000001E") (-1) (-1) (-1) 0 5 None)
              0 3 2 1 H)
    as (H1 & H2 & H3); try reflexivity; try lia.
  split; [exact H|]. split; [|exact H3].
  destruct (H2 32%nat 4%nat) as (props' & Hr); [vm_compute; lia | vm_compute; lia |].
  destruct (H1 _ _ _ Hr) as (root' & E' & C').
  by exists props', root'.
Defined.

(** *** The byte cursor: what the reads leave unchanged *)

Lemma tame_ret {A} (a : A) : tame (ret a).
Proof. split; [done|]. by intros file ds b ds' Hc [= _ <-]. Qed.

Lemma tame_throw {A} e : tame (@throw DataStream A e).
Proof. split; done. Qed.

Lemma tame_bind {A B} (c : M DataStream A) (k : A -> M DataStream B) :
  tame c -> (forall a, tame (k a)) -> tame (bind c k).
Proof.
  intros [Tc Kc] Hk. split.
  - intros ds. unfold bind. destruct (c ds) as [[a s]| |] eqn:E; [|done|by apply Tc in E].
    apply Hk.
  - intros file ds b ds' Hcl H. apply bind_Ok in H as (a & s & H1 & H2).
    eapply Hk; [|exact H2]. by eapply Kc.
Qed.

Lemma tame_seek pos : tame (seek pos).
Proof.
  split; [done|]. intros file ds a ds' [Hb Hl]. unfold seek. by intros [= _ <-].
Qed.

Lemma tame_viewBytes n : tame (viewBytes n).
Proof.
  split.
  - intros ds. unfold viewBytes. by case_match.
  - intros file ds a ds' [Hb Hl]. unfold viewBytes. case_match; [|done].
    by intros [= _ <-].
Qed.

Lemma tame_trimAlloc : tame trimAlloc.
Proof.
  split.
  - intros ds. unfold trimAlloc. by case_match.
  - intros file ds a ds' [Hb Hl]. unfold trimAlloc.
    rewrite Hb, Hl, Z.eqb_refl. by intros [= _ <-].
Qed.

Lemma tame_copyBytes n : tame (copyBytes n).
Proof.
  apply tame_bind; [apply tame_trimAlloc|]. intros _. split.
  - intros ds. by case_match.
  - intros file ds a ds' [Hb Hl]. case_match; [done|]. by intros [= _ <-].
Qed.

Lemma tame_isEof : tame isEof.
Proof. split; [done|]. intros file ds a ds' Hc. unfold isEof. by intros [= _ <-]. Qed.

Ltac tame_step :=
  first
    [ apply tame_ret | apply tame_throw | apply tame_seek | apply tame_viewBytes
    | apply tame_copyBytes | apply tame_isEof | apply tame_trimAlloc
    | apply tame_bind; [|intros ?]
    | match goal with
      | |- tame (if ?b then _ else _) => destruct b
      | |- tame (match ?x with _ => _ end) => destruct x
      end ].

Ltac tame := repeat tame_step.

Lemma tame_readUint8 : tame readUint8.
Proof. unfold readUint8. tame. Qed.
Lemma tame_readUint16 : tame readUint16.
Proof. unfold readUint16. tame. Qed.
Lemma tame_readUint32 : tame readUint32.
Proof. unfold readUint32. tame. Qed.
Lemma tame_readInt : forall o, tame (readInt o).
Proof. intros. unfold readInt, readInt32. tame. Qed.
Lemma tame_readShort : forall o, tame (readShort o).
Proof. intros. unfold readShort, readInt16. tame. Qed.
Lemma tame_readByte : forall o, tame (readByte o).
Proof. intros. unfold readByte, readInt8. tame. Qed.
Lemma tame_readInt32Array : forall n, tame (readInt32Array n).
Proof. intros. unfold readInt32Array. tame. Qed.
Lemma tame_readUint8Array : forall n, tame (readUint8Array n).
Proof. intros. unfold readUint8Array. tame. Qed.
Lemma tame_readStringAt : forall o n, tame (readStringAt o n).
Proof. intros. unfold readStringAt, readUCS2String, readUint16Array. tame. Qed.

Lemma tame_getBlockAt m o : tame (getBlockAt m o).
Proof. unfold getBlockAt. tame. Qed.

Lemma tame_getNextBlockInner m o d : tame (getNextBlockInner m o d).
Proof. unfold getNextBlockInner. tame. Qed.

Lemma tame_convertName o : tame (convertName o).
Proof.
  unfold convertName. apply tame_bind; [apply tame_readShort|]. intros n.
  destruct (n <? 1); [apply tame_ret|].
  apply tame_bind; [apply tame_readStringAt | intros ?; apply tame_ret].
Qed.

Lemma tame_convertProperty i o : tame (convertProperty i o).
Proof.
  unfold convertProperty.
  repeat first [ apply tame_ret | apply tame_readByte | apply tame_readInt
               | apply tame_convertName | apply tame_bind; [|intros ?] ].
Qed.

Lemma tame_convertBlockLoop todo : forall o props, tame (convertBlockLoop todo o props).
Proof.
  induction todo as [|todo IH]; intros o props; simpl; [apply tame_ret|].
  apply tame_bind; [apply tame_readByte|]. intros t.
  apply tame_bind; [|intros ?; apply IH].
  destruct ((t =? ROOT) || (t =? DIRECTORY) || (t =? DOCUMENT)); [|apply tame_ret].
  apply tame_bind; [apply tame_convertProperty | intros ?; apply tame_ret].
Qed.

Lemma tame_convertBlockToProperties m o props : tame (convertBlockToProperties m o props).
Proof. apply tame_convertBlockLoop. Qed.

Lemma posfree_bind {A B} (c : M DataStream A) (k : A -> M DataStream B) :
  posfree c -> posfree (bind c k).
Proof. intros H buf bl p1 p2. unfold bind. by rewrite (H buf bl p1 p2). Qed.

Lemma posfree_seek pos : posfree (seek pos).
Proof. done. Qed.

Lemma posfree_seek_then {A} pos (c : M DataStream A) : posfree (bind (seek pos) (fun _ => c)).
Proof. apply posfree_bind, posfree_seek. Qed.

Lemma posfree_getNextBlockInner m o d : posfree (getNextBlockInner m o d).
Proof.
  unfold getNextBlockInner, getBlockAt. apply posfree_bind, posfree_bind, posfree_seek.
Qed.

(** On a clean stream a position-free computation is the one run from the
    start of the file. *)
Lemma posfree_clean {A} (c : M DataStream A) file ds :
  posfree c -> clean file ds -> c ds = c (newDataStream file).
Proof.
  intros Hp [Hb Hl]. destruct ds as [buf bl pos]. simpl in *. subst.
  apply Hp.
Qed.

Lemma valueOn_Ok {A} (c : M DataStream A) file a :
  valueOn c file = Ok a -> exists ds', c (newDataStream file) = Ok (a, ds').
Proof.
  unfold valueOn. destruct (c (newDataStream file)) as [[x s]| |]; [|done..].
  intros [= ->]. eauto.
Qed.

(** *** The chain walks *)



(** *** Sizes of the allocation tables *)








(** *** Walks that meet a cycle *)


Lemma chainBySmall_cycle m file off :
  is_num off END_OF_CHAIN = false ->
  nextBlockSmallOf m file off = Ok off ->
  forall fuel chain ds, clean file ds ->
    chainBySmall fuel m off chain ds = OutOfFuel.
Proof.
  intros Hne Hnext fuel.
  induction fuel as [|f IH]; intros chain ds Hcl; [done|].
  simpl. rewrite Hne.
  apply valueOn_Ok in Hnext as (ds2 & Hnext).
  unfold bind, getNextBlockSmall in *.
  rewrite (posfree_clean _ file ds (posfree_getNextBlockInner _ _ _) Hcl).
  rewrite Hnext. apply IH.
  eapply (tame_getNextBlockInner m off); [|exact Hnext]. by split.
Qed.



(** *** A directory chain that is a cycle *)







Section CyclicFile.
Variable MAPI_PROPERTIES : list Z -> option (list Z).
Variable toLowerCase : list Z -> list Z.
Variable utf8Decode : list Z -> list Z.


End CyclicFile.

(** ** Fixed property stream *)

Lemma bind_eq_Ok {S A B} (c : M S A) (k : A -> M S B) s a s1 :
  c s = Ok (a, s1) -> bind c k s = k a s1.
Proof. intros H. unfold bind. by rewrite H. Qed.

Lemma bind_eq_Throw {S A B} (c : M S A) (k : A -> M S B) s e :
  c s = Throw e -> bind c k s = Throw e.
Proof. intros H. unfold bind. by rewrite H. Qed.

Lemma bind_Throw {S A B} (c : M S A) (k : A -> M S B) s e :
  bind c k s = Throw e ->
  c s = Throw e \/ exists a s1, c s = Ok (a, s1) /\ k a s1 = Throw e.
Proof.
  unfold bind. destruct (c s) as [[a s1]| |]; simpl; intros H;
    [|left; by simplify_eq|done].
  right. eauto.
Qed.

Lemma readingAt_start bytes : readingAt [] bytes (newDataStream bytes).
Proof. done. Qed.

Lemma len_app {A} (l1 l2 : list A) : len (l1 ++ l2) = len l1 + len l2.
Proof. unfold len. rewrite length_app. lia. Qed.

Lemma viewBytes_at pre c rest ds :
  readingAt pre (c ++ rest) ds ->
  exists ds', viewBytes (len c) ds = Ok (c, ds') /\ readingAt (pre ++ c) rest ds'.
Proof.
  intros (Hb & Hl & Hp). unfold viewBytes. rewrite Hb, Hp, !len_app.
  destruct (Z.leb_spec (len pre + len c) (len pre + (len c + len rest))) as [_|Hn];
    [|unfold len in Hn; lia].
  eexists. split; [|split_and!].
  - f_equal. f_equal. unfold slice, len. rewrite !Nat2Z.id.
    rewrite drop_app_length. by rewrite take_app_length.
  - simpl. by rewrite <- app_assoc.
  - simpl. rewrite Hl. f_equal. by rewrite <- app_assoc.
  - simpl. by rewrite ?Hp, len_app.
Qed.

Lemma viewBytes_short pre rest ds n :
  readingAt pre rest ds -> len rest < n -> viewBytes n ds = Throw RangeError.
Proof.
  intros (Hb & Hl & Hp) Hn. unfold viewBytes. rewrite Hb, Hp, len_app.
  destruct (Z.leb_spec (len pre + n) (len pre + len rest)); [lia | done].
Qed.

Lemma readUint8_at pre b rest ds :
  readingAt pre (b :: rest) ds ->
  exists ds', readUint8 ds = Ok (b, ds') /\ readingAt (pre ++ [b]) rest ds'.
Proof.
  intros H. destruct (viewBytes_at pre [b] rest ds H) as (ds' & Hv & Hat).
  exists ds'. split; [|done]. unfold readUint8.
  rewrite (bind_eq_Ok _ _ _ _ _ Hv). unfold ret. simpl. do 2 f_equal. lia.
Qed.

Lemma readUint8_end pre ds :
  readingAt pre [] ds -> readUint8 ds = Throw RangeError.
Proof.
  intros H. unfold readUint8. apply bind_eq_Throw.
  eapply viewBytes_short; [exact H | done].
Qed.

Lemma readUint16_at pre b0 b1 rest ds :
  readingAt pre (b0 :: b1 :: rest) ds ->
  exists ds', readUint16 ds = Ok (le_unsigned [b0; b1], ds')
              /\ readingAt (pre ++ [b0; b1]) rest ds'.
Proof.
  intros H. destruct (viewBytes_at pre [b0; b1] rest ds H) as (ds' & Hv & Hat).
  exists ds'. split; [|done]. unfold readUint16.
  by rewrite (bind_eq_Ok _ _ _ _ _ Hv).
Qed.

Lemma readUint32_at pre b0 b1 b2 b3 rest ds :
  readingAt pre (b0 :: b1 :: b2 :: b3 :: rest) ds ->
  exists ds', readUint32 ds = Ok (le_unsigned [b0; b1; b2; b3], ds')
              /\ readingAt (pre ++ [b0; b1; b2; b3]) rest ds'.
Proof.
  intros H. destruct (viewBytes_at pre [b0; b1; b2; b3] rest ds H) as (ds' & Hv & Hat).
  exists ds'. split; [|done]. unfold readUint32.
  by rewrite (bind_eq_Ok _ _ _ _ _ Hv).
Qed.

Lemma readUint8s_at c : forall pre rest ds,
  readingAt pre (c ++ rest) ds ->
  exists ds', readUint8s (length c) ds = Ok (c, ds') /\ readingAt (pre ++ c) rest ds'.
Proof.
  induction c as [|b c IH]; intros pre rest ds H.
  - exists ds. simpl. by rewrite app_nil_r.
  - destruct (readUint8_at _ _ _ _ H) as (ds1 & Hr & Hat).
    destruct (IH _ _ _ Hat) as (ds2 & Hr2 & Hat2).
    exists ds2. simpl. rewrite (bind_eq_Ok _ _ _ _ _ Hr), (bind_eq_Ok _ _ _ _ _ Hr2).
    split; [done|]. by rewrite <- app_assoc in Hat2.
Qed.

(** The check of [n] reserved bytes, by the bytes ahead. *)
Lemma checkReserved_at n : forall pre rest ds,
  readingAt pre rest ds ->
  match scanReserved n rest with
  | Ok _ => exists ds', checkReserved n ds = Ok (tt, ds')
                        /\ readingAt (pre ++ take n rest) (drop n rest) ds'
  | Throw e => checkReserved n ds = Throw e
  | OutOfFuel => False
  end.
Proof.
  induction n as [|n IH]; intros pre rest ds H; simpl.
  - exists ds. split; [done|]. by rewrite take_0, drop_0, app_nil_r.
  - destruct rest as [|b r].
    + apply bind_eq_Throw. by apply (readUint8_end pre).
    + destruct (readUint8_at _ _ _ _ H) as (ds1 & Hr & Hat).
      rewrite (bind_eq_Ok _ _ _ _ _ Hr).
      destruct (Z.eqb_spec b 0) as [->|Hb]; [|done].
      specialize (IH _ _ _ Hat). destruct (scanReserved n r); [|done..].
      destruct IH as (ds' & Hc & Hat'). exists ds'. split; [done|].
      by rewrite <- app_assoc in Hat'.
Qed.

Lemma scanReserved_invalid n : forall rest,
  scanReserved n rest = Throw invalidPropertiesHeader
  <-> exists i b, (i < n)%nat /\ rest !! i = Some b /\ b <> 0.
Proof.
  induction n as [|n IH]; intros rest; simpl.
  - split; [done|]. intros (i & b & Hi & _). lia.
  - destruct rest as [|b r].
    + split; [done|]. by intros (i & b & _ & H & _).
    + destruct (Z.eqb_spec b 0) as [->|Hb].
      * rewrite IH. split.
        -- intros (i & b & Hi & Hl & Hb). exists (S i), b. split; [lia | done].
        -- intros (i & b & Hi & Hl & Hb). destruct i as [|i]; [by simplify_eq/=|].
           exists i, b. split; [lia | done].
      * split; [|done]. intros _. exists 0%nat, b. split; [lia | done].
Qed.

Lemma scanReserved_Ok n : forall rest,
  scanReserved n rest = Ok tt -> (n <= length rest)%nat /\ take n rest = repeat 0 n.
Proof.
  induction n as [|n IH]; intros rest; simpl.
  - intros _. split; [lia | done].
  - destruct rest as [|b r]; [done|].
    destruct (Z.eqb_spec b 0) as [->|Hb]; [|done].
    intros [H1 H2]%IH. simpl. split; [lia | by rewrite H2].
Qed.

Lemma scanReserved_outcome n rest :
  scanReserved n rest = Ok tt
  \/ scanReserved n rest = Throw invalidPropertiesHeader
  \/ (scanReserved n rest = Throw RangeError /\ (length rest < n)%nat).
Proof.
  revert rest. induction n as [|n IH]; intros rest; simpl; [by left|].
  destruct rest as [|b r]; [right; right; split; [done | simpl; lia]|].
  destruct (Z.eqb_spec b 0); [|by right; left].
  destruct (IH r) as [?|[?|[? ?]]]; [by left | by right; left |].
  right; right. split; [done | simpl; lia].
Qed.

Lemma bind_OutOfFuel {S A B} (c : M S A) (k : A -> M S B) s :
  bind c k s = OutOfFuel ->
  c s = OutOfFuel \/ exists a s1, c s = Ok (a, s1) /\ k a s1 = OutOfFuel.
Proof.
  unfold bind. destruct (c s) as [[a s1]| |]; simpl; intros H; [|done|by left].
  right. eauto.
Qed.

Lemma rangeOnly_bind {A B} (c : M DataStream A) (k : A -> M DataStream B) :
  rangeOnly c -> (forall a, rangeOnly (k a)) -> rangeOnly (bind c k).
Proof.
  intros Hc Hk ds e [H | (a & s1 & _ & H)]%bind_Throw; [by eapply Hc | by eapply Hk].
Qed.

Lemma rangeOnly_ret {A} (a : A) : rangeOnly (ret a).
Proof. done. Qed.

Lemma rangeOnly_viewBytes n : rangeOnly (viewBytes n).
Proof. intros ds e. unfold viewBytes. case_match; [done|]. by intros [= <-]. Qed.

Lemma rangeOnly_isEof : rangeOnly isEof.
Proof. done. Qed.

Lemma rangeOnly_readUint8s n : rangeOnly (readUint8s n).
Proof.
  induction n as [|n IH]; simpl; [done|].
  apply rangeOnly_bind; [apply rangeOnly_bind; [apply rangeOnly_viewBytes | done]|].
  intros ?. apply rangeOnly_bind; [apply IH | done].
Qed.

(** A read that succeeds found its bytes ahead. *)
Lemma viewBytes_Ok_at pre rest ds (n : nat) a ds' :
  readingAt pre rest ds -> viewBytes (Z.of_nat n) ds = Ok (a, ds') ->
  (n <= length rest)%nat /\ a = take n rest
  /\ readingAt (pre ++ take n rest) (drop n rest) ds'.
Proof.
  intros Hat H. destruct (decide (n <= length rest)%nat) as [Hn|Hn].
  - rewrite <- (take_drop n rest) in Hat.
    destruct (viewBytes_at _ _ _ _ Hat) as (ds2 & Hv & Hat2).
    unfold len in Hv. rewrite length_take, Nat.min_l in Hv by done.
    rewrite H in Hv. by simplify_eq.
  - rewrite (viewBytes_short pre rest ds) in H; [done | done | unfold len; lia].
Qed.

Lemma readUint8s_Ok_at n : forall pre rest ds a ds',
  readingAt pre rest ds -> readUint8s n ds = Ok (a, ds') ->
  (n <= length rest)%nat /\ readingAt (pre ++ take n rest) (drop n rest) ds'.
Proof.
  induction n as [|n IH]; intros pre rest ds a ds' Hat H; simpl in H.
  - inv_bind H. split; [lia|]. by rewrite take_0, drop_0, app_nil_r.
  - apply bind_Ok in H as (v & s1 & Hv & H).
    apply bind_Ok in H as (r & s2 & Hr & H). apply ret_Ok in H as [-> ->].
    unfold readUint8 in Hv. apply bind_Ok in Hv as (b & s0 & Hb & Hv).
    apply ret_Ok in Hv as [-> ->].
    apply (viewBytes_Ok_at pre rest ds 1%nat _ _ Hat) in Hb as (Hn & Heq & Hat1).
    apply (IH _ _ _ _ _ Hat1) in Hr as (Hn2 & Hat2).
    rewrite length_drop in Hn2. split; [lia|].
    rewrite <- app_assoc, drop_drop in Hat2.
    clear IH Hat1 Hn2 Heq. destruct rest as [|x rest']; [simpl in Hn; lia|].
    simpl in *. by rewrite drop_0 in Hat2.
Qed.

Lemma readBytes_Ok_at (f : list Z -> Z) (n : nat) pre rest ds a ds' :
  readingAt pre rest ds ->
  (let* b := viewBytes (Z.of_nat n) in ret (f b)) ds = Ok (a, ds') ->
  (n <= length rest)%nat /\ readingAt (pre ++ take n rest) (drop n rest) ds'.
Proof.
  intros Hat H. apply bind_Ok in H as (b & s1 & Hb & H).
  apply ret_Ok in H as [-> ->].
  by apply (viewBytes_Ok_at pre rest ds n _ _ Hat) in Hb as (Hn & Heq & Hat1).
Qed.

Lemma tame_readUint8s n : tame (readUint8s n).
Proof.
  induction n as [|n IH]; simpl; [apply tame_ret|].
  apply tame_bind; [apply tame_readUint8|]. intros ?.
  apply tame_bind; [apply IH | intros ?; apply tame_ret].
Qed.

Section RootProperties.
Variable MAPI_PROPERTIES : list Z -> option (list Z).
Variable toLowerCase : list Z -> list Z.

Local Abbreviation recordsLoop := (recordsLoop MAPI_PROPERTIES toLowerCase).
Local Abbreviation readRootProperties := (readRootProperties MAPI_PROPERTIES toLowerCase).
Local Abbreviation insertRecord := (insertRecord MAPI_PROPERTIES toLowerCase).

Lemma recordsLoop_rangeOnly fuel : forall values, rangeOnly (recordsLoop fuel values).
Proof.
  induction fuel as [|f IH]; intros values; simpl; [done|].
  apply rangeOnly_bind; [apply rangeOnly_isEof|]. intros eof.
  destruct eof; [apply rangeOnly_ret|].
  unfold readUint16, readUint32.
  repeat first
    [ apply IH | apply rangeOnly_ret | apply rangeOnly_viewBytes
    | apply rangeOnly_readUint8s | apply rangeOnly_bind; [|intros ?] ].
Qed.

(** The record loop never uses up the fuel [#readRootProperties] gives it. *)
Lemma recordsLoop_total fuel : forall values pre rest ds,
  readingAt pre rest ds -> (length rest < fuel)%nat ->
  recordsLoop fuel values ds <> OutOfFuel.
Proof.
  induction fuel as [|f IH]; intros values pre rest ds Hat Hf; [lia|].
  simpl. intros Hout.
  apply bind_OutOfFuel in Hout as [Hx|(eof & s1 & H1 & Hout)]; [done|].
  unfold isEof in H1. injection H1 as <- <-.
  destruct (byteLength ds <=? position ds); [done|].
  apply bind_OutOfFuel in Hout as [Hx|(t & s2 & H2 & Hout)];
    [by apply tame_readUint16 in Hx|].
  apply (readBytes_Ok_at _ 2%nat _ _ _ _ _ Hat) in H2 as (L1 & Hat1).
  apply bind_OutOfFuel in Hout as [Hx|(c & s3 & H3 & Hout)];
    [by apply tame_readUint16 in Hx|].
  apply (readBytes_Ok_at _ 2%nat _ _ _ _ _ Hat1) in H3 as (L2 & Hat2).
  apply bind_OutOfFuel in Hout as [Hx|(fl & s4 & H4 & Hout)];
    [by apply tame_readUint32 in Hx|].
  apply (readBytes_Ok_at _ 4%nat _ _ _ _ _ Hat2) in H4 as (L3 & Hat3).
  apply bind_OutOfFuel in Hout as [Hx|(v & s5 & H5 & Hout)];
    [by apply (proj1 (tame_readUint8s 8) s4) in Hx|].
  apply (readUint8s_Ok_at 8 _ _ _ _ _ Hat3) in H5 as (L4 & Hat4).
  revert Hout. eapply IH; [exact Hat4|].
  rewrite !length_drop in *. lia.
Qed.

(** The record loop on whole records: each is decoded and stored. *)
Lemma recordsLoop_records records : forall fuel values pre ds,
  Forall (fun r => length r = 16%nat) records ->
  readingAt pre (concat records) ds ->
  (length records < fuel)%nat ->
  exists ds', recordsLoop fuel values ds
              = Ok (foldl insertRecord values records, ds').
Proof.
  induction records as [|r rs IH]; intros fuel values pre ds Hall Hat Hf.
  - destruct fuel as [|f]; [simpl in Hf; lia|]. exists ds. simpl.
    destruct Hat as (Hb & Hl & Hp). unfold bind, isEof.
    rewrite Hl, Hp, app_nil_r, Z.leb_refl. done.
  - destruct fuel as [|f]; [simpl in Hf; lia|].
    apply Forall_cons in Hall as [Hr Hall].
    do 16 (destruct r as [|? r]; [simpl in Hr; lia|]).
    destruct r; [|simpl in Hr; lia]. clear Hr.
    simpl concat in Hat. simpl recordsLoop.
    assert ((byteLength ds <=? position ds) = false) as Heof.
    { destruct Hat as (Hb & Hl & Hp). rewrite Hl, Hp, len_app.
      apply Z.leb_gt. unfold len. simpl. lia. }
    unfold bind at 1, isEof. rewrite Heof.
    destruct (readUint16_at _ _ _ _ _ Hat) as (ds1 & R1 & Hat1).
    rewrite (bind_eq_Ok _ _ _ _ _ R1).
    destruct (readUint16_at _ _ _ _ _ Hat1) as (ds2 & R2 & Hat2).
    rewrite (bind_eq_Ok _ _ _ _ _ R2).
    destruct (readUint32_at _ _ _ _ _ _ _ Hat2) as (ds3 & R3 & Hat3).
    rewrite (bind_eq_Ok _ _ _ _ _ R3).
    destruct (readUint8s_at [z7; z8; z9; z10; z11; z12; z13; z14] _ _ _ Hat3)
      as (ds4 & R4 & Hat4).
    simpl length in R4. rewrite (bind_eq_Ok _ _ _ _ _ R4).
    destruct (IH f (insertRecord values
                      [z; z0; z1; z2; z3; z4; z5; z6; z7; z8; z9; z10; z11; z12; z13; z14])
                _ _ Hall Hat4) as (ds' & Hrec); [simpl in Hf; lia|].
    exists ds'. simpl foldl. rewrite <- Hrec. reflexivity.
Qed.

Lemma seek_start bytes :
  seek (Int 0) (newDataStream bytes) = Ok (tt, newDataStream bytes).
Proof.
  unfold seek, newDataStream. simpl. do 3 f_equal. unfold len. lia.
Qed.

Lemma readBytes_enough (f : list Z -> Z) (n : nat) pre rest ds :
  readingAt pre rest ds -> (n <= length rest)%nat ->
  exists ds', (let* b := viewBytes (Z.of_nat n) in ret (f b)) ds
              = Ok (f (take n rest), ds')
              /\ readingAt (pre ++ take n rest) (drop n rest) ds'.
Proof.
  intros Hat Hn. rewrite <- (take_drop n rest) in Hat.
  destruct (viewBytes_at _ _ _ _ Hat) as (ds' & Hv & Hat').
  unfold len in Hv. rewrite length_take, Nat.min_l in Hv by done.
  exists ds'. by rewrite (bind_eq_Ok _ _ _ _ _ Hv).
Qed.

Lemma take_drop_take (a b c : nat) (l : list Z) :
  (a + b <= c)%nat -> take a (drop b (take c l)) = take a (drop b l).
Proof.
  intros H. rewrite !take_drop_commute, take_take. do 2 f_equal. lia.
Qed.

Lemma readBytes_short (f : list Z -> Z) (n : nat) pre rest ds :
  readingAt pre rest ds -> (length rest < n)%nat ->
  (let* b := viewBytes (Z.of_nat n) in ret (f b)) ds = Throw RangeError.
Proof.
  intros Hat Hn. apply bind_eq_Throw. eapply viewBytes_short; [done|].
  unfold len. lia.
Qed.

Lemma readRootProperties_headerPart bytes :
  readRootProperties (VBytes bytes)
  = match (let* header := headerPart in
           recordsLoop (S (length bytes)) {[ js "_header" := RHeader header ]})
            (newDataStream bytes) with
    | Ok (values, _) => Ok values
    | Throw e => Throw e
    | OutOfFuel => OutOfFuel
    end.
Proof.
  unfold readRootProperties, headerPart, bind, ret.
  repeat case_match; simplify_eq; done.
Qed.

(** The outcome of the header part, by the reserved bytes. *)
Lemma headerPart_outcome bytes :
  match scanReserved 8 bytes with
  | Throw e => headerPart (newDataStream bytes) = Throw e
  | Ok _ =>
      if decide (length bytes < 24)%nat
      then headerPart (newDataStream bytes) = Throw RangeError
      else
        match scanReserved 8 (drop 24 bytes) with
        | Throw e => headerPart (newDataStream bytes) = Throw e
        | Ok _ =>
            exists ds',
              headerPart (newDataStream bytes)
              = Ok (decodeHeader (take 16 (drop 8 bytes)), ds')
              /\ readingAt (take 32 bytes) (drop 32 bytes) ds'
        | OutOfFuel => False
        end
  | OutOfFuel => False
  end.
Proof.
  unfold headerPart. rewrite (bind_eq_Ok _ _ _ _ _ (seek_start bytes)).
  pose proof (checkReserved_at 8 [] bytes _ (readingAt_start bytes)) as H1.
  destruct (scanReserved 8 bytes) as [[]| |] eqn:S1; [|by apply bind_eq_Throw|done].
  destruct H1 as (ds1 & C1 & Hat1). rewrite (bind_eq_Ok _ _ _ _ _ C1).
  apply scanReserved_Ok in S1 as [L8 Z8].
  destruct (decide (length bytes < 24)%nat) as [Hshort|Hlong].
  - (* the counters are cut short: some read of them fails *)
    unfold readUint32.
    assert (length (drop 8 bytes) < 16)%nat as Hd by (rewrite length_drop; lia).
    revert Hat1 Hd. generalize (take 8 bytes) (drop 8 bytes). intros pre rest Hat1 Hd.
    destruct (decide (length rest < 4)%nat) as [|E1];
      [apply bind_eq_Throw; by apply (readBytes_short le_unsigned 4%nat _ _ _ Hat1)|].
    destruct (readBytes_enough le_unsigned 4%nat _ _ _ Hat1) as (ds2 & R2 & Hat2); [lia|].
    rewrite (bind_eq_Ok _ _ _ _ _ R2).
    destruct (decide (length rest < 8)%nat) as [|E2];
      [apply bind_eq_Throw; apply (readBytes_short le_unsigned 4%nat _ _ _ Hat2);
       rewrite length_drop; lia|].
    destruct (readBytes_enough le_unsigned 4%nat _ _ _ Hat2) as (ds3 & R3 & Hat3);
      [rewrite length_drop; lia|].
    rewrite (bind_eq_Ok _ _ _ _ _ R3).
    destruct (decide (length rest < 12)%nat) as [|E3];
      [apply bind_eq_Throw; apply (readBytes_short le_unsigned 4%nat _ _ _ Hat3);
       rewrite !length_drop; lia|].
    destruct (readBytes_enough le_unsigned 4%nat _ _ _ Hat3) as (ds4 & R4 & Hat4);
      [rewrite !length_drop; lia|].
    rewrite (bind_eq_Ok _ _ _ _ _ R4).
    apply bind_eq_Throw; apply (readBytes_short le_unsigned 4%nat _ _ _ Hat4);
      rewrite !length_drop; lia.
  - unfold readUint32.
    destruct (readBytes_enough le_unsigned 4%nat _ _ _ Hat1) as (ds2 & R2 & Hat2);
      [rewrite length_drop; lia|].
    rewrite (bind_eq_Ok _ _ _ _ _ R2).
    destruct (readBytes_enough le_unsigned 4%nat _ _ _ Hat2) as (ds3 & R3 & Hat3);
      [rewrite !length_drop; lia|].
    rewrite (bind_eq_Ok _ _ _ _ _ R3).
    destruct (readBytes_enough le_unsigned 4%nat _ _ _ Hat3) as (ds4 & R4 & Hat4);
      [rewrite !length_drop; lia|].
    rewrite (bind_eq_Ok _ _ _ _ _ R4).
    destruct (readBytes_enough le_unsigned 4%nat _ _ _ Hat4) as (ds5 & R5 & Hat5);
      [rewrite !length_drop; lia|].
    rewrite (bind_eq_Ok _ _ _ _ _ R5).
    rewrite !drop_drop in *. simpl Nat.add in *.
    pose proof (checkReserved_at 8 _ _ _ Hat5) as H2.
    destruct (scanReserved 8 (drop 24 bytes)) as [[]| |] eqn:S2;
      [|by apply bind_eq_Throw|done].
    destruct H2 as (ds6 & C6 & Hat6). rewrite (bind_eq_Ok _ _ _ _ _ C6).
    exists ds6. split.
    + unfold ret, decodeHeader. do 2 f_equal.
      rewrite take_take, !(take_drop_take 4 _ 16) by lia.
      by rewrite !drop_drop.
    + rewrite drop_drop in Hat6. simpl Nat.add in Hat6.
      rewrite app_nil_l, !take_take_drop in Hat6. exact Hat6.
Qed.

Lemma reserved_nonzero_scan bytes :
  (exists i b, reservedIndex i /\ bytes !! i = Some b /\ b <> 0)
  <-> scanReserved 8 bytes = Throw invalidPropertiesHeader
      \/ scanReserved 8 (drop 24 bytes) = Throw invalidPropertiesHeader.
Proof.
  rewrite !scanReserved_invalid. split.
  - intros (i & b & [Hi | Hi] & Hl & Hb).
    + left. by exists i, b.
    + right. exists (i - 24)%nat, b. split; [lia|]. split; [|done].
      rewrite lookup_drop. by replace (24 + (i - 24))%nat with i by lia.
  - intros [(i & b & Hi & Hl & Hb) | (i & b & Hi & Hl & Hb)].
    + exists i, b. split; [by left | done].
    + rewrite lookup_drop in Hl. exists (24 + i)%nat, b.
      split; [right; lia | done].
Qed.

Lemma concat_records_length (records : list (list Z)) :
  Forall (fun r => length r = 16%nat) records ->
  (length records <= length (concat records))%nat.
Proof.
  induction 1 as [|r rs Hr _ IH]; simpl; [lia|]. rewrite length_app. lia.
Qed.

(** C4.  Decoding the property stream throws the error of an invalid
    header exactly when one of its 16 reserved bytes is not zero, and then
    no record is extracted; with the reserved bytes zero and whole 16-byte
    records after the header, every record is decoded and stored under its
    key, next to the header's counters. *)
Theorem readRootProperties_reserved_bytes
    (bytes counters : list Z) (records : list (list Z)) :
  length counters = 16%nat ->
  Forall (fun r => length r = 16%nat) records ->
  (readRootProperties (VBytes bytes) = Throw invalidPropertiesHeader
   <-> exists i b, reservedIndex i /\ bytes !! i = Some b /\ b <> 0)
  /\ (readRootProperties (VBytes bytes) = Throw invalidPropertiesHeader ->
      forall values, readRootProperties (VBytes bytes) <> Ok values)
  /\ readRootProperties
       (VBytes (repeat 0 8 ++ counters ++ repeat 0 8 ++ concat records))
     = Ok (foldl insertRecord
             {[ js "_header" := RHeader (decodeHeader counters) ]} records)
  /\ readRootProperties (VBytes bytes) <> OutOfFuel.
Proof.
  intros Hc Hrec. split_and!.
  - rewrite reserved_nonzero_scan, readRootProperties_headerPart.
    pose proof (headerPart_outcome bytes) as H.
    destruct (scanReserved_outcome 8 bytes) as [S1|[S1|[S1 L1]]]; rewrite S1 in *.
    + destruct (decide (length bytes < 24)%nat) as [Hshort|Hlong].
      * rewrite (bind_eq_Throw _ _ _ _ H). split; [done|].
        intros [?|(i & b & Hi & Hl & _)%scanReserved_invalid]; [done|].
        rewrite lookup_drop in Hl. apply lookup_lt_Some in Hl. lia.
      * destruct (scanReserved_outcome 8 (drop 24 bytes)) as [S2|[S2|[S2 L2]]];
          rewrite S2 in *.
        -- destruct H as (ds' & H & Hat). rewrite (bind_eq_Ok _ _ _ _ _ H).
           split; [|by intros [?|?]].
           destruct (recordsLoop _ _ ds') as [[v s]| |] eqn:E; [done| |done].
           apply recordsLoop_rangeOnly in E as ->. done.
        -- rewrite (bind_eq_Throw _ _ _ _ H). split; [by right | done].
        -- rewrite (bind_eq_Throw _ _ _ _ H). split; [done | by intros [?|?]].
    + rewrite (bind_eq_Throw _ _ _ _ H). split; [by left | done].
    + rewrite (bind_eq_Throw _ _ _ _ H). split; [done|].
      intros [?|(i & b & Hi & Hl & _)%scanReserved_invalid]; [done|].
      rewrite lookup_drop in Hl. apply lookup_lt_Some in Hl. lia.
  - intros -> values. done.
  - rewrite readRootProperties_headerPart.
    do 16 (destruct counters as [|? counters]; [simpl in Hc; lia|]).
    destruct counters; [|simpl in Hc; lia]. clear Hc.
    set (bytes' := repeat 0 8 ++ _).
    pose proof (headerPart_outcome bytes') as H.
    change (scanReserved 8 bytes') with (Ok (A:=unit) tt) in H.
    destruct (decide (length bytes' < 24)%nat) as [Hshort|_];
      [unfold bytes' in Hshort; simpl in Hshort; lia|].
    change (scanReserved 8 (drop 24 bytes')) with (Ok (A:=unit) tt) in H.
    destruct H as (ds' & H & Hat). rewrite (bind_eq_Ok _ _ _ _ _ H).
    change (drop 32 bytes') with (concat records) in Hat.
    destruct (recordsLoop_records records (S (length bytes'))
                {[ js "_header" :=
                   RHeader (decodeHeader (take 16 (drop 8 bytes'))) ]}
                _ _ Hrec Hat) as (ds2 & ->); [|done].
    pose proof (concat_records_length records Hrec).
    unfold bytes'. simpl. lia.
  - rewrite readRootProperties_headerPart.
    pose proof (headerPart_outcome bytes) as H.
    destruct (scanReserved 8 bytes) as [[]|e|];
      [|by rewrite (bind_eq_Throw _ _ _ _ H)|done].
    destruct (decide (length bytes < 24)%nat);
      [by rewrite (bind_eq_Throw _ _ _ _ H)|].
    destruct (scanReserved 8 (drop 24 bytes)) as [[]|e|];
      [|by rewrite (bind_eq_Throw _ _ _ _ H)|done].
    destruct H as (ds' & H & Hat). rewrite (bind_eq_Ok _ _ _ _ _ H).
    destruct (recordsLoop _ _ ds') as [[v s]| |] eqn:E; [done|done|].
    apply (recordsLoop_total _ _ _ _ _ Hat) in E; [done|].
    rewrite length_drop. lia.
Qed.

End RootProperties.

(** The property stream of the test message has zero reserved bytes and one
    record; a copy with its byte 3 set to 1 is rejected. *)
Lemma readRootProperties_reserved_bytes_witness :
  length (le32 1 ++ le32 1 ++ le32 0 ++ le32 1) = 16%nat
  /\ Forall (fun r => length r = 16%nat)
       [le16 0x0040 ++ le16 0x0039 ++ le32 6 ++ epochPayload]
  /\ ((readRootProperties mapiExcerpt asciiLower (VBytes (<[3%nat := 1]> sampleProperties))
       = Throw invalidPropertiesHeader
       <-> exists i b, reservedIndex i
                       /\ <[3%nat := 1]> sampleProperties !! i = Some b /\ b <> 0)
      /\ (readRootProperties mapiExcerpt asciiLower (VBytes (<[3%nat := 1]> sampleProperties))
          = Throw invalidPropertiesHeader ->
          forall values,
            readRootProperties mapiExcerpt asciiLower
              (VBytes (<[3%nat := 1]> sampleProperties)) <> Ok values)
      /\ readRootProperties mapiExcerpt asciiLower
           (VBytes (repeat 0 8 ++ (le32 1 ++ le32 1 ++ le32 0 ++ le32 1) ++ repeat 0 8
                    ++ concat [le16 0x0040 ++ le16 0x0039 ++ le32 6 ++ epochPayload]))
         = Ok (foldl (insertRecord mapiExcerpt asciiLower)
                 {[ js "_header" :=
                    RHeader (decodeHeader (le32 1 ++ le32 1 ++ le32 0 ++ le32 1)) ]}
                 [le16 0x0040 ++ le16 0x0039 ++ le32 6 ++ epochPayload])
      /\ readRootProperties mapiExcerpt asciiLower
           (VBytes (<[3%nat := 1]> sampleProperties)) <> OutOfFuel).
Proof.
  assert (length (le32 1 ++ le32 1 ++ le32 0 ++ le32 1) = 16%nat) as H1
    by reflexivity.
  assert (Forall (fun r => length r = 16%nat)
            [le16 0x0040 ++ le16 0x0039 ++ le32 6 ++ epochPayload]) as H2
    by (repeat constructor).
  split; [exact H1|]. split; [exact H2|].
  exact (readRootProperties_reserved_bytes mapiExcerpt asciiLower
           (<[3%nat := 1]> sampleProperties) _ _ H1 H2).
Defined.

(** ** Small streams on a chain of mini-sectors *)

Lemma take_repeat (x : Z) k n : take k (repeat x n) = repeat x (min k n).
Proof.
  revert k. induction n as [|n IH]; intros [|k]; simpl; try done.
  by rewrite IH.
Qed.

Lemma filled_length n w : length (filled n w) = n.
Proof.
  unfold filled. rewrite length_take, length_app, repeat_length. lia.
Qed.

Lemma filled_lt n w :
  (length w <= n)%nat ->
  filled n w = map (toSigned 8) w ++ repeat 0 (n - length w).
Proof.
  intros H. unfold filled. rewrite take_app_ge by (rewrite length_map; lia).
  rewrite length_map, take_repeat. do 2 f_equal. lia.
Qed.

Lemma filled_ge n w :
  (n <= length w)%nat -> filled n w = take n (map (toSigned 8) w).
Proof.
  intros H. unfold filled. by rewrite take_app_le by (rewrite length_map; lia).
Qed.

Lemma storeInt8_filled n w v :
  storeInt8 (filled n w) (len w) v = filled n (w ++ [v]).
Proof.
  unfold storeInt8, len. rewrite filled_length.
  destruct (Z.ltb_spec (Z.of_nat (length w)) (Z.of_nat n)) as [Hlt|Hge].
  - rewrite Nat2Z.id, !filled_lt by (rewrite ?length_app; simpl; lia).
    rewrite insert_app_r_alt by (rewrite length_map; lia).
    rewrite length_map, Nat.sub_diag, length_app, map_app, <- app_assoc. simpl.
    replace (n - length w)%nat with (S (n - (length w + 1))) by lia.
    done.
  - rewrite !filled_ge by (rewrite ?length_app; simpl; lia).
    rewrite map_app. rewrite take_app_le by (rewrite length_map; lia). done.
Qed.

Lemma storeAll_filled n d : forall w,
  storeAll (filled n w) (len w) d = (filled n (w ++ d), len (w ++ d)).
Proof.
  induction d as [|v d IH]; intros w; simpl.
  - by rewrite app_nil_r.
  - rewrite storeInt8_filled.
    replace (len w + 1) with (len (w ++ [v])) by (rewrite len_app; done).
    rewrite IH. by rewrite <- app_assoc.
Qed.

Lemma chainLoop_blocks m n chain : forall w ds,
  chainLoop m chain (filled n w) (len w) ds
  = match readBlocks m chain ds with
    | Ok (blocks, ds') => Ok (filled n (w ++ concat blocks), ds')
    | Throw e => Throw e
    | OutOfFuel => OutOfFuel
    end.
Proof.
  induction chain as [|c chain IH]; intros w ds; cbn [chainLoop readBlocks].
  - unfold ret. by rewrite app_nil_r.
  - unfold bind at 1 2.
    destruct (readDataByBlockSmall m c SMALL_BLOCK_SIZE TBinary ds) as [[v ds1]| |];
      [|done..].
    destruct v; try done.
    rewrite storeAll_filled, IH. unfold bind.
    destruct (readBlocks m chain ds1) as [[blocks ds2]| |]; [|done..].
    unfold ret. cbn [concat]. by rewrite <- app_assoc.
Qed.

Lemma wrap8_byte b : isByte b -> wrap8 b = b.
Proof.
  unfold isByte, wrap8, toSigned. intros H.
  change (2 ^ 8) with 256. change (2 ^ (8 - 1)) with 128.
  rewrite (Z.mod_small b 256) by lia.
  destruct (Z.ltb_spec b 128).
  - apply Z.mod_small. lia.
  - replace (b - 256) with (b + (-1) * 256) by lia.
    rewrite Z.mod_add by lia. apply Z.mod_small. lia.
Qed.

Lemma map_take {A B} (f : A -> B) n : forall l, map f (take n l) = take n (map f l).
Proof. induction n as [|n IH]; intros [|x l]; simpl; try done. by rewrite IH. Qed.

Lemma map_repeat_zero n : map (fun v : Z => v mod 256) (repeat 0 n) = repeat 0 n.
Proof. induction n as [|n IH]; simpl; [done|]. by rewrite IH. Qed.

Lemma int8Bytes_filled n w :
  int8Bytes (filled n w) = sizedBuffer (Z.of_nat n) w.
Proof.
  unfold int8Bytes, filled, sizedBuffer. rewrite Nat2Z.id.
  rewrite map_take, map_app, map_map, map_repeat_zero. done.
Qed.

Lemma sizedBuffer_length n bytes : 0 <= n -> len (sizedBuffer n bytes) = n.
Proof.
  intros H. unfold sizedBuffer, len.
  rewrite length_take, length_app, repeat_length. lia.
Qed.

Lemma sizedBuffer_bytes n bytes :
  Forall isByte bytes ->
  sizedBuffer n bytes = take (Z.to_nat n) (bytes ++ repeat 0 (Z.to_nat n)).
Proof.
  intros H. unfold sizedBuffer. do 2 f_equal.
  induction H as [|b bs Hb _ IH]; simpl; [done|]. by rewrite IH, wrap8_byte.
Qed.

Lemma filled_nil n : filled n [] = repeat 0 n.
Proof. unfold filled. simpl. rewrite take_repeat. f_equal. lia. Qed.

(** A binary read of [n] bytes yields [n] bytes. *)
Lemma sbatDataType_binary_length a b n ds v ds' :
  0 <= n ->
  sbatDataType TBinary a b n ds = Ok (v, ds') ->
  exists d, v = VBytes d /\ len d = n.
Proof.
  intros Hn H. unfold sbatDataType in H.
  apply bind_Ok in H as ([] & s1 & Hs & H).
  apply bind_Ok in H as (d & s2 & Hr & H). apply ret_Ok in H as [-> ->].
  exists d. split; [done|].
  assert (0 <= position s1) as Hp.
  { unfold seek in Hs. injection Hs as <-. simpl. repeat case_match; lia. }
  unfold readUint8Array, copyBytes in Hr.
  apply bind_Ok in Hr as ([] & s3 & Ht & Hr).
  assert (position s3 = position s1) as Hp3.
  { unfold trimAlloc in Ht. destruct (byteLength s1 =? len (buffer s1)); by simplify_eq. }
  destruct ((n <? 0) || (len (buffer s3) <? position s3 + n)) eqn:G; [done|].
  apply orb_false_iff in G as [_ G%Z.ltb_ge].
  injection Hr as <- _. unfold slice, len in *.
  rewrite length_take, length_drop. lia.
Qed.

Lemma readBlocks_lengths m chain : forall ds blocks ds',
  readBlocks m chain ds = Ok (blocks, ds') ->
  Forall (fun b => length b = 64%nat) blocks.
Proof.
  induction chain as [|c chain IH]; intros ds blocks ds' H; cbn [readBlocks] in H.
  - apply ret_Ok in H as [-> _]. constructor.
  - apply bind_Ok in H as (v & s1 & Hv & H).
    unfold readDataByBlockSmall in Hv.
    destruct (entryAt (propertyData m) 0) as [rootProp|]; [|done].
    apply bind_Ok in Hv as (nb & s0 & _ & Hv).
    apply sbatDataType_binary_length in Hv as (d & -> & Hd); [|done].
    apply bind_Ok in H as (r & s2 & Hr & H). apply ret_Ok in H as [-> ->].
    constructor; [|by eapply IH].
    unfold len, SMALL_BLOCK_SIZE in Hd. lia.
Qed.

Lemma binary_on_local buf n ds :
  len buf = n ->
  onLocal (newDataStream buf) (sbatDataType TBinary (Int 0) (Int 0) n) ds
  = Ok (VBytes buf, ds).
Proof.
  intros Hn. unfold onLocal, sbatDataType.
  change (Int (0 + 0)) with (Int 0). rewrite (bind_eq_Ok _ _ _ _ _ (seek_start buf)).
  unfold readUint8Array, copyBytes, bind, trimAlloc, newDataStream. simpl.
  rewrite Z.eqb_refl. simpl.
  assert (0 <= n) as H0 by (unfold len in Hn; lia).
  destruct (Z.ltb_spec n 0); [lia|]. rewrite Hn. simpl.
  destruct (Z.ltb_spec n (0 + n)); [lia|]. unfold ret, slice. simpl.
  change (Z.to_nat 0) with 0%nat. rewrite drop_0.
  rewrite take_ge; [done|]. unfold len in Hn. lia.
Qed.

(** C10.  A small stream on a chain of more than one mini-sector is
    decoded from a buffer of exactly its declared size: the blocks of the
    chain in order, cut at the declared size (zero bytes beyond them when
    they are fewer).  What the last block holds beyond that size is not in
    the value. *)
Theorem small_chain_value_sized
    (fuel : nat) (m : msgData) (fp : property) (t : dtype)
    (ds ds1 ds2 : DataStream) (chain : list num) (blocks : list (list Z)) :
  sizeBlock fp < BIG_BLOCK_MIN_DOC_SIZE ->
  0 <= sizeBlock fp ->
  getChainByBlockSmall fuel m fp ds = Ok (chain, ds1) ->
  1 < len chain ->
  readBlocks m chain ds1 = Ok (blocks, ds2) ->
  let buf := sizedBuffer (sizeBlock fp) (concat blocks) in
  len buf = sizeBlock fp
  /\ Forall (fun b => length b = 64%nat) blocks
  /\ getFieldValue fuel m fp (Some t) ds
     = onLocal (newDataStream buf)
         (sbatDataType t (Int 0) (Int 0) (sizeBlock fp)) ds2
  /\ getFieldValue fuel m fp (Some TBinary) ds = Ok (VBytes buf, ds2)
  /\ (Forall isByte (concat blocks) ->
      buf = take (Z.to_nat (sizeBlock fp))
              (concat blocks ++ repeat 0 (Z.to_nat (sizeBlock fp)))).
Proof.
  intros Hsmall Hpos Hchain Hlen Hblocks buf.
  assert (len buf = sizeBlock fp) as Hbuf by by apply sizedBuffer_length.
  assert (forall t', getFieldValue fuel m fp (Some t') ds
                     = onLocal (newDataStream buf)
                         (sbatDataType t' (Int 0) (Int 0) (sizeBlock fp)) ds2) as Hval.
  { intros t'. unfold getFieldValue, valueExtractor.
    destruct (Z.ltb_spec (sizeBlock fp) BIG_BLOCK_MIN_DOC_SIZE); [|lia].
    unfold extractor, extractDataViaSbat.
    rewrite (bind_eq_Ok _ _ _ _ _ Hchain).
    destruct (Z.eqb_spec (len chain) 1); [lia|].
    destruct (Z.ltb_spec 1 (len chain)); [|lia].
    unfold readChainDataByBlockSmall.
    destruct (Z.ltb_spec (sizeBlock fp) 0); [lia|].
    rewrite <- filled_nil. change 0 with (len (@nil Z)) at 1.
    unfold bind at 1. rewrite chainLoop_blocks, Hblocks.
    rewrite int8Bytes_filled, Z2Nat.id by done. done. }
  split_and!.
  - done.
  - by eapply readBlocks_lengths.
  - apply Hval.
  - rewrite Hval. by apply binary_on_local.
  - by apply sizedBuffer_bytes.
Qed.

(** The data of the attachment of the test message: 100 bytes on the
    mini-sectors 3 and 4; the 28 bytes that follow them in the second
    mini-sector are not in the value. *)
Lemma small_chain_value_sized_witness :
  sizeBlock (msgEntry 5) = 100
  /\ dataChainWalk (newDataStream msgFile)
     = Ok ([Int 3; Int 4], streamAfter dataChainWalk msgFile)
  /\ readBlocks msgTables [Int 3; Int 4] (streamAfter dataChainWalk msgFile)
     = Ok ([repeat 0xAA 64; repeat 0xBB 36 ++ repeat 0xCC 28],
           streamAfter (readBlocks msgTables [Int 3; Int 4]) msgFile)
  /\ getFieldValue 16 msgTables (msgEntry 5) (Some TBinary) (newDataStream msgFile)
     = Ok (VBytes (sizedBuffer 100
                     (concat [repeat 0xAA 64; repeat 0xBB 36 ++ repeat 0xCC 28])),
           streamAfter (readBlocks msgTables [Int 3; Int 4]) msgFile)
  /\ sizedBuffer 100 (concat [repeat 0xAA 64; repeat 0xBB 36 ++ repeat 0xCC 28])
     = repeat 0xAA 64 ++ repeat 0xBB 36.
Proof.
  assert (sizeBlock (msgEntry 5) = 100) as H0 by (vm_compute; reflexivity).
  assert (dataChainWalk (newDataStream msgFile)
          = Ok ([Int 3; Int 4], streamAfter dataChainWalk msgFile)) as H1
    by (vm_compute; reflexivity).
  assert (readBlocks msgTables [Int 3; Int 4] (streamAfter dataChainWalk msgFile)
          = Ok ([repeat 0xAA 64; repeat 0xBB 36 ++ repeat 0xCC 28],
                streamAfter (readBlocks msgTables [Int 3; Int 4]) msgFile)) as H2
    by (vm_compute; reflexivity).
  assert (sizeBlock (msgEntry 5) < BIG_BLOCK_MIN_DOC_SIZE) as Hs
    by (vm_compute; reflexivity).
  assert (0 <= sizeBlock (msgEntry 5)) as Hp by (vm_compute; discriminate).
  assert (1 < len [Int 3; Int 4]) as Hl by (vm_compute; reflexivity).
  destruct (small_chain_value_sized 16 msgTables (msgEntry 5) TBinary
              (newDataStream msgFile) (streamAfter dataChainWalk msgFile)
              (streamAfter (readBlocks msgTables [Int 3; Int 4]) msgFile)
              [Int 3; Int 4]
              [repeat 0xAA 64; repeat 0xBB 36 ++ repeat 0xCC 28]
              Hs Hp H1 Hl H2) as (_ & _ & _ & W & _).
  split; [exact H0|]. split; [exact H1|]. split; [exact H2|].
  split; [rewrite H0 in W; exact W | vm_compute; reflexivity].
Defined.

(** ** Field extractor: the bags *)

Lemma getField_bag fields key s b :
  st_heap s !! fields = Some (OBag b) ->
  getField fields key s = Ok (b !! key, s).
Proof. intros H. unfold getField. by rewrite H. Qed.

Lemma setField_bag fields key v s b :
  st_heap s !! fields = Some (OBag b) ->
  setField fields key v s
  = Ok (tt, mkState (st_ds s) (<[fields := OBag (<[key := v]> b)]> (st_heap s))).
Proof. intros H. unfold setField. by rewrite H. Qed.

Lemma setField_Ok fields key v s u s' :
  setField fields key v s = Ok (u, s') ->
  exists b, st_heap s !! fields = Some (OBag b)
    /\ s' = mkState (st_ds s) (<[fields := OBag (<[key := v]> b)]> (st_heap s)).
Proof.
  unfold setField. destruct (st_heap s !! fields) as [[b|]|]; [|done..].
  intros [= _ <-]. eauto.
Qed.

Lemma liftDS_Ok {A} (c : M DataStream A) s a s' :
  liftDS c s = Ok (a, s') ->
  exists ds', c (st_ds s) = Ok (a, ds') /\ s' = mkState ds' (st_heap s).
Proof.
  unfold liftDS. destruct (c (st_ds s)) as [[x ds']| |]; [|done..].
  intros [= -> <-]. eauto.
Qed.

Lemma liftDS_eq_Ok {A} (c : M DataStream A) s a ds' :
  c (st_ds s) = Ok (a, ds') -> liftDS c s = Ok (a, mkState ds' (st_heap s)).
Proof. intros H. unfold liftDS. by rewrite H. Qed.

Lemma insert_bag_lookup (heap : list obj) fields b b' :
  heap !! fields = Some (OBag b) ->
  <[fields := OBag b']> heap !! fields = Some (OBag b').
Proof. intros H. apply list_lookup_insert_eq. by eapply lookup_lt_Some. Qed.

Lemma bind_assoc {S A B C} (c : M S A) (k1 : A -> M S B) (k2 : B -> M S C) s :
  bind (bind c k1) k2 s = bind c (fun a => bind (k1 a) k2) s.
Proof. unfold bind. by destruct (c s) as [[a s1]| |]. Qed.

Section Bags.
Variable MAPI_PROPERTIES : list Z -> option (list Z).
Variable toLowerCase : list Z -> list Z.
Variable utf8Decode : list Z -> list Z.

Local Abbreviation canonicalName := (canonicalName MAPI_PROPERTIES toLowerCase).
Local Abbreviation mappedType := (mappedType toLowerCase).
Local Abbreviation fieldClassOf := (fieldClassOf toLowerCase).
Local Abbreviation fieldsDataDocument :=
  (fieldsDataDocument MAPI_PROPERTIES toLowerCase utf8Decode).
Local Abbreviation fieldsDataDir :=
  (fieldsDataDir MAPI_PROPERTIES toLowerCase utf8Decode).
Local Abbreviation fieldsDataDirInner :=
  (fieldsDataDirInner MAPI_PROPERTIES toLowerCase utf8Decode).
Local Abbreviation applyValueConverter := (applyValueConverter utf8Decode).

(** The suffix loop stops at the first key that holds no truthy value. *)
Lemma suffixLoop_first_free fields fieldName b (n : nat) :
  forall (j : Z) (fuel : nat) s,
    st_heap s !! fields = Some (OBag b) ->
    1 <= j ->
    (forall i, j <= i < j + Z.of_nat n -> truthy (b !! keyOf fieldName i) = true) ->
    truthy (b !! keyOf fieldName (j + Z.of_nat n)) = false ->
    (n < fuel)%nat ->
    suffixLoop fuel fields fieldName (suffixOf j) j s
    = Ok (suffixOf (j + Z.of_nat n), s).
Proof.
  induction n as [|n IH]; intros j fuel s Hb Hj Htrue Hfree Hf;
    (destruct fuel as [|f]; [lia|]); cbn [suffixLoop].
  - rewrite (bind_eq_Ok _ _ _ _ _ (getField_bag _ _ _ _ Hb)).
    fold (keyOf fieldName j). change (Z.of_nat 0) with 0 in *.
    rewrite Z.add_0_r in *. by rewrite Hfree.
  - rewrite (bind_eq_Ok _ _ _ _ _ (getField_bag _ _ _ _ Hb)).
    fold (keyOf fieldName j). rewrite Htrue by lia.
    assert (js "-" ++ toStringRadix 10 (j + 1) = suffixOf (j + 1)) as ->.
    { unfold suffixOf. destruct (Z.eqb_spec (j + 1) 1); [lia | done]. }
    rewrite (IH (j + 1) f s Hb); [|lia| | |lia].
    + do 3 f_equal. lia.
    + intros i Hi. apply Htrue. lia.
    + by replace (j + 1 + Z.of_nat n) with (j + Z.of_nat (S n)) by lia.
Qed.

(** One stream: it is stored under the first key of its name that holds no
    truthy value, and no other field changes but the two attachment
    fields. *)
Lemma fieldsDataDocument_first_free
    (fuel : nat) (m : msgData) (doc : property) (fields : loc) (s : state)
    (b : gmap (list Z) value) (k : Z) (v w : value) (ds' : DataStream) :
  st_heap s !! fields = Some (OBag b) ->
  1 <= k -> (Z.to_nat k <= fuel)%nat ->
  (forall i, 1 <= i < k -> truthy (b !! keyOf (canonicalName doc) i) = true) ->
  truthy (b !! keyOf (canonicalName doc) k) = false ->
  keyOf (canonicalName doc) k <> [] ->
  getFieldValue fuel m doc (Some (default TBinary (mappedType doc))) (st_ds s)
  = Ok (v, ds') ->
  isAddPropertyValue (keyOf (canonicalName doc) k) (mappedType doc) = true ->
  applyValueConverter (keyOf (canonicalName doc) k) (mappedType doc) v = Ok w ->
  exists b',
    fieldsDataDocument fuel m doc fields s
    = Ok (tt, mkState ds' (<[fields := OBag b']> (st_heap s)))
    /\ (forall key, key <> keyOf (canonicalName doc) k ->
          key <> js "dataId" -> key <> js "contentLength" ->
          b' !! key = b !! key)
    /\ (keyOf (canonicalName doc) k <> js "dataId" ->
        keyOf (canonicalName doc) k <> js "contentLength" ->
        b' !! keyOf (canonicalName doc) k = Some w).
Proof.
  intros Hb Hk Hfuel Htrue Hfree Hne Hval Hadd Hconv.
  unfold fieldsDataDocument.
  fold (fieldClassOf doc). fold (fieldTypeOf toLowerCase doc).
  fold (canonicalName doc). fold (mappedType doc).
  change [] with (suffixOf 1) at 1.
  rewrite (bind_eq_Ok _ _ _ _ _
             (suffixLoop_first_free fields (canonicalName doc) b (Z.to_nat (k - 1))
                1 fuel s Hb ltac:(lia) ltac:(intros i Hi; apply Htrue; lia)
                ltac:(by replace (1 + Z.of_nat (Z.to_nat (k - 1))) with k by lia)
                ltac:(lia))).
  replace (1 + Z.of_nat (Z.to_nat (k - 1))) with k by lia.
  fold (keyOf (canonicalName doc) k).
  set (key := keyOf (canonicalName doc) k) in *.
  destruct (bool_decide_reflect (key = [])) as [|_]; [done|].
  rewrite bind_assoc.
  rewrite (bind_eq_Ok _ _ _ _ _ (liftDS_eq_Ok _ _ _ _ Hval)). rewrite Hadd.
  rewrite bind_assoc. rewrite Hconv.
  set (s1 := mkState ds' (st_heap s)).
  rewrite (bind_eq_Ok (liftR (Ok w)) _ s1 w s1 eq_refl).
  assert (st_heap s1 !! fields = Some (OBag b)) as Hb1 by done.
  rewrite (bind_eq_Ok _ _ _ _ _ (setField_bag _ _ _ _ _ Hb1)).
  cbn [st_ds st_heap s1].
  destruct (bool_decide (fieldClassOf doc = ATTACHMENT_DATA)).
  - set (s2 := mkState ds' _).
    assert (st_heap s2 !! fields = Some (OBag (<[key := w]> b))) as Hb2
      by by eapply insert_bag_lookup.
    rewrite (bind_eq_Ok _ _ _ _ _ (setField_bag _ _ _ _ _ Hb2)).
    cbn [st_ds st_heap s2].
    set (s3 := mkState ds' _).
    assert (st_heap s3 !! fields
            = Some (OBag (<[js "dataId" := VNumber (index_ doc)]> (<[key := w]> b)))) as Hb3.
    { eapply insert_bag_lookup. exact Hb2. }
    rewrite (setField_bag _ _ _ _ _ Hb3). cbn [st_ds st_heap s3 s2].
    rewrite !list_insert_insert_eq.
    eexists. split; [reflexivity|]. split.
    + intros key' H1 H2 H3. by rewrite !lookup_insert_ne.
    + intros H1 H2. rewrite !lookup_insert_ne by done. apply lookup_insert_eq.
  - unfold ret. eexists. split; [reflexivity|]. split.
    + intros key' H1 H2 H3. by rewrite lookup_insert_ne.
    + intros _ _. apply lookup_insert_eq.
Qed.

Lemma key2_not (fieldName X : list Z) :
  (forall r, rev X <> 50 :: r) -> fieldName ++ js "-2" <> X.
Proof.
  intros H E. apply (H (45 :: rev fieldName)). rewrite <- E.
  rewrite rev_app_distr. done.
Qed.

Lemma key2_not_name (fieldName : list Z) : fieldName <> fieldName ++ js "-2".
Proof.
  intros E. apply (f_equal length) in E. rewrite length_app in E. simpl in E. lia.
Qed.

(** X21.  Two streams with the same canonical name, handled one after
    the other, the first not withheld and stored as a truthy value, into a
    bag that has neither key: the first value is stored under the name and
    the second under the name with the suffix [-2]; the keys differ and no
    other field changes, the two attachment fields apart. *)
Theorem same_name_streams_both_stored
    (fuel : nat) (m : msgData) (doc1 doc2 : property) (fields : loc) (s : state)
    (b : gmap (list Z) value) (fieldName : list Z) (v1 w1 v2 : value)
    (ds1 ds2 : DataStream) :
  (2 <= fuel)%nat ->
  st_heap s !! fields = Some (OBag b) ->
  canonicalName doc1 = fieldName -> canonicalName doc2 = fieldName ->
  fieldName <> [] -> fieldName <> js "dataId" -> fieldName <> js "contentLength" ->
  b !! fieldName = None -> b !! (fieldName ++ js "-2") = None ->
  getFieldValue fuel m doc1 (Some (default TBinary (mappedType doc1))) (st_ds s)
  = Ok (v1, ds1) ->
  isAddPropertyValue fieldName (mappedType doc1) = true ->
  applyValueConverter fieldName (mappedType doc1) v1 = Ok w1 ->
  truthy (Some w1) = true ->
  getFieldValue fuel m doc2 (Some (default TBinary (mappedType doc2))) ds1
  = Ok (v2, ds2) ->
  exists s1 s2 b2,
    fieldsDataDocument fuel m doc1 fields s = Ok (tt, s1)
    /\ fieldsDataDocument fuel m doc2 fields s1 = Ok (tt, s2)
    /\ st_heap s2 !! fields = Some (OBag b2)
    /\ b2 !! fieldName = Some w1
    /\ b2 !! (fieldName ++ js "-2") = Some v2
    /\ fieldName <> fieldName ++ js "-2"
    /\ (forall key, key <> fieldName -> key <> fieldName ++ js "-2" ->
          key <> js "dataId" -> key <> js "contentLength" ->
          b2 !! key = b !! key).
Proof.
  intros Hfuel Hb Hn1 Hn2 Hne Hid Hcl Hfree1 Hfree2 Hv1 Hadd1 Hconv1 Htruthy Hv2.
  assert (keyOf fieldName 1 = fieldName) as K1 by apply app_nil_r.
  assert (keyOf fieldName 2 = fieldName ++ js "-2") as K2 by reflexivity.
  pose proof (key2_not_name fieldName) as Hk.
  assert (fieldName ++ js "-2" <> js "dataId") as Hid2
    by (apply key2_not; intros r; vm_compute; discriminate).
  assert (fieldName ++ js "-2" <> js "contentLength") as Hcl2
    by (apply key2_not; intros r; vm_compute; discriminate).
  assert (fieldName ++ js "-2" <> js "Body") as Hbody
    by (apply key2_not; intros r; vm_compute; discriminate).
  assert (fieldName ++ js "-2" <> js "BodyHtml") as Hhtml
    by (apply key2_not; intros r; vm_compute; discriminate).
  (* the first stream *)
  destruct (fieldsDataDocument_first_free fuel m doc1 fields s b 1 v1 w1 ds1)
    as (b1 & R1 & F1 & S1); rewrite ?Hn1, ?K1; try done; try lia.
  { by rewrite Hfree1. }
  rewrite Hn1, K1 in F1, S1. specialize (S1 Hid Hcl).
  set (s1 := mkState ds1 (<[fields := OBag b1]> (st_heap s))) in *.
  assert (st_heap s1 !! fields = Some (OBag b1)) as Hb1
    by by eapply insert_bag_lookup.
  (* the second stream *)
  destruct (fieldsDataDocument_first_free fuel m doc2 fields s1 b1 2 v2 v2 ds2)
    as (b2 & R2 & F2 & S2); rewrite ?Hn2, ?K2; try done; try lia.
  { intros i Hi. assert (i = 1) as -> by lia. by rewrite K1, S1. }
  { rewrite F1 by done. by rewrite Hfree2. }
  { by destruct fieldName. }
  { unfold isAddPropertyValue. by destruct (bool_decide_reflect (fieldName ++ js "-2" = js "Body")). }
  { unfold applyValueConverter.
    destruct (bool_decide_reflect (fieldName ++ js "-2" = js "BodyHtml")); [done|].
    by rewrite andb_false_r. }
  rewrite Hn2, K2 in F2, S2. specialize (S2 Hid2 Hcl2).
  exists s1, (mkState ds2 (<[fields := OBag b2]> (st_heap s1))), b2.
  split_and!; try done.
  - by eapply insert_bag_lookup.
  - rewrite F2 by done. exact S1.
  - intros key H1 H2 H3 H4. rewrite F2 by done. by apply F1.
Qed.

(** The loop [while (fields[fieldName + suffix])] looks for a key without
    a truthy value, not for a key that is absent: a first value that is
    stored but falsy (the empty string, [null]) does not keep its key.  The
    second stream of the same name is stored under the name itself, in the
    place of the first value, and nothing is stored under the name with the
    suffix [-2]. *)
Lemma falsy_first_value_overwritten
    (fuel : nat) (m : msgData) (doc1 doc2 : property) (fields : loc) (s : state)
    (b : gmap (list Z) value) (fieldName : list Z) (v1 w1 v2 w2 : value)
    (ds1 ds2 : DataStream) :
  (1 <= fuel)%nat ->
  st_heap s !! fields = Some (OBag b) ->
  canonicalName doc1 = fieldName -> canonicalName doc2 = fieldName ->
  fieldName <> [] -> fieldName <> js "dataId" -> fieldName <> js "contentLength" ->
  b !! fieldName = None ->
  getFieldValue fuel m doc1 (Some (default TBinary (mappedType doc1))) (st_ds s)
  = Ok (v1, ds1) ->
  isAddPropertyValue fieldName (mappedType doc1) = true ->
  applyValueConverter fieldName (mappedType doc1) v1 = Ok w1 ->
  truthy (Some w1) = false ->
  getFieldValue fuel m doc2 (Some (default TBinary (mappedType doc2))) ds1
  = Ok (v2, ds2) ->
  isAddPropertyValue fieldName (mappedType doc2) = true ->
  applyValueConverter fieldName (mappedType doc2) v2 = Ok w2 ->
  exists s1 s2 b1 b2,
    fieldsDataDocument fuel m doc1 fields s = Ok (tt, s1)
    /\ st_heap s1 !! fields = Some (OBag b1)
    /\ b1 !! fieldName = Some w1
    /\ fieldsDataDocument fuel m doc2 fields s1 = Ok (tt, s2)
    /\ st_heap s2 !! fields = Some (OBag b2)
    /\ b2 !! fieldName = Some w2
    /\ b2 !! (fieldName ++ js "-2") = b !! (fieldName ++ js "-2").
Proof.
  intros Hfuel Hb Hn1 Hn2 Hne Hid Hcl Hfree Hv1 Hadd1 Hconv1 Hfalsy Hv2 Hadd2 Hconv2.
  assert (keyOf fieldName 1 = fieldName) as K1 by apply app_nil_r.
  pose proof (key2_not_name fieldName) as Hk.
  assert (fieldName ++ js "-2" <> js "dataId") as Hid2
    by (apply key2_not; intros r; vm_compute; discriminate).
  assert (fieldName ++ js "-2" <> js "contentLength") as Hcl2
    by (apply key2_not; intros r; vm_compute; discriminate).
  destruct (fieldsDataDocument_first_free fuel m doc1 fields s b 1 v1 w1 ds1)
    as (b1 & R1 & F1 & S1); rewrite ?Hn1, ?K1; try done; try lia.
  { by rewrite Hfree. }
  rewrite Hn1, K1 in F1, S1. specialize (S1 Hid Hcl).
  set (s1 := mkState ds1 (<[fields := OBag b1]> (st_heap s))) in *.
  assert (st_heap s1 !! fields = Some (OBag b1)) as Hb1
    by by eapply insert_bag_lookup.
  destruct (fieldsDataDocument_first_free fuel m doc2 fields s1 b1 1 v2 w2 ds2)
    as (b2 & R2 & F2 & S2); rewrite ?Hn2, ?K1; try done; try lia.
  { by rewrite S1. }
  rewrite Hn2, K1 in F2, S2. specialize (S2 Hid Hcl).
  exists s1, (mkState ds2 (<[fields := OBag b2]> (st_heap s1))), b1, b2.
  split_and!; try done.
  - by eapply insert_bag_lookup.
  - rewrite F2 by done. by apply F1.
Qed.

End Bags.

(** A stream is withheld when its key is [Body] and its storage type
    binary: of the two [Body] streams of [bodyFile], which decode to the
    bytes of [abc] and of [xyz], the first is withheld and so is the
    second, whose key is [Body] again as the bag has none; the bag of the
    parsed file holds neither. *)
Lemma body_streams_withheld :
  canonicalName mapiExcerpt asciiLower (bodyEntry 1) = js "Body"
  /\ canonicalName mapiExcerpt asciiLower (bodyEntry 2) = js "Body"
  /\ childList (bodyEntry 0) = [1; 2]
  /\ valueOn (getFieldValue 16 bodyTables (bodyEntry 1) (Some TBinary)) bodyFile
     = Ok (VBytes (js "abc"))
  /\ valueOn (getFieldValue 16 bodyTables (bodyEntry 2) (Some TBinary)) bodyFile
     = Ok (VBytes (js "xyz"))
  /\ exists b, parsedFields bodyFile = Some b
               /\ b !! js "Body" = None /\ b !! js "Body-2" = None.
Proof.
  split_and!; try (vm_compute; reflexivity).
  exists (default ∅ (parsedFields bodyFile)).
  split_and!; vm_compute; reflexivity.
Qed.

(** C6 (the code departs from the specification).  The file
    [emptyFirstFile] has two [Subject] streams of string type under the
    root, neither of them withheld; the first decodes to the empty string
    and the second to [xyz].  The bag of the parsed file holds the second
    value under [Subject] and nothing under [Subject-2]: the first value
    has been overwritten.  So it is for any two streams of one name whose
    first value is stored as a falsy value. *)
Theorem empty_first_stream_overwritten :
  canonicalName mapiExcerpt asciiLower (emptyFirstEntry 1) = js "Subject"
  /\ canonicalName mapiExcerpt asciiLower (emptyFirstEntry 2) = js "Subject"
  /\ childList (emptyFirstEntry 0) = [1; 2]
  /\ mappedType asciiLower (emptyFirstEntry 1) = Some TString
  /\ mappedType asciiLower (emptyFirstEntry 2) = Some TString
  /\ isAddPropertyValue (js "Subject") (Some TString) = true
  /\ valueOn (getFieldValue 16 emptyFirstTables (emptyFirstEntry 1) (Some TString))
       emptyFirstFile
     = Ok (VString [])
  /\ valueOn (getFieldValue 16 emptyFirstTables (emptyFirstEntry 2) (Some TString))
       emptyFirstFile
     = Ok (VString (js "xyz"))
  /\ (exists b, parsedFields emptyFirstFile = Some b
                /\ b !! js "Subject" = Some (VString (js "xyz"))
                /\ b !! js "Subject-2" = None
                /\ forall key, b !! key <> Some (VString []))
  /\ (forall (fuel : nat) (m : msgData) (doc1 doc2 : property) (fields : loc)
        (s : state) (b : gmap (list Z) value) (fieldName : list Z)
        (v1 w1 v2 w2 : value) (ds1 ds2 : DataStream),
        (1 <= fuel)%nat ->
        st_heap s !! fields = Some (OBag b) ->
        canonicalName mapiExcerpt asciiLower doc1 = fieldName ->
        canonicalName mapiExcerpt asciiLower doc2 = fieldName ->
        fieldName <> [] -> fieldName <> js "dataId" ->
        fieldName <> js "contentLength" ->
        b !! fieldName = None ->
        getFieldValue fuel m doc1
          (Some (default TBinary (mappedType asciiLower doc1))) (st_ds s)
        = Ok (v1, ds1) ->
        isAddPropertyValue fieldName (mappedType asciiLower doc1) = true ->
        applyValueConverter (fun x => x) fieldName (mappedType asciiLower doc1) v1
        = Ok w1 ->
        truthy (Some w1) = false ->
        getFieldValue fuel m doc2
          (Some (default TBinary (mappedType asciiLower doc2))) ds1
        = Ok (v2, ds2) ->
        isAddPropertyValue fieldName (mappedType asciiLower doc2) = true ->
        applyValueConverter (fun x => x) fieldName (mappedType asciiLower doc2) v2
        = Ok w2 ->
        exists s1 s2 b1 b2,
          fieldsDataDocument mapiExcerpt asciiLower (fun x => x) fuel m doc1 fields s
          = Ok (tt, s1)
          /\ st_heap s1 !! fields = Some (OBag b1)
          /\ b1 !! fieldName = Some w1
          /\ fieldsDataDocument mapiExcerpt asciiLower (fun x => x) fuel m doc2
               fields s1
             = Ok (tt, s2)
          /\ st_heap s2 !! fields = Some (OBag b2)
          /\ b2 !! fieldName = Some w2
          /\ b2 !! (fieldName ++ js "-2") = b !! (fieldName ++ js "-2")).
Proof.
  split_and!; [vm_compute; reflexivity .. | | ].
  - exists (default ∅ (parsedFields emptyFirstFile)).
    split_and!; [vm_compute; reflexivity .. | ].
    intros key.
    assert (default ∅ (parsedFields emptyFirstFile)
            = <[js "Subject" := VString (js "xyz")]>
                (<[js "attachments" := VRef 0%nat]>
                   (<[js "recipients" := VRef 1%nat]> ∅))) as ->
      by (vm_compute; reflexivity).
    intros H. repeat (apply lookup_insert_Some in H as [[_ H]|[_ H]]; [done|]).
    by rewrite lookup_empty in H.
  - intros. by eapply falsy_first_value_overwritten.
Qed.

(** The two streams of [emptyFirstFile], stored one after the other into
    an empty bag. *)
Lemma empty_first_stream_overwritten_witness :
  exists s1 s2 b1 b2,
    fieldsDataDocument mapiExcerpt asciiLower (fun x => x) 16 emptyFirstTables
      (emptyFirstEntry 1) 0%nat (mkState (newDataStream emptyFirstFile) [OBag ∅])
    = Ok (tt, s1)
    /\ st_heap s1 !! 0%nat = Some (OBag b1)
    /\ b1 !! js "Subject" = Some (VString [])
    /\ fieldsDataDocument mapiExcerpt asciiLower (fun x => x) 16 emptyFirstTables
         (emptyFirstEntry 2) 0%nat s1
       = Ok (tt, s2)
    /\ st_heap s2 !! 0%nat = Some (OBag b2)
    /\ b2 !! js "Subject" = Some (VString (js "xyz"))
    /\ b2 !! (js "Subject" ++ js "-2")
       = (∅ : gmap (list Z) value) !! (js "Subject" ++ js "-2").
Proof.
  pose (g1 := getFieldValue 16 emptyFirstTables (emptyFirstEntry 1) (Some TString)).
  pose (ds1 := streamAfter g1 emptyFirstFile).
  pose (ds2 := match getFieldValue 16 emptyFirstTables (emptyFirstEntry 2)
                       (Some TString) ds1 with
               | Ok (_, ds) => ds
               | _ => ds1
               end).
  destruct empty_first_stream_overwritten as (_ & _ & _ & _ & _ & _ & _ & _ & _ & H).
  apply (H 16%nat emptyFirstTables (emptyFirstEntry 1) (emptyFirstEntry 2) 0%nat
           (mkState (newDataStream emptyFirstFile) [OBag ∅]) ∅ (js "Subject")
           (VString []) (VString []) (VString (js "xyz")) (VString (js "xyz"))
           ds1 ds2).
  - lia.
  - reflexivity.
  - vm_compute; reflexivity.
  - vm_compute; reflexivity.
  - discriminate.
  - discriminate.
  - discriminate.
  - reflexivity.
  - vm_compute; reflexivity.
  - vm_compute; reflexivity.
  - vm_compute; reflexivity.
  - reflexivity.
  - vm_compute; reflexivity.
  - vm_compute; reflexivity.
  - vm_compute; reflexivity.
Defined.

(** The two [Subject] streams of the test message, stored into an empty
    bag. *)
Lemma same_name_streams_both_stored_witness :
  exists s1 s2 b2,
    fieldsDataDocument mapiExcerpt asciiLower (fun b => b) 16 msgTables
      (msgEntry 2) 0%nat msgStart = Ok (tt, s1)
    /\ fieldsDataDocument mapiExcerpt asciiLower (fun b => b) 16 msgTables
         (msgEntry 1) 0%nat s1 = Ok (tt, s2)
    /\ st_heap s2 !! 0%nat = Some (OBag b2)
    /\ b2 !! js "Subject" = Some (VString (js "World"))
    /\ b2 !! (js "Subject" ++ js "-2") = Some (VString (js "Hello"))
    /\ js "Subject" <> js "Subject" ++ js "-2"
    /\ (forall key, key <> js "Subject" -> key <> js "Subject" ++ js "-2" ->
          key <> js "dataId" -> key <> js "contentLength" ->
          b2 !! key = (∅ : gmap (list Z) value) !! key).
Proof.
  pose (g1 := getFieldValue 16 msgTables (msgEntry 2) (Some TString)).
  pose (ds1 := streamAfter g1 msgFile).
  pose (ds2 := match getFieldValue 16 msgTables (msgEntry 1) (Some TString) ds1 with
               | Ok (_, ds) => ds
               | _ => ds1
               end).
  apply (same_name_streams_both_stored mapiExcerpt asciiLower (fun b => b)
           16 msgTables (msgEntry 2) (msgEntry 1) 0%nat msgStart ∅ (js "Subject")
           (VString (js "World")) (VString (js "World")) (VString (js "Hello"))
           ds1 ds2).
  - lia.
  - reflexivity.
  - vm_compute; reflexivity.
  - vm_compute; reflexivity.
  - discriminate.
  - discriminate.
  - discriminate.
  - reflexivity.
  - reflexivity.
  - vm_compute; reflexivity.
  - vm_compute; reflexivity.
  - vm_compute; reflexivity.
  - vm_compute; reflexivity.
  - vm_compute; reflexivity.
Defined.

(** ** Field extractor: the frame of an attachment *)

Lemma yields_ret {S A} (a : A) (P : A -> Prop) : P a -> yields (@ret S A a) P.
Proof. intros H s x s' [= <- _]. exact H. Qed.

Lemma yields_throw {S A} e (P : A -> Prop) : yields (@throw S A e) P.
Proof. intros s x s' [=]. Qed.

Lemma yields_bind {S A B} (c : M S A) (k : A -> M S B) (P : B -> Prop) :
  (forall a, yields (k a) P) -> yields (bind c k) P.
Proof.
  intros H s b s' Hb. apply bind_Ok in Hb as (a & s1 & _ & Hk). by eapply H.
Qed.

Lemma yields_onLocal {A} l (c : M DataStream A) (P : A -> Prop) :
  yields c P -> yields (onLocal l c) P.
Proof.
  intros H s a s'. unfold onLocal.
  destruct (c l) as [[x l']| |] eqn:E; [|done..]. intros [= <- _]. by eapply H.
Qed.

Lemma plain_string x : plain (VString x).
Proof. intros l. discriminate. Qed.

Lemma plain_bytes x : plain (VBytes x).
Proof. intros l. discriminate. Qed.

Lemma plain_null : plain VNull.
Proof. intros l. discriminate. Qed.

Lemma sbatDataType_plain t a b n : yields (sbatDataType t a b n) plain.
Proof.
  unfold sbatDataType. apply yields_bind. intros _.
  destruct t; apply yields_bind; intros x; apply yields_ret;
    auto using plain_string, plain_bytes.
Qed.

Lemma batDataType_plain t fp : yields (batDataType t fp) plain.
Proof.
  unfold batDataType.
  destruct t; apply yields_bind; intros x; apply yields_ret;
    auto using plain_string, plain_bytes.
Qed.

Lemma readDataByBlockSmall_plain m c n t : yields (readDataByBlockSmall m c n t) plain.
Proof.
  unfold readDataByBlockSmall. destruct (entryAt (propertyData m) 0).
  - apply yields_bind. intros x. apply sbatDataType_plain.
  - apply yields_throw.
Qed.

Lemma getFieldValue_plain fuel m fp t : yields (getFieldValue fuel m fp t) plain.
Proof.
  destruct t as [t|]; simpl; [|apply yields_ret, plain_null].
  unfold extractor. destruct (valueExtractor fp).
  - unfold extractDataViaSbat. apply yields_bind. intros chain.
    destruct (len chain =? 1); [apply readDataByBlockSmall_plain|].
    destruct (1 <? len chain); [|apply yields_ret, plain_null].
    unfold readChainDataByBlockSmall.
    destruct (sizeBlock fp <? 0); [apply yields_throw|].
    apply yields_bind. intros x. apply yields_onLocal, sbatDataType_plain.
  - unfold extractDataViaBat. apply yields_bind. intros _. apply batDataType_plain.
Qed.

Lemma plainBagAt_after t s s' : sameButBag t s s' -> plainBagAt t s -> plainBagAt t s'.
Proof.
  intros (b' & Hh & Hn) (b & Hb & _). exists b'. split; [|done].
  rewrite Hh. by eapply insert_bag_lookup.
Qed.

Lemma sameButBag_refl t s : plainBagAt t s -> sameButBag t s s.
Proof.
  intros (b & Hb & Hn). exists b. split; [|done]. by rewrite list_insert_id.
Qed.

Lemma sameButBag_trans t s s1 s2 :
  sameButBag t s s1 -> sameButBag t s1 s2 -> sameButBag t s s2.
Proof.
  intros (b1 & H1 & _) (b2 & H2 & Hn). exists b2. split; [|done].
  by rewrite H2, H1, list_insert_insert_eq.
Qed.

Lemma confined_ret {A} t (a : A) : confined t (ret a).
Proof. intros s x s' Hb [= _ <-]. by apply sameButBag_refl. Qed.

Lemma confined_throw {A} t e : confined t (@throw state A e).
Proof. intros s x s' _ [=]. Qed.

Lemma confined_bind {A B} t (c : M state A) (k : A -> M state B) (P : A -> Prop) :
  confined t c -> yields c P -> (forall a, P a -> confined t (k a)) ->
  confined t (bind c k).
Proof.
  intros Hc Hy Hk s b s' Hbag H. apply bind_Ok in H as (a & s1 & H1 & H2).
  pose proof (Hc _ _ _ Hbag H1) as F1.
  eapply sameButBag_trans; [exact F1|].
  eapply (Hk a); [by eapply Hy | by eapply plainBagAt_after | done].
Qed.

Lemma confined_seq {A B} t (c : M state A) (k : A -> M state B) :
  confined t c -> (forall a, confined t (k a)) -> confined t (bind c k).
Proof.
  intros Hc Hk. apply (confined_bind t c k (fun _ => True)); [done | done | auto].
Qed.

Lemma confined_liftDS {A} t (c : M DataStream A) : confined t (liftDS c).
Proof.
  intros s a s' Hbag H. apply liftDS_Ok in H as (ds' & _ & ->).
  by apply (sameButBag_refl t (mkState ds' (st_heap s))).
Qed.

Lemma yields_liftDS {A} (c : M DataStream A) (P : A -> Prop) :
  yields c P -> yields (liftDS c) P.
Proof. intros H s a s' Hl. apply liftDS_Ok in Hl as (ds' & Hc & _). by eapply H. Qed.

Lemma confined_liftR {A} t (r : result A) : confined t (liftR r).
Proof.
  intros s a s' Hbag H. apply liftR_Ok in H as [_ ->]. by apply sameButBag_refl.
Qed.

Lemma confined_getField t key : confined t (getField t key).
Proof.
  intros s a s' Hbag H. unfold getField in H.
  destruct (st_heap s !! t) as [[b|]|]; [|done..].
  injection H as _ <-. by apply sameButBag_refl.
Qed.

Lemma confined_setField t key v : plain v -> confined t (setField t key v).
Proof.
  intros Hv s a s' (b & Hb & Hn) H.
  rewrite (setField_bag _ _ _ _ _ Hb) in H. simplify_eq.
  eexists. split; [reflexivity|]. intros k l.
  destruct (decide (k = key)) as [->|Hk].
  - rewrite lookup_insert_eq. intros [= E]. by eapply Hv.
  - rewrite lookup_insert_ne by done. apply Hn.
Qed.

Lemma pushField_plain_bag t key v s b :
  st_heap s !! t = Some (OBag b) -> noRefs b -> pushField t key v s = Throw TypeError.
Proof.
  intros Hb Hn. unfold pushField.
  rewrite (bind_eq_Ok _ _ _ _ _ (getField_bag _ _ _ _ Hb)).
  destruct (b !! key) as [[]|] eqn:E; try done. by apply Hn in E.
Qed.

Lemma noRefs_empty : noRefs ∅.
Proof. intros key l. by rewrite lookup_empty. Qed.

Section Frame.
Variable MAPI_PROPERTIES : list Z -> option (list Z).
Variable toLowerCase : list Z -> list Z.
Variable utf8Decode : list Z -> list Z.

Local Abbreviation fieldsDataDocument :=
  (fieldsDataDocument MAPI_PROPERTIES toLowerCase utf8Decode).
Local Abbreviation fieldsDataDir :=
  (fieldsDataDir MAPI_PROPERTIES toLowerCase utf8Decode).
Local Abbreviation fieldsDataDirInner :=
  (fieldsDataDirInner MAPI_PROPERTIES toLowerCase utf8Decode).
Local Abbreviation applyValueConverter := (applyValueConverter utf8Decode).

#[local] Arguments startsWith : simpl never.
#[local] Arguments contains : simpl never.
#[local] Arguments js : simpl never.

Lemma suffixLoop_confined t fieldName fuel :
  forall suffix offset, confined t (suffixLoop fuel t fieldName suffix offset).
Proof.
  induction fuel as [|f IH]; intros suffix offset; cbn [suffixLoop].
  - intros s a s' _ [=].
  - apply confined_seq; [apply confined_getField|]. intros v.
    destruct (truthy v); [apply IH | apply confined_ret].
Qed.

Lemma applyValueConverter_plain fieldName tm v w :
  plain v -> applyValueConverter fieldName tm v = Ok w -> plain w.
Proof.
  intros Hv. unfold applyValueConverter.
  destruct (_ && _).
  - destruct v; try done. intros [= <-]. apply plain_string.
  - by intros [= <-].
Qed.

(** A stream changes the bag it is stored into, and nothing else. *)
Lemma fieldsDataDocument_confined fuel m doc t :
  confined t (fieldsDataDocument fuel m doc t).
Proof.
  unfold fieldsDataDocument.
  apply confined_seq; [apply suffixLoop_confined|]. intros suffix.
  apply confined_seq.
  - destruct (bool_decide _); [apply confined_ret|].
    apply (confined_bind t _ _ plain);
      [apply confined_liftDS | apply yields_liftDS, getFieldValue_plain |].
    intros v Hv. destruct (isAddPropertyValue _ _); [|apply confined_ret].
    apply (confined_bind t _ _ plain); [apply confined_liftR | |].
    + intros s w s' H. apply liftR_Ok in H as [H _].
      by eapply applyValueConverter_plain.
    + intros w Hw. by apply confined_setField.
  - intros _. destruct (bool_decide _); [|apply confined_ret].
    apply confined_seq; [by apply confined_setField|].
    intros _. by apply confined_setField.
Qed.

(** A storage walked into a bag without references changes that bag and
    nothing else: a sub-storage of attachment or recipient kind finds no
    array to append to, and the walk fails. *)
Lemma fieldsDataDir_confined (fuel : nat) :
  (forall m dir t, confined t (fieldsDataDir fuel m dir t))
  /\ (forall m dir t, confined t (fieldsDataDirInner fuel m dir t)).
Proof.
  induction fuel as [|f [IHd IHi]].
  - split; intros m dir t s a s' _ [=].
  - split; intros m dir t.
    + simpl.
      destruct (children dir) as [cs|]; [|apply confined_ret].
      induction cs as [|c rest IH]; [apply confined_ret|].
      destruct (entryAt (propertyData m) c) as [child|]; [|apply confined_throw].
      apply confined_seq; [|intros _; exact IH].
      destruct (type child =? DIRECTORY); [apply IHi|].
      destruct ((type child =? DOCUMENT) && _); [apply fieldsDataDocument_confined|].
      destruct (_ && bool_decide _); [|apply confined_ret].
      apply confined_seq; [apply confined_liftDS|]. intros v.
      apply confined_seq; [apply confined_liftR|]. intros p.
      apply confined_setField. intros l. discriminate.
    + simpl.
      assert (forall key o (k : loc -> M state unit),
                confined t (let* a := alloc o in
                            do pushField t key (VRef a) then k a)) as Hpush.
      { intros key o k s a s' (b & Hb & Hn) H.
        apply bind_Ok in H as (l & s1 & [= <- <-] & H).
        apply bind_Ok in H as (u & s2 & H & _).
        rewrite (pushField_plain_bag _ _ _ _ b) in H; [done | | done].
        simpl. rewrite lookup_app_l; [done | by eapply lookup_lt_Some]. }
      destruct (startsWith PREFIX_ATTACHMENT (name dir)); [apply Hpush|].
      destruct (startsWith PREFIX_RECIPIENT (name dir)); [apply Hpush|].
      destruct (negb _); [apply IHd|].
      apply confined_setField. intros l. discriminate.
Qed.

(** C8.  A storage of attachment kind, met while the bag at [fields] is
    filled: a new bag is allocated, a reference to it is appended to the
    array the bag's [attachments] field refers to, and the storage is walked
    into the new bag.  When the walk is done the bag at [fields] holds what
    it held before, whatever the streams of the attachment are named; of
    the objects there were, only the attachments array has changed. *)
Theorem attachment_leaves_message_bag
    (fuel : nat) (m : msgData) (dir : property) (fields : loc) (s s' : state)
    (b : gmap (list Z) value) :
  startsWith PREFIX_ATTACHMENT (name dir) = true ->
  st_heap s !! fields = Some (OBag b) ->
  fieldsDataDirInner fuel m dir fields s = Ok (tt, s') ->
  let sub := length (st_heap s) in
  exists la items subBag,
    b !! js "attachments" = Some (VRef la)
    /\ st_heap s !! la = Some (OArray items)
    /\ fieldsDataDir (pred fuel) m dir sub
         (mkState (st_ds s)
            (<[la := OArray (items ++ [VRef sub])]> (st_heap s ++ [OBag ∅])))
       = Ok (tt, s')
    /\ st_heap s' !! fields = Some (OBag b)
    /\ st_heap s' !! la = Some (OArray (items ++ [VRef sub]))
    /\ st_heap s' !! sub = Some (OBag subBag)
    /\ length (st_heap s') = S (length (st_heap s))
    /\ (forall l o, st_heap s !! l = Some o -> l <> la -> st_heap s' !! l = Some o).
Proof.
  intros Hname Hb H sub.
  destruct fuel as [|f]; [done|]. simpl in H. rewrite Hname in H.
  apply bind_Ok in H as (l & s1 & [= <- <-] & H). fold sub in H.
  apply bind_Ok in H as ([] & s2 & Hpush & Hwalk).
  assert (fields < sub)%nat as Hlt by by eapply lookup_lt_Some.
  unfold pushField in Hpush.
  apply bind_Ok in Hpush as (a & s1' & Hget & Hpush).
  rewrite (getField_bag _ _ _ b) in Hget
    by (simpl; by rewrite (lookup_app_l _ _ _ Hlt)).
  injection Hget as <- <-.
  destruct (b !! js "attachments") as [[| ? | ? | ? | ? | la | ?]|] eqn:Ea;
    try (cbv [throw] in Hpush; discriminate Hpush).
  cbn [st_heap st_ds] in Hpush.
  destruct ((st_heap s ++ [OBag ∅]) !! la) as [[|items]|] eqn:El; try done.
  injection Hpush as <-.
  assert (la < sub)%nat as Hla.
  { apply lookup_app_Some in El as [El | [_ El]]; [by eapply lookup_lt_Some|].
    apply list_lookup_singleton_Some in El as [_ El]. done. }
  rewrite lookup_app_l in El by done.
  assert (la <> fields) as Hne.
  { intros E. subst la. by pose proof (eq_trans (eq_sym El) Hb). }
  set (heap2 := <[la := OArray (items ++ [VRef sub])]> (st_heap s ++ [OBag ∅])) in *.
  assert (heap2 !! sub = Some (OBag ∅)) as Hsub.
  { unfold heap2. rewrite list_lookup_insert_ne by lia.
    rewrite lookup_app_r by done. by rewrite Nat.sub_diag. }
  assert (plainBagAt sub (mkState (st_ds s) heap2)) as Hplain
    by (exists ∅; split; [exact Hsub | exact noRefs_empty]).
  destruct (proj1 (fieldsDataDir_confined f) m dir sub _ _ _ Hplain Hwalk)
    as (subBag & Hh & _).
  simpl in Hh.
  exists la, items, subBag. split_and!; try done.
  - rewrite Hh, list_lookup_insert_ne by lia. unfold heap2.
    rewrite list_lookup_insert_ne by done. by rewrite lookup_app_l.
  - rewrite Hh, list_lookup_insert_ne by lia. unfold heap2.
    apply list_lookup_insert_eq. rewrite length_app. simpl. lia.
  - rewrite Hh. apply list_lookup_insert_eq. unfold heap2.
    rewrite length_insert, length_app. simpl. fold sub. lia.
  - rewrite Hh. unfold heap2. rewrite !length_insert, length_app. simpl. lia.
  - intros l o Hl Hl'. assert (l < sub)%nat by by eapply lookup_lt_Some.
    rewrite Hh, list_lookup_insert_ne by lia. unfold heap2.
    rewrite list_lookup_insert_ne by done. by rewrite lookup_app_l.
Qed.

End Frame.

(** The attachment of the test message holds a [Subject] stream, as the
    message does: the bag of the message keeps its own. *)
Lemma attachment_leaves_message_bag_witness :
  startsWith PREFIX_ATTACHMENT (name (msgEntry 3)) = true
  /\ st_heap msgScope !! 2%nat = Some (OBag msgBag)
  /\ msgBag !! js "Subject" = Some (VString (js "World"))
  /\ attachmentWalk msgScope = Ok (tt, stateAfter attachmentWalk msgScope)
  /\ exists la items subBag,
       msgBag !! js "attachments" = Some (VRef la)
       /\ st_heap msgScope !! la = Some (OArray items)
       /\ st_heap (stateAfter attachmentWalk msgScope) !! 2%nat = Some (OBag msgBag)
       /\ st_heap (stateAfter attachmentWalk msgScope) !! la
          = Some (OArray (items ++ [VRef 3%nat]))
       /\ st_heap (stateAfter attachmentWalk msgScope) !! 3%nat = Some (OBag subBag).
Proof.
  assert (startsWith PREFIX_ATTACHMENT (name (msgEntry 3)) = true) as H1
    by (vm_compute; reflexivity).
  assert (st_heap msgScope !! 2%nat = Some (OBag msgBag)) as H2 by reflexivity.
  assert (attachmentWalk msgScope = Ok (tt, stateAfter attachmentWalk msgScope)) as H3
    by (vm_compute; reflexivity).
  split; [exact H1|]. split; [exact H2|]. split; [vm_compute; reflexivity|].
  split; [exact H3|].
  destruct (attachment_leaves_message_bag mapiExcerpt asciiLower (fun b => b)
              16 msgTables (msgEntry 3) 2%nat msgScope
              (stateAfter attachmentWalk msgScope) msgBag H1 H2 H3)
    as (la & items & subBag & E1 & E2 & _ & E3 & E4 & E5 & _).
  exists la, items, subBag.
  split; [exact E1|]. split; [exact E2|]. split; [exact E3|].
  split; [exact E4 | exact E5].
Defined.

(** ** Termination of the walks *)

(** A cycle of child pointers: the nested calls use up the call stack,
    whatever its size. *)
Lemma childCycle_nest (stack : nat) : forall fuel props e,
  entryAt props 1 = Some e -> type e = DIRECTORY -> childProperty e = 1 ->
  (2 * stack + 1 <= fuel)%nat ->
  createPropertyHierarchy fuel stack props 1 = Throw RangeError.
Proof.
  induction stack as [|st IH]; intros fuel props e E Ht Hc Hf.
  - destruct fuel as [|f]; [lia | done].
  - destruct fuel as [|f]; [lia|]. cbn [createPropertyHierarchy].
    rewrite E, Hc. change (1 =? NO_INDEX) with false. cbv iota.
    set (props1 := <[Z.to_nat 1 := _]> props).
    assert (entryAt props1 1 = Some (set_children e [])) as E1
      by by eapply entryAt_insert_eq.
    destruct f as [|f]; [lia|]. cbn [hierarchyLoop].
    rewrite E1, (pushChild_eq _ _ _ _ [] E1 eq_refl). cbn [rbind].
    change (type (set_children e [])) with (type e). rewrite Ht, Z.eqb_refl.
    rewrite (IH f _ (set_children (set_children e []) ([] ++ [1]))); [done| | | |lia].
    + by eapply entryAt_insert_eq.
    + exact Ht.
    + exact Hc.
Qed.

Lemma childCycle_overflows (fuel stack : nat) :
  (2 * stack + 1 <= fuel)%nat ->
  createPropertyHierarchy fuel stack childCycle 0 = Throw RangeError.
Proof.
  intros Hf. destruct fuel as [|f]; [lia|]. destruct stack as [|st]; [done|].
  destruct f as [|f]; [lia|].
  set (root := mkProperty 0 ROOT (js "Root Entry") (-1) (-1) 1 (-2) 0 None).
  set (e := mkProperty 1 DIRECTORY (js "__attach_version1.0_#00000000")
              (-1) (-1) 1 0 0 None).
  assert (entryAt childCycle 0 = Some root) as E0 by reflexivity.
  cbn [createPropertyHierarchy]. rewrite E0.
  change (childProperty root =? NO_INDEX) with false. cbv iota.
  change (childProperty root) with 1.
  set (props1 := <[Z.to_nat 0 := _]> childCycle).
  assert (entryAt props1 0 = Some (set_children root [])) as E1 by reflexivity.
  assert (entryAt props1 1 = Some e) as E2 by reflexivity.
  cbn [hierarchyLoop]. rewrite E2, (pushChild_eq _ _ _ _ [] E1 eq_refl).
  cbn [rbind]. change (type e =? DIRECTORY) with true. cbv iota.
  rewrite (childCycle_nest st f _ e); [done|reflexivity|reflexivity|reflexivity|lia].
Qed.




(** ** Field extractor: further outcomes *)

Lemma recipient_not_attachment (n : list Z) :
  startsWith PREFIX_RECIPIENT n = true -> startsWith PREFIX_ATTACHMENT n = false.
Proof.
  unfold PREFIX_RECIPIENT, PREFIX_ATTACHMENT.
  destruct n as [|a [|b [|c r]]]; cbn [js startsWith];
    rewrite ?andb_false_r; try done.
  intros H.
  apply andb_prop in H as [_ H]. apply andb_prop in H as [_ H].
  apply andb_prop in H as [H _]. apply Z.eqb_eq in H. rewrite <- H.
  by rewrite !andb_false_r.
Qed.

Section Streams.
Variable MAPI_PROPERTIES : list Z -> option (list Z).
Variable toLowerCase : list Z -> list Z.
Variable utf8Decode : list Z -> list Z.

Local Abbreviation canonicalName := (canonicalName MAPI_PROPERTIES toLowerCase).
Local Abbreviation mappedType := (mappedType toLowerCase).
Local Abbreviation fieldClassOf := (fieldClassOf toLowerCase).
Local Abbreviation fieldsDataDocument :=
  (fieldsDataDocument MAPI_PROPERTIES toLowerCase utf8Decode).
Local Abbreviation fieldsDataDir :=
  (fieldsDataDir MAPI_PROPERTIES toLowerCase utf8Decode).
Local Abbreviation fieldsDataDirInner :=
  (fieldsDataDirInner MAPI_PROPERTIES toLowerCase utf8Decode).
Local Abbreviation applyValueConverter := (applyValueConverter utf8Decode).

#[local] Arguments startsWith : simpl never.
#[local] Arguments contains : simpl never.
#[local] Arguments js : simpl never.

(** X1.  What [#fieldsDataDocument] does with a stream.  The key is the
    first among Name, Name-2, Name-3, ... that holds no truthy value in the
    bag; the decoded and converted value is stored under it, unless the key
    is [Body] and the storage type binary; a stream of class [3701] sets
    [dataId] and [contentLength] besides.  Nothing else changes: no other
    field of the bag, no other object, and the cursor is where the read of
    the stream left it. *)
Theorem fieldsDataDocument_outcome
    (fuel : nat) (m : msgData) (doc : property) (fields : loc) (s : state)
    (b : gmap (list Z) value) (k : Z) (v w : value) (ds' : DataStream) :
  st_heap s !! fields = Some (OBag b) ->
  1 <= k -> (Z.to_nat k <= fuel)%nat ->
  (forall i, 1 <= i < k -> truthy (b !! keyOf (canonicalName doc) i) = true) ->
  truthy (b !! keyOf (canonicalName doc) k) = false ->
  keyOf (canonicalName doc) k <> [] ->
  getFieldValue fuel m doc (Some (default TBinary (mappedType doc))) (st_ds s)
  = Ok (v, ds') ->
  (isAddPropertyValue (keyOf (canonicalName doc) k) (mappedType doc) = true ->
   applyValueConverter (keyOf (canonicalName doc) k) (mappedType doc) v = Ok w) ->
  fieldsDataDocument fuel m doc fields s
  = Ok (tt, mkState ds'
              (<[fields :=
                   OBag (attachmentInfo
                           (bool_decide (fieldClassOf doc = ATTACHMENT_DATA)) doc
                           (storedBag b (keyOf (canonicalName doc) k)
                              (mappedType doc) w))]>
                 (st_heap s))).
Proof.
  intros Hb Hk Hfuel Htrue Hfree Hne Hval Hconv.
  unfold fieldsDataDocument.
  fold (fieldClassOf doc). fold (fieldTypeOf toLowerCase doc).
  fold (canonicalName doc). fold (mappedType doc).
  change [] with (suffixOf 1) at 1.
  rewrite (bind_eq_Ok _ _ _ _ _
             (suffixLoop_first_free fields (canonicalName doc) b (Z.to_nat (k - 1))
                1 fuel s Hb ltac:(lia) ltac:(intros i Hi; apply Htrue; lia)
                ltac:(by replace (1 + Z.of_nat (Z.to_nat (k - 1))) with k by lia)
                ltac:(lia))).
  replace (1 + Z.of_nat (Z.to_nat (k - 1))) with k by lia.
  fold (keyOf (canonicalName doc) k).
  set (key := keyOf (canonicalName doc) k) in *.
  destruct (bool_decide_reflect (key = [])) as [|_]; [done|].
  rewrite bind_assoc.
  rewrite (bind_eq_Ok _ _ _ _ _ (liftDS_eq_Ok _ _ _ _ Hval)).
  unfold storedBag.
  set (s1 := mkState ds' (st_heap s)).
  assert (st_heap s1 !! fields = Some (OBag b)) as Hb1 by done.
  assert (forall b1 (s2 : state),
            st_heap s2 = <[fields := OBag b1]> (st_heap s) -> st_ds s2 = ds' ->
            (if bool_decide (fieldClassOf doc = ATTACHMENT_DATA)
             then
               do setField fields (js "dataId") (VNumber (index_ doc)) then
               setField fields (js "contentLength") (VNumber (sizeBlock doc))
             else ret tt) s2
            = Ok (tt, mkState ds'
                        (<[fields :=
                             OBag (attachmentInfo
                                     (bool_decide (fieldClassOf doc = ATTACHMENT_DATA))
                                     doc b1)]> (st_heap s)))) as Hinfo.
  { intros b1 [ds2 h2] Hh Hd. simpl in Hh, Hd. subst ds2 h2.
    unfold attachmentInfo.
    destruct (bool_decide (fieldClassOf doc = ATTACHMENT_DATA)); [|done].
    set (s2 := mkState ds' _).
    assert (st_heap s2 !! fields = Some (OBag b1)) as Hb2
      by by eapply insert_bag_lookup.
    rewrite (bind_eq_Ok _ _ _ _ _ (setField_bag _ _ _ _ _ Hb2)).
    cbn [st_ds st_heap s2].
    set (s3 := mkState ds' _).
    assert (st_heap s3 !! fields
            = Some (OBag (<[js "dataId" := VNumber (index_ doc)]> b1))) as Hb3
      by (by eapply insert_bag_lookup).
    rewrite (setField_bag _ _ _ _ _ Hb3). cbn [st_ds st_heap s3].
    by rewrite !list_insert_insert_eq. }
  destruct (isAddPropertyValue key (mappedType doc)) eqn:Hadd.
  - rewrite bind_assoc. rewrite (Hconv eq_refl).
    rewrite (bind_eq_Ok (liftR (Ok w)) _ s1 w s1 eq_refl).
    rewrite (bind_eq_Ok _ _ _ _ _ (setField_bag _ _ _ _ _ Hb1)).
    apply Hinfo; done.
  - rewrite (bind_eq_Ok (ret tt) _ s1 tt s1 eq_refl).
    apply Hinfo; [|done]. simpl. by rewrite list_insert_id.
Qed.

(** X2.  A storage of recipient kind, met while the bag at [fields] is
    filled: a new bag is allocated, a reference to it is appended to the
    array the bag's [recipients] field refers to, and the storage is walked
    into the new bag.  The bag at [fields] holds afterwards what it held
    before; of the objects there were, only the recipients array has
    changed. *)
Theorem recipient_leaves_message_bag
    (fuel : nat) (m : msgData) (dir : property) (fields : loc) (s s' : state)
    (b : gmap (list Z) value) :
  startsWith PREFIX_RECIPIENT (name dir) = true ->
  st_heap s !! fields = Some (OBag b) ->
  fieldsDataDirInner fuel m dir fields s = Ok (tt, s') ->
  exists lr items subBag,
    b !! js "recipients" = Some (VRef lr)
    /\ st_heap s !! lr = Some (OArray items)
    /\ fieldsDataDir (pred fuel) m dir (length (st_heap s))
         (mkState (st_ds s)
            (<[lr := OArray (items ++ [VRef (length (st_heap s))])]>
               (st_heap s ++ [OBag ∅])))
       = Ok (tt, s')
    /\ st_heap s' !! fields = Some (OBag b)
    /\ st_heap s' !! lr = Some (OArray (items ++ [VRef (length (st_heap s))]))
    /\ st_heap s' !! length (st_heap s) = Some (OBag subBag)
    /\ length (st_heap s') = S (length (st_heap s))
    /\ (forall l o, st_heap s !! l = Some o -> l <> lr -> st_heap s' !! l = Some o).
Proof.
  intros Hname Hb H. set (sub := length (st_heap s)).
  destruct fuel as [|f]; [done|]. simpl in H.
  rewrite (recipient_not_attachment _ Hname), Hname in H.
  apply bind_Ok in H as (l & s1 & [= <- <-] & H). fold sub in H.
  apply bind_Ok in H as ([] & s2 & Hpush & Hwalk).
  assert (fields < sub)%nat as Hlt by by eapply lookup_lt_Some.
  unfold pushField in Hpush.
  apply bind_Ok in Hpush as (a & s1' & Hget & Hpush).
  rewrite (getField_bag _ _ _ b) in Hget
    by (simpl; by rewrite (lookup_app_l _ _ _ Hlt)).
  injection Hget as <- <-.
  destruct (b !! js "recipients") as [[| ? | ? | ? | ? | lr | ?]|] eqn:Ea;
    try (cbv [throw] in Hpush; discriminate Hpush).
  cbn [st_heap st_ds] in Hpush.
  destruct ((st_heap s ++ [OBag ∅]) !! lr) as [[|items]|] eqn:El; try done.
  injection Hpush as <-.
  assert (lr < sub)%nat as Hlr.
  { apply lookup_app_Some in El as [El | [_ El]]; [by eapply lookup_lt_Some|].
    apply list_lookup_singleton_Some in El as [_ El]. done. }
  rewrite lookup_app_l in El by done.
  assert (lr <> fields) as Hne.
  { intros E. subst lr. by pose proof (eq_trans (eq_sym El) Hb). }
  set (heap2 := <[lr := OArray (items ++ [VRef sub])]> (st_heap s ++ [OBag ∅])) in *.
  assert (heap2 !! sub = Some (OBag ∅)) as Hsub.
  { unfold heap2. rewrite list_lookup_insert_ne by lia.
    rewrite lookup_app_r by done. by rewrite Nat.sub_diag. }
  assert (plainBagAt sub (mkState (st_ds s) heap2)) as Hplain
    by (exists ∅; split; [exact Hsub | exact noRefs_empty]).
  destruct (proj1 (fieldsDataDir_confined MAPI_PROPERTIES toLowerCase utf8Decode f)
              m dir sub _ _ _ Hplain Hwalk)
    as (subBag & Hh & _).
  simpl in Hh.
  exists lr, items, subBag. split_and!; try done.
  - rewrite Hh, list_lookup_insert_ne by lia. unfold heap2.
    rewrite list_lookup_insert_ne by done. by rewrite lookup_app_l.
  - rewrite Hh, list_lookup_insert_ne by lia. unfold heap2.
    apply list_lookup_insert_eq. rewrite length_app. simpl. lia.
  - rewrite Hh. apply list_lookup_insert_eq. unfold heap2.
    rewrite length_insert, length_app. simpl. fold sub. lia.
  - rewrite Hh. unfold heap2. rewrite !length_insert, length_app. simpl. lia.
  - intros l o Hl Hl'. assert (l < sub)%nat by by eapply lookup_lt_Some.
    rewrite Hh, list_lookup_insert_ne by lia. unfold heap2.
    rewrite list_lookup_insert_ne by done. by rewrite lookup_app_l.
Qed.

(** X3.  A storage of attachment or of recipient kind met while a bag is
    filled that has no array under [attachments], respectively under
    [recipients] (the bag of an attachment or of a recipient is such a
    bag): the extraction throws a [TypeError]. *)
Theorem nested_storage_throws
    (fuel : nat) (m : msgData) (dir : property) (fields : loc) (s : state)
    (b : gmap (list Z) value) :
  st_heap s !! fields = Some (OBag b) ->
  (startsWith PREFIX_ATTACHMENT (name dir) = true
   /\ (forall l, b !! js "attachments" <> Some (VRef l))) \/
  (startsWith PREFIX_RECIPIENT (name dir) = true
   /\ (forall l, b !! js "recipients" <> Some (VRef l))) ->
  fieldsDataDirInner (S fuel) m dir fields s = Throw TypeError.
Proof.
  intros Hb Hcase.
  assert (fields < length (st_heap s))%nat as Hlt by by eapply lookup_lt_Some.
  assert (forall key (k : loc -> M state unit),
            (forall l, b !! key <> Some (VRef l)) ->
            (let* a := alloc (OBag ∅) in
             do pushField fields key (VRef a) then k a) s = Throw TypeError) as Hpush.
  { intros key k Hkey. unfold bind at 1, alloc.
    set (s1 := mkState (st_ds s) (st_heap s ++ [OBag ∅])).
    assert (st_heap s1 !! fields = Some (OBag b)) as Hb1
      by (simpl; by rewrite (lookup_app_l _ _ _ Hlt)).
    apply bind_eq_Throw. unfold pushField.
    rewrite (bind_eq_Ok _ _ _ _ _ (getField_bag _ _ _ _ Hb1)).
    pose proof Hkey as Hkey'.
    destruct (b !! key) as [[]|]; try done. by destruct (Hkey' l). }
  simpl. destruct Hcase as [[Hname Hkey] | [Hname Hkey]].
  - rewrite Hname. by apply Hpush.
  - rewrite (recipient_not_attachment _ Hname), Hname. by apply Hpush.
Qed.

(** X4.  A storage that is neither of attachment nor of recipient kind and
    whose type text is [000d], an embedded message: its streams are not
    extracted; the field [innerMsgContent] of the bag is set to [true] and
    nothing else changes. *)
Theorem inner_message_is_flagged
    (fuel : nat) (m : msgData) (dir : property) (fields : loc) (s : state)
    (b : gmap (list Z) value) :
  st_heap s !! fields = Some (OBag b) ->
  startsWith PREFIX_ATTACHMENT (name dir) = false ->
  startsWith PREFIX_RECIPIENT (name dir) = false ->
  getFieldType toLowerCase dir = INNER_MSG ->
  fieldsDataDirInner (S fuel) m dir fields s
  = Ok (tt, mkState (st_ds s)
              (<[fields := OBag (<[js "innerMsgContent" := VBool true]> b)]>
                 (st_heap s))).
Proof.
  intros Hb Ha Hr Ht. simpl. rewrite Ha, Hr, Ht.
  rewrite bool_decide_eq_true_2 by done. simpl.
  by apply setField_bag.
Qed.

End Streams.

(** The second [Subject] stream of the test message, stored into a bag that
    holds a [Subject]: it goes under [Subject-2]. *)
Lemma fieldsDataDocument_outcome_witness :
  exists s',
    fieldsDataDocument mapiExcerpt asciiLower (fun b => b) 16 msgTables (msgEntry 1)
      0%nat
      (mkState (newDataStream msgFile)
         [OBag {[ js "Subject" := VString (js "World") ]}])
    = Ok (tt, s')
    /\ st_heap s'
       = [OBag (<[js "Subject-2" := VString (js "Hello")]>
                  {[ js "Subject" := VString (js "World") ]})].
Proof.
  eexists. split.
  - apply (fieldsDataDocument_outcome mapiExcerpt asciiLower (fun b => b)
             16 msgTables (msgEntry 1) 0%nat _
             {[ js "Subject" := VString (js "World") ]} 2
             (VString (js "Hello")) (VString (js "Hello"))
             (streamAfter (getFieldValue 16 msgTables (msgEntry 1) (Some TString))
                msgFile)).
    + reflexivity.
    + lia.
    + vm_compute; lia.
    + intros i Hi. assert (i = 1) as -> by lia. vm_compute; reflexivity.
    + vm_compute; reflexivity.
    + vm_compute; discriminate.
    + vm_compute; reflexivity.
    + intros _. vm_compute; reflexivity.
  - vm_compute; reflexivity.
Defined.

(** A recipient storage walked into the bag of the message. *)
Lemma recipient_leaves_message_bag_witness :
  exists lr items subBag,
    msgBag !! js "recipients" = Some (VRef lr)
    /\ st_heap msgScope !! lr = Some (OArray items)
    /\ st_heap (stateAfter (fieldsDataDirInner mapiExcerpt asciiLower (fun b => b)
                              16 msgTables recipientEntry 2%nat) msgScope) !! 2%nat
       = Some (OBag msgBag)
    /\ st_heap (stateAfter (fieldsDataDirInner mapiExcerpt asciiLower (fun b => b)
                              16 msgTables recipientEntry 2%nat) msgScope) !! lr
       = Some (OArray (items ++ [VRef (length (st_heap msgScope))]))
    /\ st_heap (stateAfter (fieldsDataDirInner mapiExcerpt asciiLower (fun b => b)
                              16 msgTables recipientEntry 2%nat) msgScope)
       !! length (st_heap msgScope)
       = Some (OBag subBag).
Proof.
  assert (startsWith PREFIX_RECIPIENT (name recipientEntry) = true) as H1
    by (vm_compute; reflexivity).
  assert (st_heap msgScope !! 2%nat = Some (OBag msgBag)) as H2 by reflexivity.
  assert (fieldsDataDirInner mapiExcerpt asciiLower (fun b => b) 16 msgTables
            recipientEntry 2%nat msgScope
          = Ok (tt, stateAfter (fieldsDataDirInner mapiExcerpt asciiLower (fun b => b)
                                  16 msgTables recipientEntry 2%nat) msgScope)) as H3
    by (vm_compute; reflexivity).
  destruct (recipient_leaves_message_bag mapiExcerpt asciiLower (fun b => b)
              16 msgTables recipientEntry 2%nat msgScope _ msgBag H1 H2 H3)
    as (lr & items & subBag & E1 & E2 & _ & E3 & E4 & E5 & _).
  exists lr, items, subBag.
  split; [exact E1|]. split; [exact E2|]. split; [exact E3|].
  split; [exact E4 | exact E5].
Defined.

(** The attachment storage of the test message, met while an empty bag is
    filled. *)
Lemma nested_storage_throws_witness :
  st_heap msgStart !! 0%nat = Some (OBag ∅)
  /\ startsWith PREFIX_ATTACHMENT (name (msgEntry 3)) = true
  /\ fieldsDataDirInner mapiExcerpt asciiLower (fun b => b) 1 msgTables
       (msgEntry 3) 0%nat msgStart
     = Throw TypeError.
Proof.
  assert (st_heap msgStart !! 0%nat = Some (OBag ∅)) as H1 by reflexivity.
  assert (startsWith PREFIX_ATTACHMENT (name (msgEntry 3)) = true) as H2
    by (vm_compute; reflexivity).
  split; [exact H1|]. split; [exact H2|].
  apply (nested_storage_throws mapiExcerpt asciiLower (fun b => b)
           0 msgTables (msgEntry 3) 0%nat msgStart ∅ H1).
  left. split; [exact H2|]. intros l. rewrite lookup_empty. discriminate.
Defined.

(** An embedded message met while an empty bag is filled. *)
Lemma inner_message_is_flagged_witness :
  fieldsDataDirInner mapiExcerpt asciiLower (fun b => b) 1 msgTables
    innerMessageEntry 0%nat msgStart
  = Ok (tt, mkState (st_ds msgStart)
              (<[0%nat := OBag (<[js "innerMsgContent" := VBool true]> ∅)]>
                 (st_heap msgStart))).
Proof.
  apply (inner_message_is_flagged mapiExcerpt asciiLower (fun b => b)
           0 msgTables innerMessageEntry 0%nat msgStart ∅).
  - reflexivity.
  - vm_compute; reflexivity.
  - vm_compute; reflexivity.
  - vm_compute; reflexivity.
Defined.

(** ** The directory after [#propertyData] *)

Lemma present_insert props node p x c :
  entryAt props node = Some p ->
  (exists e, entryAt props c = Some e) ->
  exists e', entryAt (<[Z.to_nat node := Some x]> props) c = Some e'.
Proof.
  intros E [e Hc]. destruct (Z.eq_dec node c) as [<-|Hne].
  - exists x. by eapply entryAt_insert_eq.
  - exists e. apply entryAt_Some in E as [Hn _].
    by rewrite entryAt_insert_ne.
Qed.

Lemma childrenPresent_set_children props node p l :
  childrenPresent props ->
  entryAt props node = Some p ->
  (forall c, c ∈ l -> exists e, entryAt props c = Some e) ->
  childrenPresent (<[Z.to_nat node := Some (set_children p l)]> props).
Proof.
  intros Hcp E Hl i e c Hi Hc.
  destruct (Z.eq_dec node i) as [<-|Hne].
  - rewrite (entryAt_insert_eq _ _ _ _ E) in Hi. injection Hi as <-.
    unfold childList in Hc. simpl in Hc.
    eapply present_insert; [exact E | by apply Hl].
  - pose proof (entryAt_Some _ _ _ E) as [Hn _].
    rewrite entryAt_insert_ne in Hi by done.
    eapply present_insert; [exact E | by eapply Hcp].
Qed.

Lemma hierarchy_childrenPresent (fuel : nat) :
  (forall stack props node props',
      childrenPresent props ->
      createPropertyHierarchy fuel stack props node = Ok props' -> childrenPresent props')
  /\ (forall stack props node wl props',
         childrenPresent props ->
         hierarchyLoop fuel stack props node wl = Ok props' -> childrenPresent props').
Proof.
  induction fuel as [|f [IHc IHl]]; [by split|]. split.
  - intros stack props node props' Hcp H. simpl in H.
    destruct stack as [|st]; [done|].
    destruct (entryAt props node) as [p|] eqn:E; [|done].
    destruct (childProperty p =? NO_INDEX); [by injection H as <-|].
    eapply IHl; [|exact H].
    apply childrenPresent_set_children; [done | done |].
    intros c Hc. by apply elem_of_nil in Hc.
  - intros stack props node wl props' Hcp H. simpl in H.
    destruct wl as [|c rest]; [by injection H as <-|].
    destruct (entryAt props c) as [cur|] eqn:Ec; [|by eapply IHl].
    destruct (pushChild props node c) as [props1| |] eqn:Hp; [|done..].
    simpl in H.
    apply pushChild_Ok in Hp as (p0 & l & E0 & Hl & ->).
    set (props1 := <[Z.to_nat node := _]> props) in *.
    assert (childrenPresent props1) as Hcp1.
    { apply childrenPresent_set_children; [done | done |].
      intros x [Hx | Hx]%elem_of_app.
      - apply (Hcp node p0 x E0). unfold childList. by rewrite Hl.
      - apply list_elem_of_singleton in Hx as ->. eauto. }
    destruct (if type cur =? DIRECTORY then createPropertyHierarchy f stack props1 c
              else Ok props1) as [props2| |] eqn:H2; [|done..].
    simpl in H.
    assert (childrenPresent props2) as Hcp2.
    { destruct (type cur =? DIRECTORY); [by eapply IHc|]. by injection H2 as <-. }
    by eapply IHl.
Qed.

Lemma indexed_snoc props oe :
  indexed props -> (forall e, oe = Some e -> index_ e = len props) ->
  indexed (props ++ [oe]).
Proof.
  intros Hi Ho i e [H0 H]%entryAt_Some.
  apply lookup_app_Some in H as [H | [Hge H]].
  - eapply Hi, entryAt_lookup; eauto.
  - apply list_lookup_singleton_Some in H as [Hz ->].
    rewrite (Ho e eq_refl). unfold len. lia.
Qed.

Lemma convertProperty_index idx offset ds p ds' :
  convertProperty idx offset ds = Ok (p, ds') -> index_ p = idx.
Proof. unfold convertProperty. intros H. inv_bind H. done. Qed.

Lemma convertBlockLoop_indexed todo : forall offset props ds props' ds',
  convertBlockLoop todo offset props ds = Ok (props', ds') ->
  indexed props -> indexed props'.
Proof.
  induction todo as [|todo IH]; intros offset props ds props' ds' H Hi; simpl in H.
  - by inv_bind H.
  - inv_bind H. eapply IH; [exact H|].
    destruct ((a =? ROOT) || (a =? DIRECTORY) || (a =? DOCUMENT)).
    + inv_bind Hstep0. apply indexed_snoc; [done|].
      intros e [= <-]. by eapply convertProperty_index.
    + inv_bind Hstep0. by apply indexed_snoc.
Qed.

Lemma propertyLoop_indexed fuel m : forall off props ds props' ds',
  propertyLoop fuel m off props ds = Ok (props', ds') ->
  indexed props -> indexed props'.
Proof.
  induction fuel as [|f IH]; intros off props ds props' ds' H Hi; simpl in H; [done|].
  destruct (is_num off END_OF_CHAIN); [by inv_bind H|].
  inv_bind H. eapply IH; [exact H|].
  unfold convertBlockToProperties in Hstep. by eapply convertBlockLoop_indexed.
Qed.

Lemma indexed_sameTree props props' :
  sameTree props props' -> indexed props -> indexed props'.
Proof.
  intros Hs Hi i e' E'. specialize (Hs i).
  destruct (entryAt props i) as [e|] eqn:E; [|congruence].
  destruct Hs as (e2 & E2 & (Hidx & _) & _).
  assert (e2 = e') as -> by congruence. rewrite Hidx. by apply Hi.
Qed.

(** X5.  The directory [#propertyData] returns is well formed: every entry
    sits at the position its [index] names, and every index in a list of
    children is the position of an entry, so that the field extractor
    finds an entry for every child it walks. *)
Theorem propertyData_wellformed
    (fuel stack : nat) (m : msgData) (ds ds' : DataStream)
    (props : list (option property)) :
  propertyData_ fuel stack m ds = Ok (props, ds') ->
  indexed props /\ childrenPresent props.
Proof.
  unfold propertyData_. intros H. inv_bind H.
  apply liftR_Ok in H as [H ->].
  assert (indexed a) as Hi.
  { eapply propertyLoop_indexed; [exact Hstep|]. intros j x Hx.
    apply entryAt_Some in Hx as [_ Hx]. by rewrite lookup_nil in Hx. }
  assert (unset a) as Hu.
  { eapply propertyLoop_unset; [exact Hstep|]. intros j x Hx.
    apply entryAt_Some in Hx as [_ Hx]. by rewrite lookup_nil in Hx. }
  split.
  - eapply indexed_sameTree; [|exact Hi].
    by eapply (proj1 (hierarchy_sameTree fuel) stack).
  - eapply (proj1 (hierarchy_childrenPresent fuel) stack); [|exact H].
    intros i e c E Hc. unfold childList in Hc. rewrite (Hu i e E) in Hc.
    by apply elem_of_nil in Hc.
Qed.

(** The directory of the test message. *)
Lemma propertyData_wellformed_witness :
  propertyData_ 16 16 msgTables (newDataStream msgFile)
  = Ok (propertyData msgTables, streamAfter (propertyData_ 16 16 msgTables) msgFile)
  /\ indexed (propertyData msgTables) /\ childrenPresent (propertyData msgTables).
Proof.
  assert (propertyData_ 16 16 msgTables (newDataStream msgFile)
          = Ok (propertyData msgTables,
                streamAfter (propertyData_ 16 16 msgTables) msgFile)) as H
    by (vm_compute; reflexivity).
  split; [exact H|].
  exact (propertyData_wellformed 16 16 msgTables _ _ _ H).
Defined.

Lemma hierarchy_length (fuel : nat) :
  (forall stack props node props',
      createPropertyHierarchy fuel stack props node = Ok props' ->
      length props' = length props)
  /\ (forall stack props node wl props',
         hierarchyLoop fuel stack props node wl = Ok props' ->
         length props' = length props).
Proof.
  induction fuel as [|f [IHc IHl]]; [by split|]. split.
  - intros stack props node props' H. simpl in H.
    destruct stack as [|st]; [done|].
    destruct (entryAt props node) as [p|] eqn:E; [|done].
    destruct (childProperty p =? NO_INDEX); [by injection H as <-|].
    apply IHl in H. by rewrite length_insert in H.
  - intros stack props node wl props' H. simpl in H.
    destruct wl as [|c rest]; [by injection H as <-|].
    destruct (entryAt props c) as [cur|] eqn:Ec; [|by eapply IHl].
    destruct (pushChild props node c) as [props1| |] eqn:Hp; [|done..].
    simpl in H.
    apply pushChild_Ok in Hp as (p0 & l & E0 & Hl & ->).
    set (props1 := <[Z.to_nat node := _]> props) in *.
    destruct (if type cur =? DIRECTORY then createPropertyHierarchy f stack props1 c
              else Ok props1) as [props2| |] eqn:H2; [|done..].
    simpl in H.
    assert (length props2 = length props) as L2.
    { destruct (type cur =? DIRECTORY).
      - apply IHc in H2. unfold props1 in H2. by rewrite length_insert in H2.
      - injection H2 as <-. unfold props1. by rewrite length_insert. }
    apply IHl in H. lia.
Qed.

(** X6.  The reconstruction of the tree changes lists of children and
    nothing else: the directory keeps its length, every entry keeps its
    place, its name, type, pointers, start and size, an absent slot stays
    absent, and an entry without a child pointer is not touched. *)
Theorem reconstruction_keeps_entries
    (fuel stack : nat) (props props' : list (option property)) (node : Z) :
  createPropertyHierarchy fuel stack props node = Ok props' ->
  length props' = length props /\ sameTree props props'.
Proof.
  intros H. split.
  - by eapply (proj1 (hierarchy_length fuel) stack).
  - by eapply (proj1 (hierarchy_sameTree fuel) stack).
Qed.

(** The directory of three siblings. *)
Lemma reconstruction_keeps_entries_witness :
  createPropertyHierarchy 5 5 threeSiblings 0
  = Ok (<[0%nat := Some (set_children
                           (mkProperty 0 ROOT (js "Root Entry") (-1) (-1) 2 (-2) 0 None)
                           [2; 3; 1])]> threeSiblings)
  /\ length (<[0%nat := Some (set_children
                           (mkProperty 0 ROOT (js "Root Entry") (-1) (-1) 2 (-2) 0 None)
                           [2; 3; 1])]> threeSiblings) = length threeSiblings
  /\ sameTree threeSiblings
       (<[0%nat := Some (set_children
                           (mkProperty 0 ROOT (js "Root Entry") (-1) (-1) 2 (-2) 0 None)
                           [2; 3; 1])]> threeSiblings).
Proof.
  assert (createPropertyHierarchy 5 5 threeSiblings 0
          = Ok (<[0%nat := Some (set_children
                           (mkProperty 0 ROOT (js "Root Entry") (-1) (-1) 2 (-2) 0 None)
                           [2; 3; 1])]> threeSiblings)) as H by reflexivity.
  split; [exact H|].
  exact (reconstruction_keeps_entries 5 5 threeSiblings _ 0 H).
Defined.

Lemma convertBlockLoop_length todo : forall offset props ds props' ds',
  convertBlockLoop todo offset props ds = Ok (props', ds') ->
  length props' = (length props + todo)%nat.
Proof.
  induction todo as [|todo IH]; intros offset props ds props' ds' H; simpl in H.
  - inv_bind H. lia.
  - inv_bind H. apply IH in H.
    destruct ((a =? ROOT) || (a =? DIRECTORY) || (a =? DOCUMENT));
      inv_bind Hstep0; rewrite length_app in H; simpl in H; lia.
Qed.

Lemma propertyLoop_length m file n off :
  chainEnds (nextBlockOf m file) n off ->
  forall fuel props ds props' ds',
    clean file ds ->
    propertyLoop fuel m off props ds = Ok (props', ds') ->
    length props'
    = (length props + n * Z.to_nat (bigBlockSize m / PROPERTY_SIZE))%nat.
Proof.
  induction 1 as [|n off off' Hne Hnext Hch IH];
    intros fuel props ds props' ds' Hcl H.
  - destruct fuel as [|f]; [done|]. simpl in H. inv_bind H. lia.
  - destruct fuel as [|f]; [done|]. simpl in H. rewrite Hne in H.
    apply bind_Ok in H as (props1 & ds1 & Hconv & H).
    assert (clean file ds1) as Hcl1
      by (eapply tame_convertBlockToProperties; eauto).
    apply valueOn_Ok in Hnext as (ds2 & Hnext).
    unfold bind, getNextBlock in *.
    rewrite (posfree_clean _ file ds1 (posfree_getNextBlockInner _ _ _) Hcl1) in H.
    rewrite Hnext in H.
    apply IH in H.
    2:{ eapply (tame_getNextBlockInner m off); [|exact Hnext]. by split. }
    unfold convertBlockToProperties in Hconv.
    apply convertBlockLoop_length in Hconv. lia.
Qed.

(** X7.  The size of the directory: when the directory chain reaches the
    end-of-chain mark after [n] sectors, the directory [#propertyData]
    returns has one slot for each 128 bytes of these [n] sectors. *)
Theorem propertyData_size
    (fuel stack : nat) (m : msgData) (file : list Z) (n : nat) (ds ds' : DataStream)
    (props : list (option property)) :
  clean file ds ->
  chainEnds (nextBlockOf m file) n (Int (propertyStart m)) ->
  propertyData_ fuel stack m ds = Ok (props, ds') ->
  length props = (n * Z.to_nat (bigBlockSize m / PROPERTY_SIZE))%nat.
Proof.
  intros Hcl Hch H. unfold propertyData_ in H.
  apply bind_Ok in H as (props0 & ds0 & Hloop & H).
  apply liftR_Ok in H as [H ->].
  apply (proj1 (hierarchy_length fuel) stack) in H.
  apply (propertyLoop_length m file n _ Hch _ _ _ _ _ Hcl) in Hloop.
  simpl in Hloop. lia.
Qed.

(** The directory of the test message: two sectors of four entries. *)
Lemma propertyData_size_witness :
  clean msgFile (newDataStream msgFile)
  /\ chainEnds (nextBlockOf msgTables msgFile) 2 (Int (propertyStart msgTables))
  /\ propertyData_ 16 16 msgTables (newDataStream msgFile)
     = Ok (propertyData msgTables, streamAfter (propertyData_ 16 16 msgTables) msgFile)
  /\ length (propertyData msgTables)
     = (2 * Z.to_nat (bigBlockSize msgTables / PROPERTY_SIZE))%nat.
Proof.
  assert (clean msgFile (newDataStream msgFile)) as H1 by (split; reflexivity).
  assert (chainEnds (nextBlockOf msgTables msgFile) 2 (Int (propertyStart msgTables)))
    as H2.
  { eapply chain_step; [vm_compute; reflexivity | vm_compute; reflexivity |].
    eapply chain_step; [vm_compute; reflexivity | vm_compute; reflexivity |].
    apply chain_end. }
  assert (propertyData_ 16 16 msgTables (newDataStream msgFile)
          = Ok (propertyData msgTables,
                streamAfter (propertyData_ 16 16 msgTables) msgFile)) as H3
    by (vm_compute; reflexivity).
  split; [exact H1|]. split; [exact H2|]. split; [exact H3|].
  exact (propertyData_size 16 16 msgTables msgFile 2 _ _ _ H1 H2 H3).
Defined.

(** ** The signature check *)

Lemma toInt32_mod z : toInt32 z mod 2 ^ 32 = z mod 2 ^ 32.
Proof.
  unfold toInt32. destruct (Z.ltb_spec (z mod 2 ^ 32) (2 ^ 31)).
  - apply Z.mod_mod. lia.
  - rewrite <- (Z.mul_1_l (2 ^ 32)) at 2. rewrite <- Z.add_opp_r, <- Z.mul_opp_l.
    rewrite Z.mod_add by lia. apply Z.mod_mod. lia.
Qed.

Lemma sign_byte (d : Z) : js_sar (js_shl d 24) 24 = toSigned 8 d.
Proof.
  unfold js_sar, js_shl. change (24 mod 32) with 24.
  rewrite Z.shiftl_mul_pow2 by lia.
  set (r := d mod 2 ^ 8).
  assert (0 <= r < 2 ^ 8) as Hr by (apply Z.mod_pos_bound; lia).
  assert ((toInt32 d * 2 ^ 24) mod 2 ^ 32 = r * 2 ^ 24) as Hm.
  { change (2 ^ 32) with (2 ^ 8 * 2 ^ 24).
    rewrite Z.mul_mod_distr_r by lia. f_equal.
    pose proof (toInt32_mod d) as H.
    apply (f_equal (fun x => x mod 2 ^ 8)) in H. cbv beta in H.
    rewrite !Z.mod_mod_divide in H by (exists (2 ^ 24); reflexivity).
    exact H. }
  rewrite toInt32_id by apply toInt32_range.
  unfold toInt32 at 1. rewrite Hm. unfold toSigned. fold r.
  change (2 ^ (8 - 1)) with 128. change (2 ^ 8) with 256 in *.
  rewrite Z.shiftr_div_pow2 by lia.
  destruct (Z.ltb_spec r 128), (Z.ltb_spec (r * 2 ^ 24) (2 ^ 31)); try lia.
  - by rewrite Z.div_mul.
  - replace (r * 2 ^ 24 - 2 ^ 32) with ((r - 256) * 2 ^ 24) by lia.
    by rewrite Z.div_mul.
Qed.

Lemma toSigned8_range d : -128 <= toSigned 8 d < 128.
Proof.
  unfold toSigned. pose proof (Z.mod_pos_bound d (2 ^ 8) eq_refl).
  change (2 ^ (8 - 1)) with 128. change (2 ^ 8) with 256 in *.
  destruct (Z.ltb_spec (d mod 256) 128); lia.
Qed.

Lemma toSigned8_mod d : toSigned 8 d mod 256 = d mod 256.
Proof.
  unfold toSigned. change (2 ^ (8 - 1)) with 128. change (2 ^ 8) with 256.
  destruct (Z.ltb_spec (d mod 256) 128).
  - apply Z.mod_mod. lia.
  - rewrite <- (Z.mul_1_l 256) at 2. rewrite <- Z.add_opp_r, <- Z.mul_opp_l.
    rewrite Z.mod_add by lia. apply Z.mod_mod. lia.
Qed.

(** X8.  [#uInt2int] turns every number into the signed byte with the same
    low eight bits: the results lie in -128 .. 127, a byte is recovered
    from its result modulo 256, and the signature constant of the class is
    the list of the signed signature bytes. *)
Theorem uInt2int_signed_bytes (data : list Z) :
  uInt2int data = map (toSigned 8) data
  /\ Forall (fun v => -128 <= v < 128) (uInt2int data)
  /\ map (fun v => v mod 256) (uInt2int data) = map (fun d => d mod 256) data
  /\ uInt2int signature = FILE_HEADER.
Proof.
  assert (uInt2int data = map (toSigned 8) data) as E
    by (apply map_ext; intros d; apply sign_byte).
  split; [exact E|]. rewrite E. split_and!.
  - apply Forall_map, Forall_forall. intros d _. apply toSigned8_range.
  - rewrite map_map. apply map_ext. intros d. apply toSigned8_mod.
  - unfold uInt2int, FILE_HEADER. apply map_ext. intros d. apply sign_byte.
Qed.

Lemma toSigned8_byte_inj (l1 l2 : list Z) :
  Forall isByte l1 -> Forall isByte l2 ->
  map (toSigned 8) l1 = map (toSigned 8) l2 -> l1 = l2.
Proof.
  intros H1 H2 E.
  apply (f_equal (map (fun v => v mod 256))) in E.
  rewrite !map_map in E.
  assert (forall l, Forall isByte l -> map (fun d => toSigned 8 d mod 256) l = l) as Hid.
  { intros l Hl. induction Hl as [|d l Hd Hl IH]; [done|]. simpl.
    rewrite IH, toSigned8_mod. f_equal. apply Z.mod_small. exact Hd. }
  by rewrite !Hid in E.
Qed.

Lemma isMSGFile_new (file : list Z) :
  isMSGFile (newDataStream file)
  = if len file <? 8 then Throw RangeError
    else Ok (bool_decide (map (toSigned 8) (take 8 file) = FILE_HEADER),
             mkDataStream file (len file) 8).
Proof.
  unfold isMSGFile, copyBytes, bind, seek, trimAlloc, newDataStream, ret. simpl.
  rewrite Z.max_r by (unfold len; lia).
  replace (Z.min (len file) 0) with 0 by (unfold len; lia).
  rewrite Z.eqb_refl. simpl.
  change (len FILE_HEADER) with 8. change (8 <? 0) with false. simpl.
  change (0 + 8) with 8.
  destruct (Z.ltb_spec (len file) 8); [done|].
  unfold slice. change (Z.to_nat 0) with 0%nat. by rewrite drop_0.
Qed.

Section Signature.
Variable MAPI_PROPERTIES : list Z -> option (list Z).
Variable toLowerCase : list Z -> list Z.
Variable utf8Decode : list Z -> list Z.

Local Abbreviation parse := (parse MAPI_PROPERTIES toLowerCase utf8Decode).

(** X9.  The check of the constructor.  A buffer of fewer than 8 bytes
    makes the constructor throw a [RangeError]; on a longer buffer
    [#isMSGFile] answers whether the first 8 bytes are the signature of a
    compound file and leaves the cursor after them, and the constructor
    throws the error [Unsupported file type!] when they are not. *)
Theorem constructor_checks_signature (fuel stack : nat) (file : list Z) :
  Forall isByte file ->
  (len file < 8 -> parse fuel stack file = Throw RangeError)
  /\ (8 <= len file ->
      isMSGFile (newDataStream file)
      = Ok (bool_decide (take 8 file = signature), mkDataStream file (len file) 8))
  /\ (8 <= len file -> take 8 file <> signature ->
      parse fuel stack file = Throw (Error "Unsupported file type!")).
Proof.
  intros Hbytes.
  assert (bool_decide (map (toSigned 8) (take 8 file) = FILE_HEADER)
          = bool_decide (take 8 file = signature)) as Hdec.
  { apply bool_decide_ext. split.
    - intros E. apply toSigned8_byte_inj; [|by repeat constructor|exact E].
      by apply Forall_take.
    - by intros ->. }
  split_and!.
  - intros Hlen. unfold parse, parseMsgData.
    unfold bind at 1, liftDS at 1. simpl.
    rewrite isMSGFile_new.
    destruct (Z.ltb_spec (len file) 8); [done | lia].
  - intros Hlen. rewrite isMSGFile_new, Hdec.
    destruct (Z.ltb_spec (len file) 8); [lia | done].
  - intros Hlen Hsig. unfold parse, parseMsgData.
    unfold bind at 1, liftDS at 1. simpl.
    rewrite isMSGFile_new, Hdec.
    destruct (Z.ltb_spec (len file) 8); [lia|].
    by rewrite bool_decide_eq_false_2.
Qed.

End Signature.

(** A buffer of sixteen zero bytes. *)
Lemma constructor_checks_signature_witness :
  Forall isByte (repeat 0 16)
  /\ isMSGFile (newDataStream (repeat 0 16))
     = Ok (bool_decide (take 8 (repeat 0 16) = signature),
           mkDataStream (repeat 0 16) (len (repeat 0 16)) 8)
  /\ parseFile 8 8 (repeat 0 16) = Throw (Error "Unsupported file type!").
Proof.
  assert (Forall isByte (repeat 0 16)) as H
    by (apply List.Forall_forall; intros x ->%repeat_spec; unfold isByte; lia).
  assert (8 <= len (repeat 0 16)) as Hlen by (vm_compute; discriminate).
  assert (take 8 (repeat 0 16) <> signature) as Hsig
    by (intros E; vm_compute in E; discriminate E).
  destruct (constructor_checks_signature mapiExcerpt asciiLower (fun b => b)
              8 8 (repeat 0 16) H) as (_ & H2 & H3).
  split; [exact H|]. split; [exact (H2 Hlen) | exact (H3 Hlen Hsig)].
Defined.

(** ** The header and the allocation tables *)

Lemma readInt_clean file p off :
  0 <= off ->
  readInt (Int off) (mkDataStream file (len file) p)
  = if off + 4 <=? len file
    then Ok (int32At file off, mkDataStream file (len file) (off + 4))
    else Throw RangeError.
Proof.
  intros Hoff. unfold readInt, readInt32, seek, viewBytes, bind, ret. simpl.
  destruct (Z.leb_spec (off + 4) (len file)).
  - rewrite Z.min_r, Z.max_r by lia.
    destruct (Z.leb_spec (off + 4) (len file)); [done | lia].
  - destruct (Z.leb_spec (Z.max 0 (Z.min (len file) off) + 4) (len file)); [lia | done].
Qed.

Lemma readByte_clean file p off :
  0 <= off ->
  readByte (Int off) (mkDataStream file (len file) p)
  = if off + 1 <=? len file
    then Ok (int8At file off, mkDataStream file (len file) (off + 1))
    else Throw RangeError.
Proof.
  intros Hoff. unfold readByte, readInt8, seek, viewBytes, bind, ret. simpl.
  destruct (Z.leb_spec (off + 1) (len file)).
  - rewrite Z.min_r, Z.max_r by lia.
    destruct (Z.leb_spec (off + 1) (len file)); [done | lia].
  - destruct (Z.leb_spec (Z.max 0 (Z.min (len file) off) + 1) (len file)); [lia | done].
Qed.

Lemma bind_readByte_clean {B} file p off (k : Z -> M DataStream B) :
  0 <= off ->
  bind (readByte (Int off)) k (mkDataStream file (len file) p)
  = if off + 1 <=? len file
    then k (int8At file off) (mkDataStream file (len file) (off + 1))
    else Throw RangeError.
Proof.
  intros Hoff. unfold bind. rewrite readByte_clean by done.
  by destruct (off + 1 <=? len file).
Qed.

Lemma bind_readInt_clean {B} file p off (k : Z -> M DataStream B) :
  0 <= off ->
  bind (readInt (Int off)) k (mkDataStream file (len file) p)
  = if off + 4 <=? len file
    then k (int32At file off) (mkDataStream file (len file) (off + 4))
    else Throw RangeError.
Proof.
  intros Hoff. unfold bind. rewrite readInt_clean by done.
  by destruct (off + 4 <=? len file).
Qed.

(** X10.  [#headerData] on a file of at least 76 bytes: the sector size is
    4096 when byte 30 is 12 and 512 otherwise, a sector holds a quarter of
    it in table entries, and the six counts and start sectors are the
    signed little-endian integers at the offsets 0x2C, 0x30, 0x3C, 0x40,
    0x44 and 0x48; the cursor is left at offset 76, where the table of the
    header starts.  On a shorter file it throws a [RangeError]. *)
Theorem headerData_fields (file : list Z) (ds : DataStream) :
  clean file ds ->
  (76 <= len file ->
   headerData ds
   = Ok (mkMsgData (sectorSize file) (sectorSize file / 4) (sectorSize file / 4 - 1)
           (int32At file 0x2C) (int32At file 0x30) (int32At file 0x3C)
           (int32At file 0x40) (int32At file 0x44) (int32At file 0x48) [] [] [],
         mkDataStream file (len file) 76))
  /\ (len file < 76 -> headerData ds = Throw RangeError).
Proof.
  intros [Hb Hl]. destruct ds as [buf bl pos]. simpl in Hb, Hl. subst buf bl.
  unfold headerData, BAT_COUNT_OFFSET, PROPERTY_START_OFFSET, SBAT_START_OFFSET,
    SBAT_COUNT_OFFSET, XBAT_START_OFFSET, XBAT_COUNT_OFFSET.
  rewrite bind_readByte_clean by lia.
  destruct (Z.leb_spec (30 + 1) (len file)); [|split; [intros; lia | done]].
  rewrite bind_readInt_clean by lia.
  destruct (Z.leb_spec (44 + 4) (len file)); [|split; [intros; lia | done]].
  rewrite bind_readInt_clean by lia.
  destruct (Z.leb_spec (48 + 4) (len file)); [|split; [intros; lia | done]].
  rewrite bind_readInt_clean by lia.
  destruct (Z.leb_spec (60 + 4) (len file)); [|split; [intros; lia | done]].
  rewrite bind_readInt_clean by lia.
  destruct (Z.leb_spec (64 + 4) (len file)); [|split; [intros; lia | done]].
  rewrite bind_readInt_clean by lia.
  destruct (Z.leb_spec (68 + 4) (len file)); [|split; [intros; lia | done]].
  rewrite bind_readInt_clean by lia.
  destruct (Z.leb_spec (72 + 4) (len file)); [|split; [intros; lia | done]].
  split; [done | intros; lia].
Qed.

(** The header of the test message. *)
Lemma headerData_fields_witness :
  clean msgFile (newDataStream msgFile)
  /\ headerData (newDataStream msgFile)
     = Ok (mkMsgData 512 128 127 1 1 3 1 (-2) 0 [] [] [],
           mkDataStream msgFile (len msgFile) 76).
Proof.
  assert (clean msgFile (newDataStream msgFile)) as H by (split; reflexivity).
  split; [exact H|].
  destruct (headerData_fields msgFile (newDataStream msgFile) H) as [H1 _].
  rewrite H1 by (vm_compute; discriminate).
  vm_compute; reflexivity.
Defined.

Lemma readInt32_clean file p :
  readInt32 (mkDataStream file (len file) p)
  = if p + 4 <=? len file
    then Ok (int32At file p, mkDataStream file (len file) (p + 4))
    else Throw RangeError.
Proof.
  unfold readInt32, viewBytes, bind, ret. simpl.
  by destruct (p + 4 <=? len file).
Qed.

Lemma readInt32s_clean file (k : nat) : forall p,
  p + 4 * Z.of_nat k <= len file ->
  readInt32s k (mkDataStream file (len file) p)
  = Ok (map (fun i => int32At file (p + 4 * Z.of_nat i)) (seq 0 k),
        mkDataStream file (len file) (p + 4 * Z.of_nat k)).
Proof.
  induction k as [|k IH]; intros p Hp.
  - simpl. unfold ret. do 3 f_equal. lia.
  - cbn [readInt32s]. unfold bind at 1. rewrite readInt32_clean.
    destruct (Z.leb_spec (p + 4) (len file)); [|lia].
    unfold bind at 1. rewrite IH by lia. unfold ret.
    f_equal. f_equal.
    + cbn [seq map]. f_equal; [f_equal; lia|].
      rewrite <- seq_shift, map_map. apply map_ext. intros i. f_equal. lia.
    + f_equal. lia.
Qed.

Lemma readInt32s_short file (k : nat) : forall p,
  len file < p + 4 * Z.of_nat k -> (0 < k)%nat ->
  readInt32s k (mkDataStream file (len file) p) = Throw RangeError.
Proof.
  induction k as [|k IH]; intros p Hp Hk; [lia|].
  cbn [readInt32s]. unfold bind at 1. rewrite readInt32_clean.
  destruct (Z.leb_spec (p + 4) (len file)); [|done].
  unfold bind at 1. rewrite IH; [done | lia | lia].
Qed.

(** X11.  [#batData], the part of the allocation table that sits in the
    header.  With [n] the smaller of the declared count and 109: a negative
    [n] throws a [RangeError]; when the file has the [n] entries, the
    result is the [n] signed little-endian integers found from offset 76
    on, in order, and the cursor is left after them; when the file ends
    before, the read throws a [RangeError]. *)
Theorem batData_entries (m : msgData) (file : list Z) (ds : DataStream) :
  clean file ds ->
  batCountInHeader m <= 109
  /\ (batCountInHeader m < 0 -> batData_ m ds = Throw RangeError)
  /\ (0 <= batCountInHeader m -> 76 + 4 * batCountInHeader m <= len file ->
      batData_ m ds
      = Ok (map (fun i => int32At file (76 + 4 * Z.of_nat i))
              (seq 0 (Z.to_nat (batCountInHeader m))),
            mkDataStream file (len file) (76 + 4 * batCountInHeader m)))
  /\ (0 < batCountInHeader m -> len file < 76 + 4 * batCountInHeader m ->
      batData_ m ds = Throw RangeError).
Proof.
  intros [Hb Hl]. destruct ds as [buf bl pos]. simpl in Hb, Hl. subst buf bl.
  set (n := batCountInHeader m).
  assert (n <= 109) as Hn by (unfold n, batCountInHeader; apply Z.le_min_r).
  unfold batData_. fold n. split_and!.
  - exact Hn.
  - intros H. by destruct (Z.ltb_spec n 0); [|lia].
  - intros H0 Hlen. destruct (Z.ltb_spec n 0); [lia|].
    unfold bind, seek. simpl. change BAT_START_OFFSET with 76.
    rewrite Z.min_r, Z.max_r by lia.
    rewrite readInt32s_clean by lia. do 3 f_equal. lia.
  - intros H0 Hlen. destruct (Z.ltb_spec n 0); [lia|].
    unfold bind, seek. simpl. change BAT_START_OFFSET with 76.
    rewrite readInt32s_short; [done | lia | lia].
Qed.

(** The test message: one entry, the sector 0. *)
Lemma batData_entries_witness :
  clean msgFile (newDataStream msgFile)
  /\ batData_ msgTables (newDataStream msgFile)
     = Ok (map (fun i => int32At msgFile (76 + 4 * Z.of_nat i))
             (seq 0 (Z.to_nat (batCountInHeader msgTables))),
           mkDataStream msgFile (len msgFile) (76 + 4 * batCountInHeader msgTables))
  /\ map (fun i => int32At msgFile (76 + 4 * Z.of_nat i))
       (seq 0 (Z.to_nat (batCountInHeader msgTables))) = [0].
Proof.
  assert (clean msgFile (newDataStream msgFile)) as H by (split; reflexivity).
  split; [exact H|]. split; [|vm_compute; reflexivity].
  destruct (batData_entries msgTables msgFile (newDataStream msgFile) H)
    as (_ & _ & H3 & _).
  apply H3; vm_compute; discriminate.
Defined.

Lemma chunks_lookup (n k : nat) : forall (l : list Z) (i : nat),
  (i < k)%nat -> chunks n k l !! i = Some (take n (drop (i * n) l)).
Proof.
  induction k as [|k IH]; intros l i Hi; [lia|].
  destruct i as [|i]; simpl; [done|].
  rewrite IH by lia. by rewrite drop_drop.
Qed.

Lemma slice_slice (file : list Z) (pos n a c : Z) :
  0 <= pos -> 0 <= a -> 0 <= c -> a + c <= n ->
  take (Z.to_nat c) (drop (Z.to_nat a) (slice file pos n)) = slice file (pos + a) c.
Proof.
  intros Hp Ha Hc Hn. unfold slice.
  replace (Z.to_nat n) with (Z.to_nat a + (Z.to_nat n - Z.to_nat a))%nat by lia.
  rewrite <- take_drop_commute, take_take, drop_drop.
  f_equal; [lia|]. f_equal. lia.
Qed.

(** X12.  A look-up in an allocation table, [#getNextBlockInner]: the
    successor of sector [o] is the entry [o mod L] of the table sector
    number [o / L], where [L] is the number of entries of a sector; when
    the list of table sectors gives the sector [sec] for it and this sector
    lies within the file, the result is the signed little-endian integer
    at the place of that entry, and the file is not changed. *)
Theorem allocation_table_lookup
    (m : msgData) (file : list Z) (ds : DataStream) (table : list num) (o sec : Z) :
  clean file ds ->
  0 < bigBlockLength m -> 0 <= bigBlockSize m -> 0 <= o -> 0 <= sec ->
  table !! Z.to_nat (o / bigBlockLength m) = Some (Int sec) ->
  (sec + 1) * bigBlockSize m + 4 * bigBlockLength m <= len file ->
  getNextBlockInner m (Int o) table ds
  = Ok (Int (int32At file ((sec + 1) * bigBlockSize m
                           + 4 * (o mod bigBlockLength m))),
        mkDataStream file (len file)
          ((sec + 1) * bigBlockSize m + 4 * bigBlockLength m)).
Proof.
  intros [Hb Hl] HL HB Ho Hsec Htab Hlen.
  destruct ds as [buf bl pos]. simpl in Hb, Hl. subst buf bl.
  set (L := bigBlockLength m) in *. set (B := bigBlockSize m) in *.
  assert (0 <= o / L) as Hq by (apply Z.div_pos; lia).
  assert (0 <= o mod L < L) as Hr by (apply Z.mod_pos_bound; lia).
  assert (0 <= (sec + 1) * B) as Hpos by nia.
  unfold getNextBlockInner, getBlockAt, getBlockOffsetAt, num_map, elementAt.
  fold L B. destruct (Z.leb_spec 0 (o / L)); [|lia]. rewrite Htab.
  unfold readInt32Array, copyBytes, trimAlloc, seek, bind, ret. simpl.
  rewrite Z.eqb_refl. simpl.
  rewrite Z.min_r, Z.max_r by lia.
  destruct (Z.ltb_spec (L * 4) 0); [lia|].
  destruct (Z.ltb_spec (len file) ((sec + 1) * B + L * 4)); [lia|]. simpl.
  rewrite Z.rem_mod_nonneg by lia.
  destruct (Z.leb_spec 0 (o mod L)); [|lia].
  rewrite list_lookup_fmap, chunks_lookup by lia. simpl.
  f_equal. f_equal.
  - f_equal. unfold int32At. do 2 f_equal.
    change 4%nat with (Z.to_nat 4).
    replace (Z.to_nat (o mod L) * Z.to_nat 4)%nat with (Z.to_nat (4 * (o mod L))) by lia.
    apply slice_slice; lia.
  - f_equal. lia.
Qed.

(** The successor of sector 1 in the test message, the second sector of
    its directory. *)
Lemma allocation_table_lookup_witness :
  clean msgFile (newDataStream msgFile)
  /\ getNextBlock msgTables (Int 1) (newDataStream msgFile)
     = Ok (Int (int32At msgFile ((0 + 1) * bigBlockSize msgTables
                                 + 4 * (1 mod bigBlockLength msgTables))),
           mkDataStream msgFile (len msgFile)
             ((0 + 1) * bigBlockSize msgTables + 4 * bigBlockLength msgTables))
  /\ int32At msgFile ((0 + 1) * bigBlockSize msgTables
                      + 4 * (1 mod bigBlockLength msgTables)) = 2.
Proof.
  assert (clean msgFile (newDataStream msgFile)) as H by (split; reflexivity).
  split; [exact H|]. split; [|vm_compute; reflexivity].
  apply (allocation_table_lookup msgTables msgFile (newDataStream msgFile)
           (map Int (batData msgTables)) 1 0 H); vm_compute; try reflexivity;
    discriminate.
Defined.

(** ** What the decoder does to the stream *)

Lemma tame_keepsClean {A} (c : M DataStream A) : tame c -> keepsClean c.
Proof. intros [_ H]. exact H. Qed.

Lemma keepsClean_bind {A B} (c : M DataStream A) (k : A -> M DataStream B) :
  keepsClean c -> (forall a, keepsClean (k a)) -> keepsClean (bind c k).
Proof.
  intros Hc Hk file ds b ds' Hcl H. apply bind_Ok in H as (a & s & H1 & H2).
  eapply Hk; [|exact H2]. by eapply Hc.
Qed.

Lemma keepsClean_ret {A} (a : A) : keepsClean (ret a).
Proof. apply tame_keepsClean, tame_ret. Qed.

Lemma keepsClean_throw {A} e : keepsClean (@throw DataStream A e).
Proof. apply tame_keepsClean, tame_throw. Qed.

Lemma keepsClean_liftR {A} (r : result A) : keepsClean (liftR r).
Proof. intros file ds a ds' Hcl H. by apply liftR_Ok in H as [_ ->]. Qed.

Lemma keepsClean_onLocal {A} l (c : M DataStream A) : keepsClean (onLocal l c).
Proof.
  intros file ds a ds' Hcl. unfold onLocal.
  destruct (c l) as [[x l']| |]; [|done..]. by intros [= _ <-].
Qed.

Lemma keepsClean_readInt32s n : keepsClean (readInt32s n).
Proof.
  induction n as [|n IH]; simpl; [apply keepsClean_ret|].
  apply keepsClean_bind; [apply tame_keepsClean; unfold readInt32; tame|].
  intros v. apply keepsClean_bind; [exact IH | intros ?; apply keepsClean_ret].
Qed.

Lemma keepsClean_getNextBlockInner m o t : keepsClean (getNextBlockInner m o t).
Proof. apply tame_keepsClean, tame_getNextBlockInner. Qed.

Lemma keepsClean_sbatLoop m todo : forall start res, keepsClean (sbatLoop m todo start res).
Proof.
  induction todo as [|todo IH]; intros start res; simpl; [apply keepsClean_ret|].
  destruct (is_num start END_OF_CHAIN); [apply keepsClean_ret|].
  apply keepsClean_bind; [apply keepsClean_getNextBlockInner | intros ?; apply IH].
Qed.

Lemma keepsClean_xbatLoop m todo : forall next rem tbl,
  keepsClean (xbatLoop m todo next rem tbl).
Proof.
  induction todo as [|todo IH]; intros next rem tbl; simpl; [apply keepsClean_ret|].
  apply keepsClean_bind; [apply tame_keepsClean, tame_getBlockAt | intros ?; apply IH].
Qed.

Lemma keepsClean_propertyLoop fuel m : forall off props,
  keepsClean (propertyLoop fuel m off props).
Proof.
  induction fuel as [|f IH]; intros off props; simpl.
  - by intros file ds a ds' _ H.
  - destruct (is_num off END_OF_CHAIN); [apply keepsClean_ret|].
    apply keepsClean_bind;
      [apply tame_keepsClean, tame_convertBlockToProperties | intros ?].
    apply keepsClean_bind; [apply keepsClean_getNextBlockInner | intros ?; apply IH].
Qed.

Lemma keepsClean_chainBySmall fuel m : forall next chain,
  keepsClean (chainBySmall fuel m next chain).
Proof.
  induction fuel as [|f IH]; intros next chain; simpl.
  - by intros file ds a ds' _ H.
  - destruct (is_num next END_OF_CHAIN); [apply keepsClean_ret|].
    apply keepsClean_bind; [apply keepsClean_getNextBlockInner | intros ?; apply IH].
Qed.

Lemma keepsClean_followBlocks m n : forall next, keepsClean (followBlocks m n next).
Proof.
  induction n as [|n IH]; intros next; simpl; [apply keepsClean_ret|].
  apply keepsClean_bind; [apply keepsClean_getNextBlockInner | intros ?; apply IH].
Qed.

Lemma keepsClean_sbatDataType t a b n :
  t <> TString -> keepsClean (sbatDataType t a b n).
Proof.
  intros Ht. unfold sbatDataType.
  apply keepsClean_bind; [apply tame_keepsClean, tame_seek | intros _].
  destruct t; [done | |].
  - apply keepsClean_bind; [|intros ?; apply keepsClean_ret].
    apply tame_keepsClean. unfold readUCS2String, readUint16Array. tame.
  - apply keepsClean_bind; [|intros ?; apply keepsClean_ret].
    apply tame_keepsClean, tame_readUint8Array.
Qed.

Lemma keepsClean_readDataByBlockSmall m c n t :
  t <> TString -> keepsClean (readDataByBlockSmall m c n t).
Proof.
  intros Ht. unfold readDataByBlockSmall.
  destruct (entryAt (propertyData m) 0); [|apply keepsClean_throw].
  apply keepsClean_bind; [apply keepsClean_followBlocks | intros ?].
  by apply keepsClean_sbatDataType.
Qed.

Lemma keepsClean_chainLoop m chain : forall res idx, keepsClean (chainLoop m chain res idx).
Proof.
  induction chain as [|c chain IH]; intros res idx; simpl; [apply keepsClean_ret|].
  apply keepsClean_bind; [by apply keepsClean_readDataByBlockSmall | intros v].
  destruct v; try apply keepsClean_throw.
  destruct (storeAll res idx b). apply IH.
Qed.

(** X13.  Decoding the container does not change the file: the header, the
    three allocation tables, the directory, the walk of a small-block chain
    and the read of a stream of binary or unicode type move the cursor and
    nothing else; the buffer of the stream and its length are afterwards
    what they were. *)
Theorem decoding_leaves_the_file
    (fuel stack : nat) (m : msgData) (fp : property) (t : dtype) :
  keepsClean headerData
  /\ keepsClean (batData_ m) /\ keepsClean (sbatData_ m) /\ keepsClean (xbatData m)
  /\ keepsClean (propertyData_ fuel stack m)
  /\ keepsClean (getChainByBlockSmall fuel m fp)
  /\ (t <> TString -> keepsClean (getFieldValue fuel m fp (Some t))).
Proof.
  split_and!.
  - apply tame_keepsClean. unfold headerData.
    repeat first [ apply tame_ret | apply tame_readByte | apply tame_readInt
                 | apply tame_bind; [|intros ?] ].
  - unfold batData_. destruct (_ <? 0); [apply keepsClean_throw|].
    apply keepsClean_bind; [apply tame_keepsClean, tame_seek | intros _].
    apply keepsClean_readInt32s.
  - apply keepsClean_sbatLoop.
  - unfold xbatData.
    apply keepsClean_bind; [apply keepsClean_xbatLoop | intros ?; apply keepsClean_ret].
  - unfold propertyData_.
    apply keepsClean_bind; [apply keepsClean_propertyLoop | intros ?].
    apply keepsClean_liftR.
  - apply keepsClean_chainBySmall.
  - intros Ht. unfold getFieldValue, extractor. destruct (valueExtractor fp).
    + unfold extractDataViaSbat.
      apply keepsClean_bind; [apply keepsClean_chainBySmall | intros chain].
      destruct (len chain =? 1); [by apply keepsClean_readDataByBlockSmall|].
      destruct (1 <? len chain); [|apply keepsClean_ret].
      unfold readChainDataByBlockSmall.
      destruct (sizeBlock fp <? 0); [apply keepsClean_throw|].
      apply keepsClean_bind; [apply keepsClean_chainLoop | intros ?].
      apply keepsClean_onLocal.
    + unfold extractDataViaBat.
      apply keepsClean_bind; [apply tame_keepsClean, tame_seek | intros _].
      unfold batDataType. destruct t; [done | |].
      * apply keepsClean_bind; [|intros ?; apply keepsClean_ret].
        apply tame_keepsClean. unfold readUCS2String, readUint16Array. tame.
      * apply keepsClean_bind; [|intros ?; apply keepsClean_ret].
        apply tame_keepsClean, tame_readUint8Array.
Qed.

Lemma doubleUntil_reaches (fuel : nat) : forall req blen,
  1 <= blen -> req <= blen * 2 ^ Z.of_nat fuel -> req <= doubleUntil fuel req blen.
Proof.
  induction fuel as [|f IH]; intros req blen Hb Hr; simpl.
  - simpl in Hr. lia.
  - destruct (Z.ltb_spec blen req); [|lia].
    apply IH; [lia|]. rewrite Nat2Z.inj_succ, Z.pow_succ_r in Hr by lia. lia.
Qed.

Lemma doubleUntil_grows (fuel : nat) : forall req blen,
  1 <= blen -> blen <= doubleUntil fuel req blen.
Proof.
  induction fuel as [|f IH]; intros req blen Hb; simpl; [lia|].
  destruct (Z.ltb_spec blen req); [|lia].
  specialize (IH req (blen * 2)). lia.
Qed.

Lemma take_app_zeros (A : list Z) (n k : nat) :
  (length A <= n)%nat -> (n <= length A + k)%nat ->
  take n (A ++ repeat 0 k) = A ++ repeat 0 (n - length A).
Proof.
  intros H1 H2. rewrite take_app_ge by done. rewrite take_repeat.
  do 2 f_equal. lia.
Qed.

(** X14.  A string read that runs past the end of the data does not fail:
    [readString] of [n] bytes gives the bytes that are left followed by
    NUL characters, [n] code units in all, and the stream has grown to hold
    them.  A read of the same bytes as a byte array throws a
    [RangeError]. *)
Theorem readString_pads_with_zeros (file : list Z) (ds : DataStream) (n : Z) :
  clean file ds -> 0 <= position ds <= len file -> 0 <= n ->
  (exists ds' k,
      readString n ds
      = Ok (take (Z.to_nat n)
              (drop (Z.to_nat (position ds)) file ++ repeat 0 (Z.to_nat n)), ds')
      /\ position ds' = position ds + n
      /\ byteLength ds' = Z.max (len file) (position ds + n)
      /\ buffer ds' = file ++ repeat 0 k)
  /\ (len file < position ds + n -> readUint8Array n ds = Throw RangeError).
Proof.
  intros [Hb Hl] Hp Hn. destruct ds as [buf bl p].
  cbn [buffer byteLength position] in *. subst buf bl.
  split.
  - unfold readString, mapUint8Array, realloc, bind, ret, createStringFromArray.
    cbn [buffer byteLength position].
    destruct (Z.leb_spec (p + n) (len file)) as [Hfit | Hpast].
    + destruct (Z.ltb_spec (len file) (p + n)); [lia|].
      cbn [buffer byteLength position].
      destruct (Z.ltb_spec n 0); [lia|].
      destruct (Z.ltb_spec (len file) (p + n)); [lia|]. cbn [orb].
      exists (mkDataStream file (len file) (p + n)), 0%nat.
      cbn [buffer byteLength position].
      split_and!; [| reflexivity | lia | by rewrite app_nil_r].
      do 2 f_equal. unfold slice.
      rewrite take_app_le; [done|]. rewrite length_drop. unfold len in *. lia.
    + set (blen1 := if len file <? 1 then 1 else len file).
      set (blen2 := doubleUntil (Z.to_nat (p + n)) (p + n) blen1).
      assert (1 <= blen1) as H1
        by (unfold blen1; destruct (Z.ltb_spec (len file) 1); unfold len in *; lia).
      assert (len file <= blen1) as H1'
        by (unfold blen1; destruct (Z.ltb_spec (len file) 1); lia).
      assert (p + n <= blen2) as H2.
      { apply doubleUntil_reaches; [done|]. rewrite Z2Nat.id by lia.
        pose proof (Z.pow_gt_lin_r 2 (p + n) ltac:(lia) ltac:(lia)). nia. }
      cbn [buffer byteLength position]. destruct (Z.ltb_spec n 0); [lia|].
      assert (len (file ++ repeat 0 (Z.to_nat (blen2 - len file))) = blen2) as Hlen.
      { rewrite len_app. unfold len at 2. rewrite repeat_length. lia. }
      rewrite Hlen. destruct (Z.ltb_spec blen2 (p + n)); [lia|]. cbn [orb].
      exists (mkDataStream (file ++ repeat 0 (Z.to_nat (blen2 - len file)))
                (p + n) (p + n)), (Z.to_nat (blen2 - len file)).
      cbn [buffer byteLength position].
      split_and!; [| reflexivity | lia | reflexivity].
      do 2 f_equal. unfold slice.
      rewrite drop_app_le by (unfold len in *; lia).
      assert (length (drop (Z.to_nat p) file) <= Z.to_nat n)%nat as Hd
        by (rewrite length_drop; unfold len in *; lia).
      rewrite !take_app_zeros; try done; rewrite ?length_drop; unfold len in *; lia.
  - intros Hpast. unfold readUint8Array, copyBytes, trimAlloc, bind.
    cbn [buffer byteLength position].
    rewrite Z.eqb_refl. cbn [buffer byteLength position].
    destruct (Z.ltb_spec n 0); [done|].
    by destruct (Z.ltb_spec (len file) (p + n)); [|lia].
Qed.

(** Eight bytes asked for when five are left. *)
Lemma readString_pads_with_zeros_witness :
  clean (js "Hello") (newDataStream (js "Hello"))
  /\ (exists ds' k,
         readString 8 (newDataStream (js "Hello"))
         = Ok (take (Z.to_nat 8)
                 (drop (Z.to_nat (position (newDataStream (js "Hello")))) (js "Hello")
                  ++ repeat 0 (Z.to_nat 8)), ds')
         /\ position ds' = position (newDataStream (js "Hello")) + 8
         /\ byteLength ds'
            = Z.max (len (js "Hello")) (position (newDataStream (js "Hello")) + 8)
         /\ buffer ds' = js "Hello" ++ repeat 0 k)
  /\ readUint8Array 8 (newDataStream (js "Hello")) = Throw RangeError.
Proof.
  assert (clean (js "Hello") (newDataStream (js "Hello"))) as H by (split; reflexivity).
  destruct (readString_pads_with_zeros (js "Hello") (newDataStream (js "Hello")) 8 H)
    as [H1 H2]; [vm_compute; split; discriminate | lia |].
  split; [exact H|]. split; [exact H1|]. apply H2. vm_compute. reflexivity.
Defined.

(** ** Fixed properties: timestamps and integers *)

Lemma highPart_signed b0 b1 b2 b3 b4 b5 b6 b7 rest :
  0 <= b4 < 256 -> 0 <= b5 < 256 -> 0 <= b6 < 256 -> 0 <= b7 < 256 ->
  highPart (b0 :: b1 :: b2 :: b3 :: b4 :: b5 :: b6 :: b7 :: rest)
  = le_unsigned [b4; b5; b6; b7] - (if b7 <? 128 then 0 else 2 ^ 32).
Proof.
  intros H4 H5 H6 H7. unfold highPart, byteAt. cbn [nth].
  rewrite (js_shl_byte b5 8), (js_shl_byte b6 16), js_shl_byte_24 by lia.
  rewrite (js_or_shifted b4 b5 8) by lia.
  rewrite (js_or_shifted _ b6 16) by lia.
  rewrite js_or_shifted; [| lia | lia | |].
  - cbn. destruct (Z.ltb_spec b7 128); lia.
  - destruct (Z.ltb_spec b7 128); lia.
  - destruct (Z.ltb_spec b7 128); lia.
Qed.

(** X15.  The timestamp of an 8-byte FILETIME payload.  When byte 3 is
    below 0x80 the ticks are the payload read as a signed little-endian
    64-bit number; when it is 0x80 or above they are the low four bytes
    minus 2^32, whatever the high four bytes are.  The date is the ticks
    less 116444736000000000, divided by 10000 towards zero. *)
Theorem filetime_decoding (b0 b1 b2 b3 b4 b5 b6 b7 : Z) :
  Forall isByte [b0; b1; b2; b3; b4; b5; b6; b7] ->
  convertFiletimeToDateTime [b0; b1; b2; b3; b4; b5; b6; b7]
  = newDate
      (Z.quot
         ((if b3 <? 128
           then le_unsigned [b0; b1; b2; b3; b4; b5; b6; b7]
                - (if b7 <? 128 then 0 else 2 ^ 64)
           else le_unsigned [b0; b1; b2; b3] - 2 ^ 32)
          - epochTicks)
         ticksPerMillisecond).
Proof.
  intros H. repeat (apply Forall_cons in H as [? H]). unfold isByte in *.
  unfold convertFiletimeToDateTime, unixTicks. do 3 f_equal.
  rewrite filetimeValue_cases.
  rewrite lowPart_signed, highPart_signed by lia.
  cbn [le_unsigned].
  destruct (Z.ltb_spec b3 128), (Z.ltb_spec b7 128);
    match goal with |- context [?x <? 0] => destruct (Z.ltb_spec x 0) end; lia.
Qed.

(** The first millisecond of 2020: 132223104000000000 ticks, whose low
    half is below 2^31. *)
Lemma filetime_decoding_witness :
  Forall isByte [0x00; 0x00; 0x05; 0x69; 0x36; 0xC0; 0xD5; 0x01]
  /\ le_unsigned [0x00; 0x00; 0x05; 0x69; 0x36; 0xC0; 0xD5; 0x01] = 132223104000000000
  /\ convertFiletimeToDateTime [0x00; 0x00; 0x05; 0x69; 0x36; 0xC0; 0xD5; 0x01]
     = Date 1577836800000.
Proof.
  assert (Forall isByte [0x00; 0x00; 0x05; 0x69; 0x36; 0xC0; 0xD5; 0x01]) as H
    by (repeat constructor; unfold isByte; lia).
  split; [exact H|]. split; [reflexivity|].
  rewrite (filetime_decoding _ _ _ _ _ _ _ _ H). reflexivity.
Defined.

Lemma bytes_of_array_le (n : nat) : forall (l : list Z) (m : nat),
  Forall isByte l -> (n <= m)%nat ->
  map (fun i => nth i l 0 mod 256) (seq 0 n) = take n (l ++ repeat 0 m).
Proof.
  induction n as [|n IH]; intros l m Hl Hm; [done|].
  cbn [seq map]. rewrite <- seq_shift, map_map.
  destruct l as [|b l].
  - destruct m as [|m]; [lia|]. simpl. f_equal.
    transitivity (map (fun i => nth i [] 0 mod 256) (seq 0 n)).
    + apply map_ext. by intros [|i].
    + apply (IH [] m); [constructor | lia].
  - apply Forall_cons in Hl as [Hb Hl]. simpl. f_equal.
    + apply Z.mod_small. exact Hb.
    + apply IH; [exact Hl | lia].
Qed.

Lemma bytes_of_array (n : nat) (l : list Z) :
  Forall isByte l ->
  map (fun i => nth i l 0 mod 256) (seq 0 n) = take n (l ++ repeat 0 n).
Proof. intros Hl. by apply bytes_of_array_le. Qed.

Lemma take_pad_bytes (n : nat) (l : list Z) :
  Forall isByte l ->
  length (take n (l ++ repeat 0 n)) = n /\ Forall isByte (take n (l ++ repeat 0 n)).
Proof.
  intros Hl. split.
  - rewrite length_take, length_app, repeat_length. lia.
  - apply Forall_take, Forall_app. split; [done|].
    apply List.Forall_forall. intros x ->%repeat_spec. unfold isByte. lia.
Qed.

(** X16.  [#uint8ArrayToInt] reads the bytes of a property value in
    big-endian order, the first byte weighing most: the result is the
    signed number of the first 2, 4 or 8 bytes taken big-endian, a missing
    byte counting as zero.  A small number stored little-endian, as the
    file format stores it, comes out multiplied by 2^24. *)
Theorem uint8ArrayToInt_big_endian (l : list Z) :
  Forall isByte l ->
  uint8ArrayToInt l 16 = toSigned 16 (be_unsigned (take 2 (l ++ repeat 0 2)))
  /\ uint8ArrayToInt l 32 = toSigned 32 (be_unsigned (take 4 (l ++ repeat 0 4)))
  /\ uint8ArrayToInt l 64 = toSigned 64 (be_unsigned (take 8 (l ++ repeat 0 8)))
  /\ (forall v rest, 0 <= v < 128 ->
        uint8ArrayToInt (le32 v ++ rest) 32 = v * 2 ^ 24).
Proof.
  intros Hl. split_and!.
  - unfold uint8ArrayToInt. change (Z.to_nat (16 / 8)) with 2%nat.
    by rewrite bytes_of_array.
  - unfold uint8ArrayToInt. change (Z.to_nat (32 / 8)) with 4%nat.
    by rewrite bytes_of_array.
  - unfold uint8ArrayToInt. change (Z.to_nat (64 / 8)) with 8%nat.
    rewrite bytes_of_array by done. change (64 =? 64) with true. cbv iota.
    destruct (take_pad_bytes 8 l Hl) as [Hlen Hb].
    destruct (take 8 (l ++ repeat 0 8)) as [|a0 [|a1 [|a2 [|a3 [|a4 [|a5 [|a6 [|a7 [|]]]]]]]]];
      try discriminate Hlen.
    repeat (apply Forall_cons in Hb as [? Hb]). unfold isByte in *.
    cbn [take drop]. unfold be_unsigned. cbn [rev app le_unsigned].
    rewrite Z.shiftl_mul_pow2 by lia.
    unfold toSigned.
    rewrite !Z.mod_small by lia.
    change (2 ^ (32 - 1)) with 2147483648. change (2 ^ (64 - 1)) with 9223372036854775808.
    change (2 ^ 32) with 4294967296. change (2 ^ 64) with 18446744073709551616.
    repeat match goal with |- context [?x <? ?y] => destruct (Z.ltb_spec x y) end; lia.
  - intros v rest Hv. unfold uint8ArrayToInt. change (Z.to_nat (32 / 8)) with 4%nat.
    change (32 =? 64) with false. cbv iota.
    unfold le32. cbn [seq map app nth]. unfold be_unsigned. cbn [rev app le_unsigned].
    rewrite (Z.mod_small v 256) by lia.
    rewrite !(Z.div_small v) by lia. change (0 mod 256) with 0.
    rewrite !Z.mod_0_l by lia. rewrite !(Z.mod_small v 256) by lia.
    replace (0 + 256 * (0 + 256 * (0 + 256 * (v + 256 * 0)))) with (v * 16777216) by lia.
    unfold toSigned. rewrite Z.mod_small by lia.
    change (2 ^ (32 - 1)) with 2147483648. change (2 ^ 24) with 16777216.
    destruct (Z.ltb_spec (v * 16777216) 2147483648); lia.
Qed.

(** The value 1 as the format stores it. *)
Lemma uint8ArrayToInt_big_endian_witness :
  Forall isByte (le32 1 ++ repeat 0 4)
  /\ uint8ArrayToInt (le32 1 ++ repeat 0 4) 16 = 256
  /\ uint8ArrayToInt (le32 1 ++ repeat 0 4) 32 = 16777216
  /\ uint8ArrayToInt (le32 1 ++ repeat 0 4) 64 = 72057594037927936.
Proof.
  assert (Forall isByte (le32 1 ++ repeat 0 4)) as H
    by (vm_compute; repeat constructor; discriminate).
  destruct (uint8ArrayToInt_big_endian _ H) as (H16 & H32 & H64 & _).
  split; [exact H|]. rewrite H16, H32, H64. split_and!; reflexivity.
Defined.

(** ** Property streams cut short *)

Lemma readUint8s_short n : forall pre rest ds,
  readingAt pre rest ds -> (length rest < n)%nat ->
  readUint8s n ds = Throw RangeError.
Proof.
  induction n as [|n IH]; intros pre rest ds Hat Hn; [lia|]. simpl.
  destruct rest as [|b r].
  - apply bind_eq_Throw. by apply (readUint8_end pre).
  - destruct (readUint8_at _ _ _ _ Hat) as (ds1 & Hr & Hat1).
    rewrite (bind_eq_Ok _ _ _ _ _ Hr). apply bind_eq_Throw.
    apply (IH _ _ _ Hat1). simpl in Hn. lia.
Qed.

Section CutShort.
Variable MAPI_PROPERTIES : list Z -> option (list Z).
Variable toLowerCase : list Z -> list Z.

Local Abbreviation recordsLoop := (recordsLoop MAPI_PROPERTIES toLowerCase).
Local Abbreviation readRootProperties := (readRootProperties MAPI_PROPERTIES toLowerCase).

(** The record loop, by the number of bytes ahead. *)
Lemma recordsLoop_outcome fuel : forall values pre rest ds,
  readingAt pre rest ds -> (length rest < fuel)%nat ->
  match recordsLoop fuel values ds with
  | Ok _ => (length rest mod 16 = 0)%nat
  | Throw e => e = RangeError /\ (length rest mod 16 <> 0)%nat
  | OutOfFuel => False
  end.
Proof.
  induction fuel as [|f IH]; intros values pre rest ds Hat Hf; [lia|].
  simpl recordsLoop. unfold bind at 1, isEof.
  destruct (decide (length rest = 0)%nat) as [H0|H0].
  - apply length_zero_iff_nil in H0 as ->. simpl.
    destruct Hat as (Hb & Hl & Hp). by rewrite Hl, Hp, app_nil_r, Z.leb_refl.
  - assert ((byteLength ds <=? position ds) = false) as ->.
    { destruct Hat as (Hb & Hl & Hp). rewrite Hl, Hp, len_app.
      apply Z.leb_gt. unfold len. lia. }
    cbv beta iota. unfold readUint16, readUint32.
    destruct (decide (length rest < 2)%nat) as [|E1].
    { rewrite (bind_eq_Throw _ _ _ _ (readBytes_short le_unsigned 2%nat _ _ _ Hat l)).
      split; [done | rewrite Nat.mod_small; lia]. }
    destruct (readBytes_enough le_unsigned 2%nat _ _ _ Hat) as (ds1 & R1 & Hat1); [lia|].
    rewrite (bind_eq_Ok _ _ _ _ _ R1).
    destruct (decide (length rest < 4)%nat) as [|E2].
    { rewrite (bind_eq_Throw _ _ _ _ (readBytes_short le_unsigned 2%nat _ _ _ Hat1
                 ltac:(rewrite length_drop; lia))).
      split; [done | rewrite Nat.mod_small; lia]. }
    destruct (readBytes_enough le_unsigned 2%nat _ _ _ Hat1) as (ds2 & R2 & Hat2);
      [rewrite length_drop; lia|].
    rewrite (bind_eq_Ok _ _ _ _ _ R2).
    destruct (decide (length rest < 8)%nat) as [|E3].
    { rewrite (bind_eq_Throw _ _ _ _ (readBytes_short le_unsigned 4%nat _ _ _ Hat2
                 ltac:(rewrite !length_drop; lia))).
      split; [done | rewrite Nat.mod_small; lia]. }
    destruct (readBytes_enough le_unsigned 4%nat _ _ _ Hat2) as (ds3 & R3 & Hat3);
      [rewrite !length_drop; lia|].
    rewrite (bind_eq_Ok _ _ _ _ _ R3).
    destruct (decide (length rest < 16)%nat) as [|E4].
    { rewrite (bind_eq_Throw _ _ _ _ (readUint8s_short 8 _ _ _ Hat3
                 ltac:(rewrite !length_drop; lia))).
      split; [done | rewrite Nat.mod_small; lia]. }
    rewrite <- (take_drop 8 (drop 4 _)) in Hat3.
    destruct (readUint8s_at _ _ _ _ Hat3) as (ds4 & R4 & Hat4).
    rewrite length_take, !length_drop, Nat.min_l in R4 by lia.
    rewrite (bind_eq_Ok _ _ _ _ _ R4).
    rewrite !drop_drop in Hat4. simpl Nat.add in Hat4.
    match goal with |- context [recordsLoop f ?v ds4] =>
      specialize (IH v _ _ _ Hat4) end.
    rewrite length_drop in IH. specialize (IH ltac:(lia)).
    replace ((length rest - 16) mod 16)%nat with (length rest mod 16)%nat in IH.
    + exact IH.
    + replace (length rest) with ((length rest - 16) + 1 * 16)%nat at 1 by lia.
      by rewrite Nat.Div0.mod_add.
Qed.

Lemma reserved_zero_scan n (l : list Z) :
  Forall (fun b => b = 0) (take n l) ->
  scanReserved n l <> Throw invalidPropertiesHeader.
Proof.
  intros Hz (i & b & Hi & Hl & Hb)%scanReserved_invalid.
  apply Hb. eapply (proj1 (Forall_lookup _ _) Hz i).
  by rewrite lookup_take_lt.
Qed.

(** X17.  Of a property stream whose reserved bytes are zero, the decoding
    succeeds exactly when the stream is the 32-byte header followed by whole
    16-byte records; a stream cut anywhere else, inside the header or inside
    a record, makes the decoding throw a [RangeError]. *)
Theorem readRootProperties_cut_short (bytes : list Z) :
  Forall (fun b => b = 0) (take 8 bytes ++ take 8 (drop 24 bytes)) ->
  ((exists values, readRootProperties (VBytes bytes) = Ok values)
   <-> (32 <= length bytes)%nat /\ ((length bytes - 32) mod 16 = 0)%nat)
  /\ (readRootProperties (VBytes bytes) = Throw RangeError
      <-> (length bytes < 32)%nat \/ ((length bytes - 32) mod 16 <> 0)%nat).
Proof.
  intros [Z1 Z2]%Forall_app.
  apply reserved_zero_scan in Z1, Z2.
  rewrite readRootProperties_headerPart.
  pose proof (headerPart_outcome bytes) as H.
  destruct (scanReserved_outcome 8 bytes) as [S1|[S1|[S1 L1]]]; [|done|];
    rewrite S1 in H.
  2:{ rewrite (bind_eq_Throw _ _ _ _ H).
      split; (split; intros ?); [by destruct H0 | lia | left; lia | done]. }
  destruct (decide (length bytes < 24)%nat) as [Hshort|Hlong].
  { rewrite (bind_eq_Throw _ _ _ _ H).
    split; (split; intros ?); [by destruct H0 | lia | left; lia | done]. }
  destruct (scanReserved_outcome 8 (drop 24 bytes)) as [S2|[S2|[S2 L2]]]; [|done|];
    rewrite S2 in H.
  2:{ rewrite length_drop in L2. rewrite (bind_eq_Throw _ _ _ _ H).
      split; (split; intros ?); [by destruct H0 | lia | left; lia | done]. }
  apply scanReserved_Ok in S2 as [L2 _]. rewrite length_drop in L2.
  destruct H as (ds' & H & Hat). rewrite (bind_eq_Ok _ _ _ _ _ H).
  pose proof (recordsLoop_outcome (S (length bytes))
                {[ js "_header" := RHeader (decodeHeader (take 16 (drop 8 bytes))) ]}
                _ _ _ Hat) as Hrec.
  rewrite length_drop in Hrec. specialize (Hrec ltac:(lia)).
  destruct (recordsLoop _ _ ds') as [[v ds2]|e|]; [| |done].
  - split; (split; intros ?); [lia | by exists v | done | lia].
  - destruct Hrec as [-> Hm].
    split; (split; intros ?); [by destruct H0 | lia | by right | done].
Qed.

End CutShort.

(** The property stream of the test message, whole and without its last
    byte. *)
Lemma readRootProperties_cut_short_witness :
  Forall (fun b => b = 0) (take 8 sampleProperties ++ take 8 (drop 24 sampleProperties))
  /\ (exists values,
        readRootProperties mapiExcerpt asciiLower (VBytes sampleProperties) = Ok values)
  /\ readRootProperties mapiExcerpt asciiLower (VBytes (take 47 sampleProperties))
     = Throw RangeError.
Proof.
  assert (Forall (fun b => b = 0)
            (take 8 sampleProperties ++ take 8 (drop 24 sampleProperties))) as H1
    by (vm_compute; repeat constructor).
  assert (Forall (fun b => b = 0)
            (take 8 (take 47 sampleProperties)
             ++ take 8 (drop 24 (take 47 sampleProperties)))) as H2
    by (vm_compute; repeat constructor).
  split; [exact H1|]. split.
  - apply (readRootProperties_cut_short mapiExcerpt asciiLower _ H1).
    split; vm_compute; [lia | reflexivity].
  - apply (readRootProperties_cut_short mapiExcerpt asciiLower _ H2).
    right. vm_compute. discriminate.
Defined.

(** ** Values of streams: the large ones and the empty ones *)

(** X18.  A binary stream of 4096 bytes or more is read as one range of
    the file: its declared size in bytes from the start of its first
    sector on (the offset brought into the file when it lies outside), or
    a [RangeError] when the file ends before.  The allocation tables and
    the directory play no part: with the same sector size, any container
    data gives the same value, whatever the storage type. *)
Theorem large_stream_is_one_range
    (fuel : nat) (m : msgData) (fp : property) (file : list Z) (ds : DataStream) :
  clean file ds ->
  BIG_BLOCK_MIN_DOC_SIZE <= sizeBlock fp ->
  let pos := Z.max 0 (Z.min (len file) ((startBlock fp + 1) * bigBlockSize m)) in
  getFieldValue fuel m fp (Some TBinary) ds
  = (if pos + sizeBlock fp <=? len file
     then Ok (VBytes (slice file pos (sizeBlock fp)),
              mkDataStream file (len file) (pos + sizeBlock fp))
     else Throw RangeError)
  /\ (forall fuel' m' t, bigBlockSize m' = bigBlockSize m ->
        getFieldValue fuel' m' fp (Some t) ds = getFieldValue fuel m fp (Some t) ds).
Proof.
  intros [Hb Hl] Hsize pos. unfold getFieldValue, valueExtractor.
  destruct (Z.ltb_spec (sizeBlock fp) BIG_BLOCK_MIN_DOC_SIZE) as [|_]; [lia|].
  split.
  - cbn [extractor]. unfold extractDataViaBat, getBlockOffsetAt, num_map.
    unfold bind at 1, seek. rewrite Hl. fold pos.
    cbn [batDataType]. unfold readUint8Array, copyBytes, trimAlloc, bind, ret.
    cbn [buffer byteLength position]. rewrite Hb, Z.eqb_refl.
    cbn [buffer byteLength position].
    unfold BIG_BLOCK_MIN_DOC_SIZE in Hsize.
    destruct (Z.ltb_spec (sizeBlock fp) 0); [lia|]. cbn [orb].
    destruct (Z.leb_spec (pos + sizeBlock fp) (len file));
      destruct (Z.ltb_spec (len file) (pos + sizeBlock fp)); try lia; done.
  - intros fuel' m' t Hm. cbn [extractor]. unfold extractDataViaBat, getBlockOffsetAt.
    by rewrite Hm.
Qed.

(** A stream of 4096 bytes in the second sector of a file of 512-byte
    sectors. *)
Lemma large_stream_is_one_range_witness :
  clean (repeat 7 512 ++ repeat 9 4096) (newDataStream (repeat 7 512 ++ repeat 9 4096))
  /\ getFieldValue 1 (mkMsgData 512 128 127 0 0 0 0 0 0 [] [] [])
       (mkProperty 1 DOCUMENT [] (-1) (-1) (-1) 0 4096 None) (Some TBinary)
       (newDataStream (repeat 7 512 ++ repeat 9 4096))
     = Ok (VBytes (repeat 9 4096),
           mkDataStream (repeat 7 512 ++ repeat 9 4096) 4608 4608).
Proof.
  assert (clean (repeat 7 512 ++ repeat 9 4096)
            (newDataStream (repeat 7 512 ++ repeat 9 4096))) as H
    by (split; reflexivity).
  split; [exact H|].
  destruct (large_stream_is_one_range 1 (mkMsgData 512 128 127 0 0 0 0 0 0 [] [] [])
              (mkProperty 1 DOCUMENT [] (-1) (-1) (-1) 0 4096 None) _ _ H)
    as [Hv _]; [vm_compute; discriminate|].
  rewrite Hv. vm_compute. reflexivity.
Defined.

Lemma sbatDataType_not_null t a b n ds ds' :
  sbatDataType t a b n ds <> Ok (VNull, ds').
Proof.
  unfold sbatDataType. intros H.
  apply bind_Ok in H as ([] & s1 & _ & H).
  destruct t; apply bind_Ok in H as (x & s2 & _ & H); by apply ret_Ok in H as [? _].
Qed.

Lemma chainBySmall_grows fuel m : forall next chain ds r ds',
  chainBySmall fuel m next chain ds = Ok (r, ds') ->
  (length chain <= length r)%nat
  /\ (is_num next END_OF_CHAIN = false -> (length chain < length r)%nat).
Proof.
  induction fuel as [|f IH]; intros next chain ds r ds' H; [done|].
  simpl in H. destruct (is_num next END_OF_CHAIN).
  - apply ret_Ok in H as [-> _]. split; [lia | done].
  - apply bind_Ok in H as (nb & s1 & _ & H).
    apply IH in H as [H _]. rewrite length_app in H. simpl in H. split; lia.
Qed.

(** X19.  A stream of fewer than 4096 bytes has the value [null] exactly
    when its start block is the end-of-chain mark: the walk of an empty
    chain reads nothing and leaves the stream where it was, and a chain of
    one block or more never gives [null]. *)
Theorem null_exactly_for_empty_chain
    (fuel : nat) (m : msgData) (fp : property) (t : dtype) (ds : DataStream) :
  sizeBlock fp < BIG_BLOCK_MIN_DOC_SIZE ->
  (startBlock fp = END_OF_CHAIN ->
   getFieldValue (S fuel) m fp (Some t) ds = Ok (VNull, ds))
  /\ (forall ds', getFieldValue fuel m fp (Some t) ds = Ok (VNull, ds') ->
        startBlock fp = END_OF_CHAIN).
Proof.
  intros Hsmall. unfold getFieldValue, valueExtractor.
  destruct (Z.ltb_spec (sizeBlock fp) BIG_BLOCK_MIN_DOC_SIZE) as [_|]; [|lia].
  cbn [extractor]. unfold extractDataViaSbat, getChainByBlockSmall. split.
  - intros ->. reflexivity.
  - intros ds' H. apply bind_Ok in H as (chain & s1 & Hc & H).
    destruct (Z.eqb_spec (len chain) 1) as [|Hne].
    { unfold readDataByBlockSmall in H.
      destruct (entryAt (propertyData m) 0); [|done].
      apply bind_Ok in H as (nb & s2 & _ & H). by apply sbatDataType_not_null in H. }
    destruct (Z.ltb_spec 1 (len chain)) as [|Hlen].
    { unfold readChainDataByBlockSmall in H.
      destruct (sizeBlock fp <? 0); [done|].
      apply bind_Ok in H as (res & s2 & _ & H). unfold onLocal in H.
      destruct (sbatDataType _ _ _ _ _) as [[v l']| |] eqn:E; [|done..].
      simplify_eq. by apply sbatDataType_not_null in E. }
    apply chainBySmall_grows in Hc as [_ Hc].
    destruct (is_num (Int (startBlock fp)) END_OF_CHAIN) eqn:E.
    + simpl in E. by apply Z.eqb_eq in E.
    + specialize (Hc eq_refl). simpl in Hc. unfold len in *. lia.
Qed.

(** An empty stream of string type. *)
Lemma null_exactly_for_empty_chain_witness :
  sizeBlock (mkProperty 4 DOCUMENT [] (-1) (-1) (-1) END_OF_CHAIN 0 None)
    < BIG_BLOCK_MIN_DOC_SIZE
  /\ getFieldValue 1 (mkMsgData 512 128 127 0 0 0 0 0 0 [] [] [])
       (mkProperty 4 DOCUMENT [] (-1) (-1) (-1) END_OF_CHAIN 0 None) (Some TString)
       (newDataStream [])
     = Ok (VNull, newDataStream []).
Proof.
  assert (sizeBlock (mkProperty 4 DOCUMENT [] (-1) (-1) (-1) END_OF_CHAIN 0 None)
          < BIG_BLOCK_MIN_DOC_SIZE) as H by (vm_compute; reflexivity).
  split; [exact H|].
  apply (null_exactly_for_empty_chain 0 (mkMsgData 512 128 127 0 0 0 0 0 0 [] [] [])
           (mkProperty 4 DOCUMENT [] (-1) (-1) (-1) END_OF_CHAIN 0 None)
           TString (newDataStream []) H).
  reflexivity.
Defined.

(** ** Writing to a stream *)

Lemma slice_app_at (A B C : list Z) :
  slice (A ++ B ++ C) (len A) (len B) = B.
Proof.
  unfold slice, len. rewrite !Nat2Z.id.
  rewrite drop_app_length. by rewrite take_app_length.
Qed.

Lemma slice_before (A B : list Z) (a k : Z) :
  0 <= a -> 0 <= k -> a + k <= len A -> slice (A ++ B) a k = slice A a k.
Proof.
  intros Ha Hk Hl. unfold slice, len in *.
  rewrite drop_app_le by lia. rewrite take_app_le; [done|].
  rewrite length_drop. lia.
Qed.

Lemma slice_take (l : list Z) (p a k : Z) :
  0 <= a -> 0 <= k -> a + k <= p -> slice (take (Z.to_nat p) l) a k = slice l a k.
Proof.
  intros Ha Hk Hp. unfold slice.
  replace (Z.to_nat p) with (Z.to_nat a + (Z.to_nat p - Z.to_nat a))%nat by lia.
  rewrite <- take_drop_commute, take_take. f_equal. lia.
Qed.

Lemma slice_split (l : list Z) (a k1 k2 : Z) :
  0 <= a -> 0 <= k1 -> 0 <= k2 ->
  slice l a (k1 + k2) = slice l a k1 ++ slice l (a + k1) k2.
Proof.
  intros Ha H1 H2. unfold slice.
  rewrite !Z2Nat.inj_add by lia. rewrite <- drop_drop.
  generalize (drop (Z.to_nat a) l). intros l'.
  by rewrite take_take_drop.
Qed.

(** A write of [n] bytes at the seek pointer. *)
Lemma write_bytes (ds : DataStream) (bs : list Z) :
  inBounds ds ->
  exists ds',
    (do realloc (len bs) then setBytes bs) ds = Ok (tt, ds')
    /\ inBounds ds'
    /\ position ds' = position ds + len bs
    /\ byteLength ds' = Z.max (byteLength ds) (position ds + len bs)
    /\ slice (buffer ds') (position ds) (len bs) = bs
    /\ (forall a k, 0 <= a -> 0 <= k -> a + k <= position ds ->
          slice (buffer ds') a k = slice (buffer ds) a k).
Proof.
  intros [Hp Hl]. destruct ds as [buf bl p]. cbn [buffer byteLength position] in *.
  assert (0 <= len bs) as Hn by (unfold len; lia).
  assert (exists buf1 bl1,
             realloc (len bs) (mkDataStream buf bl p) = Ok (tt, mkDataStream buf1 bl1 p)
             /\ p + len bs <= len buf1
             /\ bl1 = Z.max bl (p + len bs) /\ bl1 <= len buf1
             /\ take (Z.to_nat p) buf1 = take (Z.to_nat p) buf) as (buf1 & bl1 & Hr & H1 & H2 & H3 & H4).
  { unfold realloc. cbn [buffer byteLength position].
    destruct (Z.leb_spec (p + len bs) (len buf)) as [Hfit|Hpast].
    - destruct (Z.ltb_spec bl (p + len bs)).
      + exists buf, (p + len bs). split_and!; [done | lia | lia | lia | done].
      + exists buf, bl. split_and!; [done | lia | lia | lia | done].
    - set (blen1 := if len buf <? 1 then 1 else len buf).
      set (blen2 := doubleUntil (Z.to_nat (p + len bs)) (p + len bs) blen1).
      assert (1 <= blen1) as Hb1
        by (unfold blen1; destruct (Z.ltb_spec (len buf) 1); unfold len in *; lia).
      assert (len buf <= blen1) as Hb1'
        by (unfold blen1; destruct (Z.ltb_spec (len buf) 1); lia).
      assert (p + len bs <= blen2) as Hb2.
      { apply doubleUntil_reaches; [done|]. rewrite Z2Nat.id by lia.
        pose proof (Z.pow_gt_lin_r 2 (p + len bs) ltac:(lia) ltac:(lia)). nia. }
      exists (buf ++ repeat 0 (Z.to_nat (blen2 - len buf))), (p + len bs).
      assert (len (buf ++ repeat 0 (Z.to_nat (blen2 - len buf))) = blen2) as Hlen.
      { rewrite len_app. unfold len at 2. rewrite repeat_length. lia. }
      rewrite Hlen. split_and!; [done | lia | lia | lia |].
      rewrite take_app_le; [done|]. unfold len in *. lia. }
  exists (mkDataStream (take (Z.to_nat p) buf1 ++ bs ++ drop (Z.to_nat (p + len bs)) buf1)
            bl1 (p + len bs)).
  assert (len (take (Z.to_nat p) buf1) = p) as Htake
    by (unfold len in *; rewrite length_take; lia).
  split_and!.
  - rewrite (bind_eq_Ok _ _ _ _ _ Hr). unfold setBytes. cbn [buffer byteLength position].
    by destruct (Z.leb_spec (p + len bs) (len buf1)); [|lia].
  - unfold inBounds. cbn [buffer byteLength position].
    rewrite !len_app, Htake.
    assert (len (drop (Z.to_nat (p + len bs)) buf1) = len buf1 - (p + len bs)) as ->
      by (unfold len in *; rewrite length_drop; lia).
    lia.
  - done.
  - done.
  - cbn [buffer position].
    pose proof (slice_app_at (take (Z.to_nat p) buf1) bs
                  (drop (Z.to_nat (p + len bs)) buf1)) as Hs.
    by rewrite Htake in Hs.
  - intros a k Ha Hk Hak. cbn [buffer position] in *.
    rewrite slice_before by lia. rewrite H4. by apply slice_take.
Qed.

Lemma le_unsigned_le32 (v : Z) : le_unsigned (le32 v) = v mod 2 ^ 32.
Proof.
  unfold le32. cbn [le_unsigned].
  change (2 ^ 32) with (256 * (256 * (256 * 256))).
  rewrite !Z.rem_mul_r by lia. rewrite !Z.div_div by lia.
  change (256 * 256) with 65536. change (65536 * 256) with 16777216. lia.
Qed.

Lemma writeString_written (s : jsstring) : forall ds p0 w,
  0 <= p0 -> inBounds ds -> position ds = p0 + len w ->
  slice (buffer ds) p0 (len w) = w ->
  exists ds',
    writeString s ds = Ok (tt, ds') /\ inBounds ds'
    /\ position ds' = p0 + len w + len s
    /\ byteLength ds' = Z.max (byteLength ds) (p0 + len w + len s)
    /\ slice (buffer ds') p0 (len w + len s) = w ++ map (fun c => c mod 256) s.
Proof.
  induction s as [|c s IH]; intros ds p0 w H0 Hin Hp Hw.
  - exists ds. simpl. change (len []) with 0. rewrite !Z.add_0_r, app_nil_r.
    split_and!; try done. destruct Hin. lia.
  - destruct (write_bytes ds [c mod 256] Hin) as (ds1 & Hwr & Hin1 & Hp1 & Hl1 & Hs1 & Hf1).
    change (len [c mod 256]) with 1 in *.
    assert (0 <= len w) as Hlw by (unfold len; lia).
    destruct (IH ds1 p0 (w ++ [c mod 256]) H0 Hin1) as (ds' & Hws & Hin' & Hp' & Hl' & Hs').
    + rewrite len_app. change (len [c mod 256]) with 1. lia.
    + rewrite len_app. change (len [c mod 256]) with 1.
      rewrite slice_split by lia. rewrite Hf1 by lia. rewrite Hw.
      rewrite <- Hp. by rewrite Hs1.
    + exists ds'. rewrite len_app in *. change (len [c mod 256]) with 1 in *.
      change (len (c :: s)) with (Z.of_nat (S (length s))).
      replace (Z.of_nat (S (length s))) with (1 + len s) by (unfold len; lia).
      split_and!.
      * cbn [writeString]. unfold writeUint8.
        change 1 with (len [c mod 256]) at 1.
        by rewrite (bind_eq_Ok _ _ _ _ _ Hwr).
      * done.
      * lia.
      * assert (0 <= len s) by (unfold len; lia). lia.
      * rewrite Z.add_assoc, Hs', <- app_assoc. done.
Qed.

(** X20.  What was written is read back.  On a stream whose seek pointer
    is inside its data, a number written by [writeUint32] or [writeInt32]
    and read again at the same place is the number modulo 2^32, unsigned or
    signed; a string written by [writeString] is read again by [readString]
    with every code unit reduced modulo 256.  The stream grows as the write
    needs, so that no write fails. *)
Theorem written_data_reads_back (ds : DataStream) (v : Z) (s : jsstring) :
  inBounds ds ->
  (exists ds', (do writeUint32 v then do seek (Int (position ds)) then readUint32) ds
               = Ok (v mod 2 ^ 32, ds')
               /\ byteLength ds' = Z.max (byteLength ds) (position ds + 4))
  /\ (exists ds', (do writeInt32 v then do seek (Int (position ds)) then readInt32) ds
                  = Ok (toSigned 32 v, ds'))
  /\ (exists ds', (do writeString s then do seek (Int (position ds)) then
                   readString (len s)) ds
                  = Ok (map (fun c => c mod 256) s, ds')
                  /\ byteLength ds' = Z.max (byteLength ds) (position ds + len s)).
Proof.
  intros Hin.
  assert (forall (f : list Z -> Z),
            exists ds', (do (do realloc 4 then setBytes (le32 v)) then
                         do seek (Int (position ds)) then
                         let* b := viewBytes 4 in ret (f b)) ds
                        = Ok (f (le32 v), ds')
                        /\ byteLength ds' = Z.max (byteLength ds) (position ds + 4)) as Hnum.
  { intros f.
    destruct (write_bytes ds (le32 v) Hin) as (ds1 & Hwr & [Hp1 Hb1] & Hq1 & Hl1 & Hs1 & _).
    change (len (le32 v)) with 4 in *.
    rewrite (bind_eq_Ok _ _ _ _ _ Hwr).
    unfold bind at 1, seek. unfold bind, viewBytes, ret. cbn [buffer byteLength position].
    destruct Hin as [Hp _].
    replace (Z.max 0 (Z.min (byteLength ds1) (position ds))) with (position ds) by lia.
    destruct (Z.leb_spec (position ds + 4) (len (buffer ds1))); [|lia].
    rewrite Hs1. eexists. split; [reflexivity|]. exact Hl1. }
  split_and!.
  - destruct (Hnum le_unsigned) as (ds' & H & Hl). exists ds'.
    rewrite <- le_unsigned_le32. by split.
  - destruct (Hnum (fun b => toSigned 32 (le_unsigned b))) as (ds' & H & _). exists ds'.
    cbv beta in H. rewrite le_unsigned_le32 in H. unfold toSigned in H |- *.
    rewrite Z.mod_mod in H by lia. exact H.
  - destruct (writeString_written s ds (position ds) [] (proj1 (proj1 Hin)) Hin)
      as (ds1 & Hws & [Hp1 Hb1] & Hq1 & Hl1 & Hs1).
    { change (len []) with 0. lia. }
    { done. }
    change (len []) with 0 in *. rewrite Z.add_0_r in Hq1, Hl1. rewrite Z.add_0_l in Hs1.
    simpl in Hs1.
    assert (0 <= len s) as Hls by (unfold len; lia).
    rewrite (bind_eq_Ok _ _ _ _ _ Hws).
    unfold bind at 1, seek. destruct Hin as [Hp _].
    replace (Z.max 0 (Z.min (byteLength ds1) (position ds))) with (position ds) by lia.
    unfold readString, mapUint8Array, realloc, bind, ret, createStringFromArray.
    cbn [buffer byteLength position].
    destruct (Z.leb_spec (position ds + len s) (len (buffer ds1))); [|lia].
    destruct (Z.ltb_spec (byteLength ds1) (position ds + len s)); [lia|].
    cbn [buffer byteLength position].
    destruct (Z.ltb_spec (len s) 0); [lia|].
    destruct (Z.ltb_spec (len (buffer ds1)) (position ds + len s)); [lia|].
    cbn [orb]. rewrite Hs1. eexists. split; [reflexivity|]. exact Hl1.
Qed.

(** A number and a string written at the end of a stream of three bytes. *)
Lemma written_data_reads_back_witness :
  inBounds (mkDataStream [1; 2; 3] 3 3)
  /\ (exists ds', (do writeUint32 (-1) then do seek (Int 3) then readUint32)
                    (mkDataStream [1; 2; 3] 3 3)
                  = Ok (4294967295, ds') /\ byteLength ds' = 7)
  /\ (exists ds', (do writeString [72; 8364] then do seek (Int 3) then readString 2)
                    (mkDataStream [1; 2; 3] 3 3)
                  = Ok ([72; 172], ds') /\ byteLength ds' = 5).
Proof.
  assert (inBounds (mkDataStream [1; 2; 3] 3 3)) as H
    by (unfold inBounds, len; simpl; lia).
  destruct (written_data_reads_back (mkDataStream [1; 2; 3] 3 3) (-1) [72; 8364] H)
    as (H1 & _ & H3).
  split; [exact H|]. split; [exact H1 | exact H3].
Defined.
